(** * DataSemanticGuard: the statistical drift detector of [detector.js]

    A shallow embedding of the class [SemanticCorruptionDetector]
    (.github/actions/data-semantic-guard/detector.js) and the properties of
    its summariser and of its four heuristic detectors, and of the CSV
    reader [parseCSV] of the action (index.js).

    JavaScript numbers are IEEE 754 binary64 values: they are modelled by
    Rocq's primitive [float], whose operations are the processor's, so that
    NaN, the infinities, signed zeros, rounding and overflow are those of
    the program.  The detector object is a record that is threaded through
    the methods (a state monad with exceptions). *)

From Stdlib Require Import Reals Lra.
From Stdlib Require Import ZArith List String Ascii Bool Lia Floats DecimalString.
From Stdlib Require Import Permutation Sorted.
Import ListNotations.

Set Warnings "-inexact-float".

(** ** JavaScript built-ins used by the detector *)

(** The functions that ECMAScript leaves implementation-approximated (or whose
    algorithm is too long to be worth embedding) are the fields of an
    [engine]; every definition below takes the engine as a parameter and the
    theorems hold for each engine. *)
Record engine : Type := {
  (** [Math.log10] *)
  Math_log10 : float -> float;
  (** [Math.pow] *)
  Math_pow : float -> float -> float;
  (** [Number::toString], reached by [toFixed] from 1e21 on *)
  Number_toString : float -> string
}.

(** Abrupt completions: the source throws [Error] in [calculateStats], and
    [Number.prototype.toFixed] throws [RangeError] on a digit count outside
    0..100. *)
Inductive exn : Type :=
| Error (message : string)
| RangeError (message : string).

Inductive completion (A : Type) : Type :=
| Normal (value : A)
| Throw (e : exn).
Arguments Normal {A} value.
Arguments Throw {A} e.

Module JS.

Local Open Scope float_scope.

(** The number of an integer, correctly rounded (exact below 2^53). *)
Definition number_of_Z (z : Z) : float :=
  SF2Prim (binary_normalize prec emax z 0 false).

(** [x === 0] on numbers: IEEE equality, so that [-0 === 0] and
    [NaN === 0] is false. *)
Definition strict_eq (x y : float) : bool := x =? y.

(** [x > y] *)
Definition gt (x y : float) : bool := y <? x.

(** The global [isFinite] on a number. *)
Definition isFinite (x : float) : bool := is_finite x.

(** [!x] for a property that holds a number or is absent ([undefined]):
    [undefined], [NaN], [+0] and [-0] are falsy. *)
Definition falsy (x : option float) : bool :=
  match x with
  | None => true
  | Some v => is_nan v || (v =? 0)
  end.

(** [Math.max(x, ...xs)] and [Math.min] on the confidence scores, which are
    small integers (at most 110 before the clamp): the arithmetic of
    binary64 is exact on them, and they are kept in [Z]. *)
Definition Math_max (x : Z) (xs : list Z) : Z := fold_left Z.max xs x.
Definition Math_min (x y : Z) : Z := Z.min x y.

(** [a[i]]; outside the array JavaScript answers [undefined], which the
    arithmetic of the callers would turn into NaN.  [calculateStats] only
    reads inside the array (lemma [calculateStats_indices]). *)
Definition get (a : list float) (i : nat) : float := nth i a nan.

(** [Array.prototype.sort(comparefn)]: the sort is stable and, for a
    consistent comparator, its result is the one of insertion sort; [x] is
    put after [y] only when [comparefn(x, y) > 0] (a NaN is read as 0). *)
Fixpoint insert (comparefn : float -> float -> float) (x : float)
    (l : list float) : list float :=
  match l with
  | [] => [x]
  | y :: l' =>
      if gt (comparefn x y) 0 then y :: insert comparefn x l' else x :: l
  end.

Definition sort (comparefn : float -> float -> float) (a : list float)
    : list float :=
  fold_right (insert comparefn) [] a.

(** [Array.prototype.reduce(f, init)] *)
Definition reduce {A : Type} (f : A -> float -> A) (init : A)
    (a : list float) : A :=
  fold_left f a init.

(** *** [Number.prototype.toFixed] *)

Local Open Scope string_scope.

Definition decimal (n : Z) : string :=
  NilZero.string_of_uint (N.to_uint (Z.to_N n)).

Fixpoint zeros (k : nat) : string :=
  match k with
  | O => ""
  | S k' => "0" ++ zeros k'
  end.

(** Steps 11.b-11.c: the digits of [n] with a point before the last [f]. *)
Definition fixed_point (n : Z) (f : nat) : string :=
  let m := decimal n in
  match f with
  | O => m
  | _ =>
      let k := String.length m in
      let m := if (k <=? f)%nat then zeros (f + 1 - k) ++ m else m in
      let k := String.length m in
      substring 0 (k - f) m ++ "." ++ substring (k - f) f m
  end.

(** Step 11.a: the integer [n] for which [n / 10^f - m * 2^e] is closest
    to zero, the larger one when there are two. *)
Definition nearest_scaled (m : positive) (e : Z) (f : nat) : Z :=
  let q := (Z.pos m * 10 ^ Z.of_nat f)%Z in
  if (0 <=? e)%Z then (q * 2 ^ e)%Z
  else ((2 * q + 2 ^ (- e)) / (2 * 2 ^ (- e)))%Z.

(** Steps 6-12, once the digit count [f] is known to be in range. *)
Definition fixed (E : engine) (x : float) (f : nat) : string :=
  match Prim2SF x with
  | S754_nan => "NaN"
  | S754_infinity false => "Infinity"
  | S754_infinity true => "-Infinity"
  | S754_zero _ => fixed_point 0 f
  | S754_finite s m e =>
      (if s then "-" else "") ++
      (if (1e21 <=? abs x)%float then Number_toString E (abs x)
       else fixed_point (nearest_scaled m e f) f)
  end.

Definition toFixed (E : engine) (x : float) (fractionDigits : Z)
    : completion string :=
  if ((fractionDigits <? 0) || (100 <? fractionDigits))%Z
  then Throw (RangeError "toFixed() digits argument must be between 0 and 100")
  else Normal (fixed E x (Z.to_nat fractionDigits)).

End JS.

(** ** The data model *)

(** The object returned by [calculateStats] (and read back from the baseline
    file). *)
Record summary : Type := {
  mean : float;
  median : float;
  std_dev : float;
  min : float;
  max : float;
  p25 : float;
  p75 : float;
  count : Z;
  variance : float
}.

(** An entry of [conversionHeuristics]; [ratio] and [offset] are absent from
    some entries. *)
Record heuristic : Type := {
  ratio : option float;
  offset : option float;
  tolerance : float;
  description : string
}.

(** The state of a [SemanticCorruptionDetector]: [this.comparisonType],
    [this.anomalies] and [this.confidence].  [this.conversionHeuristics] is
    assigned once by the constructor and never written again: it is the
    constant [conversionHeuristics] below. *)
Record detector : Type := {
  comparisonType : string;
  anomalies : list string;
  confidence : Z
}.

(** What a sub-detector returns: [{ detected, confidence }]. *)
Record signal : Type := {
  sig_detected : bool;
  sig_confidence : Z
}.

(** What [analyze] returns: [{ confidence, anomalies, detected }]. *)
Record DetectionResult : Type := {
  res_confidence : Z;
  res_anomalies : list string;
  res_detected : bool
}.

(** The constructor. *)
Definition new_detector (comparisonType : string) : detector :=
  {| comparisonType := comparisonType; anomalies := []; confidence := 0 |}.

Definition conversionHeuristics : list (string * heuristic) :=
  [ ("currency_usd_to_inr"%string,
      {| ratio := Some 83.0%float; offset := None; tolerance := 0.15%float;
         description := "USD to INR conversion" |});
    ("currency_usd_to_jpy"%string,
      {| ratio := Some 150.0%float; offset := None; tolerance := 0.15%float;
         description := "USD to JPY conversion" |});
    ("temperature_c_to_f"%string,
      {| ratio := Some 1.8%float; offset := Some 32%float;
         tolerance := 0.1%float; description := "Celsius to Fahrenheit" |});
    ("length_m_to_ft"%string,
      {| ratio := Some 3.28084%float; offset := None; tolerance := 0.05%float;
         description := "Meters to Feet" |});
    ("custom_numeric_distribution"%string,
      {| ratio := None; offset := None; tolerance := 0.2%float;
         description := "Generic numeric distribution" |}) ].

(** [conversionHeuristics] is an object literal, so a key that is not its own
    is looked up in [Object.prototype]: the value found there is a function
    (or, for [__proto__], the prototype itself), which is truthy and has
    neither [ratio] nor [description]. *)
Definition objectPrototypeKeys : list string :=
  [ "constructor"; "__defineGetter__"; "__defineSetter__"; "hasOwnProperty";
    "__lookupGetter__"; "__lookupSetter__"; "isPrototypeOf";
    "propertyIsEnumerable"; "toString"; "valueOf"; "__proto__";
    "toLocaleString" ]%string.

Inductive property : Type :=
| Own (h : heuristic)
| Inherited.

Fixpoint assoc (key : string) (table : list (string * heuristic))
    : option heuristic :=
  match table with
  | [] => None
  | (k, h) :: table' => if String.eqb key k then Some h else assoc key table'
  end.

(** [this.conversionHeuristics[key]]; [None] is [undefined]. *)
Definition lookupHeuristic (key : string) : option property :=
  match assoc key conversionHeuristics with
  | Some h => Some (Own h)
  | None =>
      if existsb (String.eqb key) objectPrototypeKeys then Some Inherited
      else None
  end.

(** [heuristic.ratio] and [heuristic.description] of a value found by the
    lookup. *)
Definition property_ratio (p : property) : option float :=
  match p with
  | Own h => ratio h
  | Inherited => None
  end.

Definition property_description (p : property) : string :=
  match p with
  | Own h => description h
  | Inherited => "undefined"
  end.

(** ** The monad of the methods: state [this], and exceptions *)

Definition M (A : Type) : Type := detector -> completion (A * detector).

Definition ret {A : Type} (a : A) : M A := fun this => Normal (a, this).

Definition bind {A B : Type} (m : M A) (k : A -> M B) : M B :=
  fun this =>
    match m this with
    | Normal (a, this') => k a this'
    | Throw e => Throw e
    end.

Definition lift {A : Type} (c : completion A) : M A :=
  fun this =>
    match c with
    | Normal a => Normal (a, this)
    | Throw e => Throw e
    end.

Definition this_ : M detector := fun this => Normal (this, this).

(** [this.anomalies = a] *)
Definition set_anomalies (a : list string) : M unit :=
  fun this =>
    Normal (tt, {| comparisonType := comparisonType this; anomalies := a;
                   confidence := confidence this |}).

(** [this.confidence = c] *)
Definition set_confidence (c : Z) : M unit :=
  fun this =>
    Normal (tt, {| comparisonType := comparisonType this;
                   anomalies := anomalies this; confidence := c |}).

(** [this.anomalies.push(s)] *)
Definition push_anomaly (s : string) : M unit :=
  fun this =>
    Normal (tt, {| comparisonType := comparisonType this;
                   anomalies := anomalies this ++ [s];
                   confidence := confidence this |}).

Declare Scope js_scope.
Delimit Scope js_scope with js.
Notation "'let*' x ':=' m 'in' k" := (bind m (fun x => k))
  (at level 10, x name, m at level 100, k at level 200) : js_scope.
Notation "m ;; k" := (bind m (fun _ => k))
  (at level 100, k at level 200, right associativity) : js_scope.

Definition not_detected : signal :=
  {| sig_detected := false; sig_confidence := 0 |}.

Definition fired (c : Z) : signal :=
  {| sig_detected := true; sig_confidence := c |}.

(** ** The methods of [SemanticCorruptionDetector] *)

Section Detector.

Variable E : engine.

Local Open Scope string_scope.
Local Open Scope float_scope.
Local Open Scope js_scope.

(** [calculateStats(data)] for an array [data] of numbers (the test [!data]
    of the guard is for a missing argument).  The length [n] is an integer
    below 2^32, on which [n % 2], [n / 2 - 1] (for an even [n]),
    [Math.floor(n / 2)], [Math.floor(n * 0.25)] and [Math.floor(n * 0.75)]
    are exact: the indices are computed in [nat]. *)
Definition calculateStats (data : list float) : completion summary :=
  if (List.length data =? 0)%nat
  then Throw (Error "Cannot calculate statistics on empty data")
  else
    let sorted := JS.sort (fun a b => a - b) data in
    let n := List.length data in
    let mean := JS.reduce (fun sum val => sum + val) 0 data
                / JS.number_of_Z (Z.of_nat n) in
    let median :=
      if (n mod 2 =? 0)%nat
      then (JS.get sorted (n / 2 - 1) + JS.get sorted (n / 2)) / 2
      else JS.get sorted (n / 2) in
    let variance :=
      JS.reduce (fun sum val => sum + Math_pow E (val - mean) 2) 0 data
      / JS.number_of_Z (Z.of_nat n) in
    let stdDev := sqrt variance in
    let min := JS.get sorted 0 in
    let max := JS.get sorted (n - 1) in
    let p25 := JS.get sorted (n / 4) in
    let p75 := JS.get sorted (3 * n / 4) in
    Normal {| mean := mean; median := median; std_dev := stdDev;
              min := min; max := max; p25 := p25; p75 := p75;
              count := Z.of_nat n; variance := variance |}.

(** [detectMagnitudeShift(baseline, current)] *)
Definition detectMagnitudeShift (baseline current : summary) : M signal :=
  let baselineMean := mean baseline in
  let currentMean := mean current in
  if JS.strict_eq baselineMean 0 then ret not_detected
  else
    let ratio := currentMean / baselineMean in
    let logRatio := Math_log10 E (abs ratio) in
    if JS.gt (abs logRatio) 0.5 then
      let* percentChange := lift (JS.toFixed E ((currentMean - baselineMean) / baselineMean * 100) 2) in
      if ratio <? 0.1 then
        let* r := lift (JS.toFixed E ratio 4) in
        push_anomaly ("Severe magnitude drop: " ++ percentChange
                      ++ "% decrease (ratio: " ++ r ++ ")") ;;
        ret (fired 95)
      else if JS.gt ratio 10 then
        let* r := lift (JS.toFixed E ratio 4) in
        push_anomaly ("Severe magnitude increase: " ++ percentChange
                      ++ "% increase (ratio: " ++ r ++ ")") ;;
        ret (fired 95)
      else if (ratio <? 0.5) || JS.gt ratio 2.0 then
        push_anomaly ("Significant magnitude shift: " ++ percentChange
                      ++ "% change") ;;
        ret (fired 70)
      else ret not_detected
    else ret not_detected.

(** [detectUnitConversion(baseline, current)].  Past the guard
    [!heuristic || !heuristic.ratio] the heuristic is an own entry of the
    table with a ratio (the inner [None] case is behind the guard and never
    taken). *)
Definition detectUnitConversion (baseline current : summary) : M signal :=
  let* this := this_ in
  match lookupHeuristic (comparisonType this) with
  | None => ret not_detected
  | Some Inherited => ret not_detected
  | Some (Own heuristic) =>
      if JS.falsy (ratio heuristic) then ret not_detected
      else
        match ratio heuristic with
        | None => ret not_detected
        | Some expectedRatio =>
            let baselineMean := mean baseline in
            let currentMean := mean current in
            if JS.strict_eq baselineMean 0 then ret not_detected
            else
              let ratio := currentMean / baselineMean in
              let tolerance := tolerance heuristic in
              let ratioError := abs (ratio - expectedRatio) / expectedRatio in
              if ratioError <? tolerance then
                let* r := lift (JS.toFixed E ratio 2) in
                let* x := lift (JS.toFixed E expectedRatio 2) in
                push_anomaly ("Possible " ++ description heuristic
                              ++ ": ratio " ++ r ++ " matches expected " ++ x) ;;
                ret (fired 90)
              else
                let inverseRatio := 1 / ratio in
                let inverseError :=
                  abs (inverseRatio - expectedRatio) / expectedRatio in
                if inverseError <? tolerance then
                  let* r := lift (JS.toFixed E inverseRatio 2) in
                  let* x := lift (JS.toFixed E expectedRatio 2) in
                  push_anomaly ("Possible inverse " ++ description heuristic
                                ++ ": ratio " ++ r ++ " matches expected " ++ x) ;;
                  ret (fired 90)
                else ret not_detected
        end
  end.

(** [detectDistributionShift(baseline, current)] *)
Definition detectDistributionShift (baseline current : summary) : M signal :=
  let baselineCV := std_dev baseline / mean baseline in
  let currentCV := std_dev current / mean current in
  if negb (JS.isFinite baselineCV) || negb (JS.isFinite currentCV)
  then ret not_detected
  else
    let cvRatio := currentCV / baselineCV in
    if JS.gt cvRatio 2.0 || (cvRatio <? 0.5) then
      let change := if JS.gt cvRatio 1 then "increase" else "decrease" in
      let* p := lift (JS.toFixed E (abs (cvRatio - 1) * 100) 1) in
      push_anomaly ("Distribution variability " ++ change
                    ++ ": coefficient of variation changed by " ++ p ++ "%") ;;
      ret (fired 60)
    else
      let baselineMedianMeanRatio := median baseline / mean baseline in
      let currentMedianMeanRatio := median current / mean current in
      let medianMeanShift :=
        abs (currentMedianMeanRatio - baselineMedianMeanRatio) in
      if JS.gt medianMeanShift 0.2 then
        let* p := lift (JS.toFixed E (medianMeanShift * 100) 1) in
        push_anomaly ("Distribution skew changed: median/mean ratio shifted by "
                      ++ p ++ "%") ;;
        ret (fired 55)
      else ret not_detected.

(** [detectRangeAnomaly(baseline, current)] *)
Definition detectRangeAnomaly (baseline current : summary) : M signal :=
  let baselineRange := max baseline - min baseline in
  let currentRange := max current - min current in
  if JS.strict_eq baselineRange 0 then ret not_detected
  else
    let rangeRatio := currentRange / baselineRange in
    if JS.gt rangeRatio 5.0 then
      let* r := lift (JS.toFixed E rangeRatio 1) in
      push_anomaly ("Data range expanded significantly: " ++ r
                    ++ "x larger than baseline") ;;
      ret (fired 65)
    else if rangeRatio <? 0.2 then
      let* r := lift (JS.toFixed E (rangeRatio * 100) 0) in
      push_anomaly ("Data range contracted significantly: " ++ r
                    ++ "% of baseline range") ;;
      ret (fired 65)
    else ret not_detected.

(** [if (result.detected) confidenceScores.push(result.confidence)] *)
Definition push_score (confidenceScores : list Z) (result : signal) : list Z :=
  if sig_detected result then confidenceScores ++ [sig_confidence result]
  else confidenceScores.

(** Lines 218-228 of [analyze]: the value assigned to [this.confidence]. *)
Definition aggregate (confidenceScores : list Z) : Z :=
  match confidenceScores with
  | [] => 0
  | [c] => c
  | c :: cs =>
      let maxConfidence := JS.Math_max c cs in
      let boost :=
        JS.Math_min ((Z.of_nat (List.length confidenceScores) - 1) * 5) 15 in
      JS.Math_min (maxConfidence + boost) 100
  end%Z.

(** The four detector calls of [analyze], in the order of the source, with
    the scores they leave in [confidenceScores]. *)
Definition run_detectors (baselineStats currentStats : summary)
    : M (list Z) :=
  let confidenceScores := [] in
  let* magnitudeResult := detectMagnitudeShift baselineStats currentStats in
  let confidenceScores := push_score confidenceScores magnitudeResult in
  let* conversionResult := detectUnitConversion baselineStats currentStats in
  let confidenceScores := push_score confidenceScores conversionResult in
  let* distributionResult := detectDistributionShift baselineStats currentStats in
  let confidenceScores := push_score confidenceScores distributionResult in
  let* rangeResult := detectRangeAnomaly baselineStats currentStats in
  let confidenceScores := push_score confidenceScores rangeResult in
  ret confidenceScores.

(** Line 202, the only statement of [analyze] before the detectors:
    [this.anomalies = []]. *)
Definition analyze_reset : M unit := set_anomalies [].

(** [analyze(baselineStats, currentStats)] *)
Definition analyze (baselineStats currentStats : summary)
    : M DetectionResult :=
  analyze_reset ;;
  let* confidenceScores := run_detectors baselineStats currentStats in
  set_confidence (aggregate confidenceScores) ;;
  let* this := this_ in
  ret {| res_confidence := confidence this;
         res_anomalies := anomalies this;
         res_detected := (0 <? List.length (anomalies this))%nat |}.

End Detector.

(** [generateDiagnostics()]: it reads [this] and writes nothing.  The
    strings are kept as the bytes of the source file. *)
Definition newline : string := String (ascii_of_nat 10) EmptyString.

Definition banner (confidence : Z) : string :=
  if (90 <=? confidence)%Z then
    "ðŸš¨ HIGH CONFIDENCE: Silent data corruption detected"
  else if (70 <=? confidence)%Z then
    "âš ï¸  MEDIUM CONFIDENCE: Suspicious data patterns detected"
  else if (50 <=? confidence)%Z then
    "â„¹ï¸  LOW CONFIDENCE: Minor anomalies detected"
  else
    "âœ… No significant semantic drift detected".

(** [this.anomalies.forEach((anomaly, idx) => diagnostics.push(...))] *)
Fixpoint numbered (idx : nat) (anomalies : list string) : list string :=
  match anomalies with
  | [] => []
  | anomaly :: rest =>
      ("  " ++ JS.decimal (Z.of_nat idx + 1) ++ ". " ++ anomaly)%string
      :: numbered (S idx) rest
  end.

Definition generateDiagnostics (this : detector) : string :=
  let heuristic := lookupHeuristic (comparisonType this) in
  let diagnostics := [banner (confidence this)] in
  let diagnostics :=
    match heuristic with
    | Some p =>
        diagnostics
        ++ [(newline ++ "Analysis type: " ++ property_description p)%string]
    | None => diagnostics
    end in
  let diagnostics :=
    if (0 <? List.length (anomalies this))%nat then
      diagnostics
      ++ [(newline ++ "Detected anomalies:")%string]
      ++ numbered 0 (anomalies this)
      ++ [(newline ++ "Common causes:")%string;
          "  - Unit conversion (currency, temperature, length)"%string;
          "  - Locale/region change in data source"%string;
          "  - Schema migration without data transformation"%string;
          "  - Upstream API changes"%string;
          "  - Data aggregation level changes"%string]
    else diagnostics in
  String.concat newline diagnostics.

(** ** The CSV reader of the action

    [parseCSV] of [index.js], from the string that [fs.readFileSync] returned
    for the file (the caller checks before that the file exists).  Strings
    are the UTF-8 bytes of the JavaScript strings; the separators are ASCII,
    so splitting the bytes is splitting the string. *)

(** The two string built-ins whose algorithm is long: [trim] ranges over the
    white space of Unicode, [parseFloat] converts a decimal literal.  The
    definitions take them as parameters and the theorems hold for each
    choice. *)
Record text : Type := {
  (** [String.prototype.trim] *)
  String_trim : string -> string;
  (** the global [parseFloat], on the string of its argument *)
  parseFloat : string -> float
}.

Definition LF : ascii := ascii_of_nat 10.
Definition comma : ascii := ascii_of_nat 44.

(** [s.split(sep)] for a separator of one character: at least one piece. *)
Fixpoint split (sep : ascii) (s : string) : list string :=
  match s with
  | EmptyString => [EmptyString]
  | String ch s' =>
      if Ascii.eqb ch sep then EmptyString :: split sep s'
      else
        match split sep s' with
        | [] => [String ch EmptyString]
        | piece :: pieces => String ch piece :: pieces
        end
  end.

(** [a.indexOf(x)] on an array of strings: the first index, or -1. *)
Fixpoint indexOf (a : list string) (x : string) : Z :=
  match a with
  | [] => (-1)%Z
  | y :: a' =>
      if String.eqb y x then 0%Z
      else
        let i := indexOf a' x in
        if (i =? -1)%Z then (-1)%Z else (i + 1)%Z
  end.

(** [a.join(sep)] *)
Definition join (sep : string) (a : list string) : string :=
  String.concat sep a.

(** The string [parseFloat] makes of [cells[i]]: outside the array the
    element is [undefined]. *)
Definition cell (cells : list string) (i : nat) : string :=
  nth i cells "undefined"%string.

Definition double_quote : string := String (ascii_of_nat 34) EmptyString.

Section Reader.

Variable T : text.

Local Open Scope string_scope.

(** The body of the loop over the data rows. *)
Definition read_row (columnIndex : nat) (values : list float) (line : string)
    : list float :=
  let cells := split comma line in
  let value := parseFloat T (cell cells columnIndex) in
  if negb (is_nan value) then values ++ [value] else values.

(** [parseCSV(filePath, columnName)], where [content] is the string read
    from [filePath]. *)
Definition parseCSV (content columnName : string) : completion (list float) :=
  let lines := split LF (String_trim T content) in
  if (List.length lines <? 2)%nat then
    Throw (Error "CSV file must have header and at least one data row")
  else
    let headers := map (String_trim T) (split comma (nth 0 lines EmptyString)) in
    let columnIndex := indexOf headers columnName in
    if (columnIndex =? -1)%Z then
      Throw (Error ("Column " ++ double_quote ++ columnName ++ double_quote
                    ++ " not found in CSV. Available: " ++ join ", " headers))
    else
      Normal (fold_left (read_row (Z.to_nat columnIndex)) (tl lines) []).

End Reader.

(** ** A reference engine

    A concrete engine on which the model is run on examples.  Its
    [Math.log10] has the values ECMAScript fixes (NaN on NaN and on negative
    numbers, -Infinity on zeros, +Infinity on +Infinity, +0 on 1) and
    otherwise approximates the logarithm from the binary exponent and the
    binary digits of the logarithm of the fraction (squaring 60 times).  Its
    [Math.pow] multiplies for the exponent 2, the only one the source uses.
    Its [Number::toString] is only reached from 1e21 on and spells the
    number out by its exact integer value. *)
Module Reference.

Local Open Scope float_scope.

(** The binary digits of [log2 y] for [1 <= y < 2], most significant
    first, summed with weights [w], [w/2], ... *)
Fixpoint log2_fraction (steps : nat) (y w acc : float) : float :=
  match steps with
  | O => acc
  | S steps' =>
      let y2 := y * y in
      if 2 <=? y2 then log2_fraction steps' (y2 / 2) (w / 2) (acc + w)
      else log2_fraction steps' y2 (w / 2) acc
  end.

Definition log10_2 : float := 0x1.34413509f79ffp-2.

Definition log10 (x : float) : float :=
  if is_nan x then nan
  else if x <? 0 then nan
  else if x =? 0 then neg_infinity
  else if x =? infinity then infinity
  else if x =? 1 then 0
  else
    let '(m, e) := Z.frexp x in
    (* x = m * 2^e with 1/2 <= m < 1 *)
    (JS.number_of_Z (e - 1) + log2_fraction 60 (m * 2) 0.5 0) * log10_2.

Definition pow (base exponent : float) : float :=
  if exponent =? 2 then base * base
  else if exponent =? 1 then base
  else if exponent =? 0 then 1
  else nan.

Definition toString (x : float) : string :=
  match Prim2SF x with
  | S754_finite false m e =>
      if (0 <=? e)%Z then JS.decimal (Z.pos m * 2 ^ e) else "0"%string
  | S754_finite true m e =>
      if (0 <=? e)%Z then ("-" ++ JS.decimal (Z.pos m * 2 ^ e))%string
      else "-0"%string
  | S754_zero _ => "0"%string
  | S754_infinity false => "Infinity"%string
  | S754_infinity true => "-Infinity"%string
  | S754_nan => "NaN"%string
  end.

Definition engine : engine :=
  {| Math_log10 := log10; Math_pow := pow; Number_toString := toString |}.

End Reference.

(** A stand-in for the two built-ins on ASCII text that holds non-negative
    integers: [trim] removes tab, line feed, vertical tab, form feed,
    carriage return and space at both ends; [parseFloat] reads the decimal
    digits a string starts with (after white space) and is NaN without
    one. *)
Module ReferenceText.

Definition is_space (ch : ascii) : bool :=
  match nat_of_ascii ch with
  | 9 | 10 | 11 | 12 | 13 | 32 => true
  | _ => false
  end.

Fixpoint trimStart (s : string) : string :=
  match s with
  | EmptyString => EmptyString
  | String ch s' => if is_space ch then trimStart s' else s
  end.

Fixpoint reverse (s acc : string) : string :=
  match s with
  | EmptyString => acc
  | String ch s' => reverse s' (String ch acc)
  end.

Definition trim (s : string) : string :=
  reverse (trimStart (reverse (trimStart s) EmptyString)) EmptyString.

Definition digit (ch : ascii) : option Z :=
  let n := nat_of_ascii ch in
  if ((48 <=? n) && (n <=? 57))%nat then Some (Z.of_nat n - 48)%Z else None.

Fixpoint digits (s : string) (acc : option Z) : option Z :=
  match s with
  | EmptyString => acc
  | String ch s' =>
      match digit ch with
      | Some d =>
          digits s' (Some (match acc with Some a => 10 * a + d | None => d end)%Z)
      | None => acc
      end
  end.

Definition parseFloat (s : string) : float :=
  match digits (trimStart s) None with
  | Some n => JS.number_of_Z n
  | None => nan
  end.

Definition text : text := Build_text trim parseFloat.

End ReferenceText.

(** * Properties *)

(** ** The order of binary64 numbers

    [SFcompare] is the comparison the primitive [<?] and [<=?] are specified
    by ([ltb_spec], [leb_spec]); it is a strict order with NaN apart. *)
Module FloatOrder.

Lemma compare_cont_Eq (p q : positive) :
  Pos.compare_cont Eq p q = Pos.compare p q.
Proof. reflexivity. Qed.

Ltac order_cases :=
  repeat match goal with
  | s : bool |- _ => destruct s
  end;
  simpl in *; try discriminate; try reflexivity;
  repeat match goal with
  | |- context [Z.compare ?a ?b] => destruct (Z.compare_spec a b)
  | H : context [Z.compare ?a ?b] |- _ => destruct (Z.compare_spec a b)
  | |- context [Pos.compare_cont Eq ?a ?b] =>
      rewrite (compare_cont_Eq a b); destruct (Pos.compare_spec a b)
  | H : context [Pos.compare_cont Eq ?a ?b] |- _ =>
      rewrite (compare_cont_Eq a b) in H; destruct (Pos.compare_spec a b)
  end;
  simpl in *; subst; try discriminate; try reflexivity; try lia.

Lemma SFltb_trans x y z :
  SFltb x y = true -> SFltb y z = true -> SFltb x z = true.
Proof. unfold SFltb; destruct x, y, z; order_cases. Qed.

Lemma SFleb_trans x y z :
  SFleb x y = true -> SFleb y z = true -> SFleb x z = true.
Proof. unfold SFleb; destruct x, y, z; order_cases. Qed.

Lemma SFleb_ltb_trans x y z :
  SFleb x y = true -> SFltb y z = true -> SFltb x z = true.
Proof. unfold SFleb, SFltb; destruct x, y, z; order_cases. Qed.

Lemma SFltb_leb_trans x y z :
  SFltb x y = true -> SFleb y z = true -> SFltb x z = true.
Proof. unfold SFleb, SFltb; destruct x, y, z; order_cases. Qed.

Lemma SFltb_irrefl x : SFltb x x = false.
Proof. unfold SFltb; destruct x; order_cases. Qed.

Lemma SFltb_leb x y : SFltb x y = true -> SFleb x y = true.
Proof. unfold SFleb, SFltb; destruct (SFcompare x y) as [[]|]; easy. Qed.

Lemma SFleb_of_not_ltb x y :
  x <> S754_nan -> y <> S754_nan -> SFltb y x = false -> SFleb x y = true.
Proof.
  unfold SFleb, SFltb; destruct x, y; try congruence; intros _ _;
    order_cases.
Qed.

Lemma SFleb_refl x : x <> S754_nan -> SFleb x x = true.
Proof. unfold SFleb; destruct x; try congruence; intros _; order_cases. Qed.

Local Open Scope float_scope.

Lemma ltb_trans x y z : (x <? y) = true -> (y <? z) = true -> (x <? z) = true.
Proof. rewrite !ltb_spec; apply SFltb_trans. Qed.

Lemma leb_trans x y z : (x <=? y) = true -> (y <=? z) = true -> (x <=? z) = true.
Proof. rewrite !leb_spec; apply SFleb_trans. Qed.

Lemma leb_ltb_trans x y z : (x <=? y) = true -> (y <? z) = true -> (x <? z) = true.
Proof. rewrite !leb_spec, !ltb_spec; apply SFleb_ltb_trans. Qed.

Lemma ltb_leb_trans x y z : (x <? y) = true -> (y <=? z) = true -> (x <? z) = true.
Proof. rewrite !leb_spec, !ltb_spec; apply SFltb_leb_trans. Qed.

Lemma ltb_irrefl x : (x <? x) = false.
Proof. rewrite ltb_spec; apply SFltb_irrefl. Qed.

Lemma ltb_leb x y : (x <? y) = true -> (x <=? y) = true.
Proof. rewrite leb_spec, ltb_spec; apply SFltb_leb. Qed.

(** Two strict bounds that cross cannot both hold. *)
Lemma ltb_ltb_false lo hi x :
  (hi <=? lo) = true -> (x <? hi) = true -> (lo <? x) = false.
Proof.
  intros Hc Hx. destruct (lo <? x) eqn:Hl; [|reflexivity].
  pose proof (ltb_leb_trans _ _ _ (ltb_trans _ _ _ Hl Hx) Hc) as H.
  now rewrite ltb_irrefl in H.
Qed.

Lemma leb_ltb_false x y : (x <=? y) = true -> (y <? x) = false.
Proof.
  intros H. destruct (y <? x) eqn:Hl; [|reflexivity].
  pose proof (leb_ltb_trans _ _ _ H Hl) as H'.
  now rewrite ltb_irrefl in H'.
Qed.

End FloatOrder.

(** ** What a detector does to [this]

    A sub-detector pushes at most one anomaly and touches nothing else. *)

Definition appended (this : detector) (added : list string) : detector :=
  {| comparisonType := comparisonType this;
     anomalies := anomalies this ++ added;
     confidence := confidence this |}.

(** The outcome of a sub-detector: the confidence and the anomaly of one
    that fires. *)
Definition outcome : Type := option (Z * string).

Definition outcome_signal (o : outcome) : signal :=
  match o with
  | None => not_detected
  | Some (c, _) => fired c
  end.

Definition outcome_anomalies (o : outcome) : list string :=
  match o with
  | None => []
  | Some (_, a) => [a]
  end.

Definition outcome_scores (o : outcome) : list Z :=
  match o with
  | None => []
  | Some (c, _) => [c]
  end.

Definition outcome_confidence_in (cs : list Z) (o : outcome) : Prop :=
  match o with
  | None => True
  | Some (c, _) => In c cs
  end.

Definition behaves (m : M signal) (this : detector) (o : outcome) : Prop :=
  m this = Normal (outcome_signal o, appended this (outcome_anomalies o)).

Lemma appended_nil this : appended this [] = this.
Proof. destruct this; unfold appended; simpl; now rewrite app_nil_r. Qed.

Lemma appended_appended this a b :
  appended (appended this a) b = appended this (a ++ b).
Proof. unfold appended; simpl; now rewrite app_assoc. Qed.

Lemma behaves_none m this :
  m this = Normal (not_detected, this) -> behaves m this None.
Proof. unfold behaves; simpl; now rewrite appended_nil. Qed.

Lemma toFixed_in_range E x d :
  (0 <= d <= 100)%Z -> JS.toFixed E x d = Normal (JS.fixed E x (Z.to_nat d)).
Proof.
  intros H. unfold JS.toFixed.
  destruct (d <? 0)%Z eqn:H1; [apply Z.ltb_lt in H1; lia|].
  destruct (100 <? d)%Z eqn:H2; [apply Z.ltb_lt in H2; lia|].
  reflexivity.
Qed.

Ltac fixed_digits :=
  repeat match goal with
  | |- context [JS.toFixed ?E ?x ?d] =>
      rewrite (toFixed_in_range E x d) by lia
  end.

(** Unfolds the monad; the calls of [toFixed] are all in range. *)
Ltac run :=
  unfold bind, lift, ret, push_anomaly, this_, set_anomalies, set_confidence;
  fixed_digits.

Ltac abstains := exists None; split; [intros; apply behaves_none; run; reflexivity | exact I].
Ltac fires :=
  eexists (Some (_, _)); split;
  [intros; unfold behaves; run; reflexivity | simpl; tauto].

Lemma detectMagnitudeShift_outcome E b c :
  exists o, (forall this, behaves (detectMagnitudeShift E b c) this o)
            /\ outcome_confidence_in [95; 70]%Z o.
Proof.
  unfold detectMagnitudeShift.
  destruct (JS.strict_eq (mean b) 0); [abstains|].
  destruct (JS.gt _ _); [|abstains].
  destruct (_ <? 0.1)%float; [fires|].
  destruct (JS.gt _ 10); [fires|].
  destruct (_ || _); [fires|abstains].
Qed.

Lemma detectUnitConversion_found E b c (p : option property) :
  exists o, (forall this, lookupHeuristic (comparisonType this) = p ->
                          behaves (detectUnitConversion E b c) this o)
            /\ outcome_confidence_in [90]%Z o.
Proof.
  assert (Hskip : forall this,
             detectUnitConversion E b c this = Normal (not_detected, this) ->
             behaves (detectUnitConversion E b c) this None)
    by (intros; now apply behaves_none).
  destruct p as [[h|]|].
  2,3: exists None; split; [|exact I]; intros this Hp; apply Hskip;
       unfold detectUnitConversion; run; now rewrite Hp.
  destruct (ratio h) as [expected|] eqn:Hr.
  2:{ exists None; split; [|exact I]; intros this Hp; apply Hskip.
      unfold detectUnitConversion; run. rewrite Hp; cbv beta iota zeta.
      now rewrite Hr. }
  destruct (JS.falsy (Some expected)) eqn:Hf.
  { exists None; split; [|exact I]; intros this Hp; apply Hskip.
    unfold detectUnitConversion; run. rewrite Hp; cbv beta iota zeta.
    now rewrite Hr, Hf. }
  destruct (JS.strict_eq (mean b) 0) eqn:Hz.
  { exists None; split; [|exact I]; intros this Hp; apply Hskip.
    unfold detectUnitConversion; run. rewrite Hp; cbv beta iota zeta.
    rewrite Hr, Hf; cbv beta iota zeta. now rewrite Hz. }
  destruct (abs (mean c / mean b - expected) / expected <? tolerance h)%float
    eqn:Hfw.
  { eexists (Some (_, _)); split; [|simpl; tauto]; intros this Hp.
    unfold behaves, detectUnitConversion; run. rewrite Hp; cbv beta iota zeta.
    rewrite Hr, Hf; cbv beta iota zeta. rewrite Hz, Hfw. reflexivity. }
  destruct (abs (1 / (mean c / mean b) - expected) / expected <? tolerance h)%float
    eqn:Hinv.
  { eexists (Some (_, _)); split; [|simpl; tauto]; intros this Hp.
    unfold behaves, detectUnitConversion; run. rewrite Hp; cbv beta iota zeta.
    rewrite Hr, Hf; cbv beta iota zeta. rewrite Hz, Hfw, Hinv. reflexivity. }
  exists None; split; [|exact I]; intros this Hp; apply Hskip.
  unfold detectUnitConversion; run. rewrite Hp; cbv beta iota zeta.
  rewrite Hr, Hf; cbv beta iota zeta. now rewrite Hz, Hfw, Hinv.
Qed.

Lemma detectUnitConversion_outcome E b c key :
  exists o, (forall this, comparisonType this = key ->
                          behaves (detectUnitConversion E b c) this o)
            /\ outcome_confidence_in [90]%Z o.
Proof.
  destruct (detectUnitConversion_found E b c (lookupHeuristic key))
    as (o & Ho & Hc).
  exists o; split; [|exact Hc]. intros this <-. now apply Ho.
Qed.

Lemma detectDistributionShift_outcome E b c :
  exists o, (forall this, behaves (detectDistributionShift E b c) this o)
            /\ outcome_confidence_in [60; 55]%Z o.
Proof.
  unfold detectDistributionShift.
  destruct (_ || _); [abstains|].
  destruct (_ || _); [fires|].
  destruct (JS.gt _ _); [fires|abstains].
Qed.

Lemma detectRangeAnomaly_outcome E b c :
  exists o, (forall this, behaves (detectRangeAnomaly E b c) this o)
            /\ outcome_confidence_in [65]%Z o.
Proof.
  unfold detectRangeAnomaly.
  destruct (JS.strict_eq _ _); [abstains|].
  destruct (JS.gt _ _); [fires|].
  destruct (_ <? _)%float; [fires|abstains].
Qed.

(** ** The pipeline of [analyze] *)

Lemma push_score_outcome l o :
  push_score l (outcome_signal o) = l ++ outcome_scores o.
Proof. destruct o as [[c a]|]; unfold push_score; simpl; auto using app_nil_r. Qed.

(** The four outcomes of a call, which depend on the summaries and on the
    comparison type only. *)
Record outcomes : Type := {
  magnitude_o : outcome;
  conversion_o : outcome;
  distribution_o : outcome;
  range_o : outcome
}.

Definition all_scores (os : outcomes) : list Z :=
  outcome_scores (magnitude_o os) ++ outcome_scores (conversion_o os)
  ++ outcome_scores (distribution_o os) ++ outcome_scores (range_o os).

Definition all_anomalies (os : outcomes) : list string :=
  outcome_anomalies (magnitude_o os) ++ outcome_anomalies (conversion_o os)
  ++ outcome_anomalies (distribution_o os) ++ outcome_anomalies (range_o os).

Definition outcomes_of (E : engine) (b c : summary) (key : string)
    (os : outcomes) : Prop :=
  (forall this, behaves (detectMagnitudeShift E b c) this (magnitude_o os))
  /\ (forall this, comparisonType this = key ->
                   behaves (detectUnitConversion E b c) this (conversion_o os))
  /\ (forall this, behaves (detectDistributionShift E b c) this (distribution_o os))
  /\ (forall this, behaves (detectRangeAnomaly E b c) this (range_o os))
  /\ outcome_confidence_in [95; 70]%Z (magnitude_o os)
  /\ outcome_confidence_in [90]%Z (conversion_o os)
  /\ outcome_confidence_in [60; 55]%Z (distribution_o os)
  /\ outcome_confidence_in [65]%Z (range_o os).

Lemma outcomes_exist E b c key : exists os, outcomes_of E b c key os.
Proof.
  destruct (detectMagnitudeShift_outcome E b c) as (o1 & H1 & C1).
  destruct (detectUnitConversion_outcome E b c key) as (o2 & H2 & C2).
  destruct (detectDistributionShift_outcome E b c) as (o3 & H3 & C3).
  destruct (detectRangeAnomaly_outcome E b c) as (o4 & H4 & C4).
  exists {| magnitude_o := o1; conversion_o := o2; distribution_o := o3;
            range_o := o4 |}.
  repeat split; assumption.
Qed.

Lemma run_detectors_outcomes E b c key os this :
  outcomes_of E b c key os ->
  comparisonType this = key ->
  run_detectors E b c this
  = Normal (all_scores os, appended this (all_anomalies os)).
Proof.
  intros (H1 & H2 & H3 & H4 & _) Hk.
  unfold run_detectors, bind.
  rewrite (H1 this).
  rewrite (H2 (appended this _)) by exact Hk.
  rewrite (H3 (appended (appended this _) _)).
  rewrite (H4 (appended (appended (appended this _) _) _)).
  unfold ret. rewrite !push_score_outcome, !appended_appended.
  unfold all_scores, all_anomalies. simpl. now rewrite <- !app_assoc.
Qed.

(** The result and the state left by [analyze], from the outcomes. *)
Definition result_of (os : outcomes) : DetectionResult :=
  {| res_confidence := aggregate (all_scores os);
     res_anomalies := all_anomalies os;
     res_detected := (0 <? List.length (all_anomalies os))%nat |}.

Definition state_of (key : string) (os : outcomes) : detector :=
  {| comparisonType := key;
     anomalies := all_anomalies os;
     confidence := aggregate (all_scores os) |}.

Lemma analyze_outcomes E b c key os this :
  outcomes_of E b c key os ->
  comparisonType this = key ->
  analyze E b c this = Normal (result_of os, state_of key os).
Proof.
  intros Hos Hk. unfold analyze, analyze_reset.
  unfold bind at 1. unfold set_anomalies at 1.
  unfold bind at 1.
  rewrite (run_detectors_outcomes E b c key os) by (exact Hos || exact Hk).
  unfold bind, set_confidence, this_, ret, appended, result_of, state_of.
  simpl. now rewrite Hk.
Qed.

(** ** Aggregation of the confidences (C1) *)

(** What a sub-detector run on [this] contributes to [confidenceScores]. *)
Definition contribution (m : M signal) (this : detector) : list Z :=
  match m this with
  | Normal (s, _) => if sig_detected s then [sig_confidence s] else []
  | Throw _ => []
  end.

(** The confidences of the sub-detectors that fire, in the order magnitude,
    unit conversion, distribution, range. *)
Definition fired_confidences (E : engine) (b c : summary) (this : detector)
    : list Z :=
  contribution (detectMagnitudeShift E b c) this
  ++ contribution (detectUnitConversion E b c) this
  ++ contribution (detectDistributionShift E b c) this
  ++ contribution (detectRangeAnomaly E b c) this.

(** The aggregation as the specification words it:
    [min(max(values) + min((count-1)*5, 15), 100)] from two values on. *)
Fixpoint maximum (values : list Z) : Z :=
  match values with
  | [] => 0
  | [v] => v
  | v :: rest => Z.max v (maximum rest)
  end.

Definition spec_confidence (values : list Z) : Z :=
  match values with
  | [] => 0
  | [v] => v
  | _ =>
      Z.min (maximum values
             + Z.min ((Z.of_nat (List.length values) - 1) * 5) 15) 100
  end.

Lemma Math_max_maximum (v : Z) (rest : list Z) :
  JS.Math_max v rest = maximum (v :: rest).
Proof.
  unfold JS.Math_max. revert v.
  induction rest as [|w rest IH]; intros v; [reflexivity|].
  simpl fold_left. rewrite IH.
  change (maximum (v :: w :: rest)) with (Z.max v (maximum (w :: rest))).
  destruct rest as [|u rest]; [reflexivity|].
  change (maximum (Z.max v w :: u :: rest))
    with (Z.max (Z.max v w) (maximum (u :: rest))).
  change (maximum (w :: u :: rest)) with (Z.max w (maximum (u :: rest))).
  lia.
Qed.

Lemma aggregate_spec (values : list Z) :
  aggregate values = spec_confidence values.
Proof.
  destruct values as [|v [|w rest]]; try reflexivity.
  unfold aggregate, spec_confidence, JS.Math_min.
  now rewrite Math_max_maximum.
Qed.

Lemma contribution_behaves m this o :
  behaves m this o -> contribution m this = outcome_scores o.
Proof.
  unfold behaves, contribution. intros ->. now destruct o as [[c a]|].
Qed.

Lemma fired_confidences_outcomes E b c os this :
  outcomes_of E b c (comparisonType this) os ->
  fired_confidences E b c this = all_scores os.
Proof.
  intros (H1 & H2 & H3 & H4 & _). unfold fired_confidences, all_scores.
  rewrite (contribution_behaves _ _ _ (H1 this)),
    (contribution_behaves _ _ _ (H2 this eq_refl)),
    (contribution_behaves _ _ _ (H3 this)),
    (contribution_behaves _ _ _ (H4 this)).
  reflexivity.
Qed.

(** C1.  [analyze] returns, and leaves in [this.confidence], the aggregate of
    the confidences S of the sub-detectors that fired, taken in the order
    magnitude, unit conversion, distribution, range: 0 for no value, the
    value itself for one, and [min(max(S) + min((|S|-1)*5, 15), 100)] from
    two values on.  The values 70 and 90 give 95, and 60, 65, 70 and 95 give
    100. *)
Theorem analyze_confidence_aggregation (E : engine) (b c : summary)
    (this : detector) :
  let S := fired_confidences E b c this in
  (exists r this',
      analyze E b c this = Normal (r, this')
      /\ res_confidence r = spec_confidence S
      /\ confidence this' = spec_confidence S)
  /\ (S = [] -> spec_confidence S = 0%Z)
  /\ (forall v, S = [v] -> spec_confidence S = v)
  /\ ((2 <= List.length S)%nat ->
      spec_confidence S
      = Z.min (maximum S + Z.min ((Z.of_nat (List.length S) - 1) * 5) 15) 100)%Z
  /\ aggregate [70; 90]%Z = 95%Z
  /\ aggregate [60; 65; 70; 95]%Z = 100%Z.
Proof.
  intros S. split; [|repeat split].
  - destruct (outcomes_exist E b c (comparisonType this)) as (os & Hos).
    exists (result_of os), (state_of (comparisonType this) os).
    split; [now apply analyze_outcomes|].
    unfold S. rewrite (fired_confidences_outcomes E b c os this Hos).
    simpl. now rewrite aggregate_spec.
  - now intros ->.
  - now intros v ->.
  - destruct S as [|v [|w rest]]; simpl List.length; try lia. reflexivity.
Qed.

(** ** Detected if and only if the confidence is at least 55 (C10) *)

Lemma outcome_lengths o :
  List.length (outcome_scores o) = List.length (outcome_anomalies o).
Proof. now destruct o as [[c a]|]. Qed.

Lemma all_lengths os :
  List.length (all_scores os) = List.length (all_anomalies os).
Proof.
  unfold all_scores, all_anomalies.
  rewrite !length_app, !outcome_lengths. reflexivity.
Qed.

Definition signal_levels : list Z := [55; 60; 65; 70; 90; 95]%Z.

Lemma outcome_scores_in cs o :
  outcome_confidence_in cs o -> incl cs signal_levels ->
  Forall (fun c => In c signal_levels) (outcome_scores o).
Proof.
  destruct o as [[c a]|]; simpl; intros Hc Hi; constructor.
  - now apply Hi.
  - constructor.
Qed.

Lemma all_scores_levels E b c key os :
  outcomes_of E b c key os ->
  Forall (fun c => In c signal_levels) (all_scores os).
Proof.
  intros (_ & _ & _ & _ & C1 & C2 & C3 & C4). unfold all_scores.
  rewrite !Forall_app. repeat split.
  - apply (outcome_scores_in _ _ C1). unfold incl, signal_levels; simpl; tauto.
  - apply (outcome_scores_in _ _ C2). unfold incl, signal_levels; simpl; tauto.
  - apply (outcome_scores_in _ _ C3). unfold incl, signal_levels; simpl; tauto.
  - apply (outcome_scores_in _ _ C4). unfold incl, signal_levels; simpl; tauto.
Qed.

Lemma maximum_bounds (lo hi : Z) (values : list Z) :
  values <> [] -> Forall (fun v => lo <= v <= hi)%Z values ->
  (lo <= maximum values <= hi)%Z.
Proof.
  induction values as [|v rest IH]; [congruence|]. intros _ H.
  inversion H as [|? ? Hv Hrest]; subst.
  destruct rest as [|w rest]; [exact Hv|].
  change (maximum (v :: w :: rest)) with (Z.max v (maximum (w :: rest))).
  assert (lo <= maximum (w :: rest) <= hi)%Z by (apply IH; [congruence|exact Hrest]).
  lia.
Qed.

Lemma aggregate_bounds (values : list Z) :
  values <> [] -> Forall (fun v => In v signal_levels) values ->
  (55 <= aggregate values <= 100)%Z.
Proof.
  intros Hne Hall. rewrite aggregate_spec.
  assert (Hb : Forall (fun v => 55 <= v <= 95)%Z values).
  { eapply Forall_impl; [|exact Hall]. unfold signal_levels; simpl.
    intros v Hv. intuition lia. }
  pose proof (maximum_bounds 55 95 values Hne Hb) as Hm.
  destruct values as [|v [|w rest]]; [congruence| |].
  - simpl. simpl in Hm. lia.
  - unfold spec_confidence.
    assert (0 <= Z.of_nat (List.length (v :: w :: rest)) - 1)%Z
      by (simpl List.length; lia).
    lia.
Qed.

(** C10.  The result of [analyze] has [detected] true exactly when its
    confidence is at least 55.  Every sub-detector that fires contributes
    one of 55, 60, 65, 70, 90, 95 and pushes one anomaly, so the confidence
    is never strictly between 0 and 55, and it is 0 exactly when no anomaly
    was recorded. *)
Theorem analyze_detected_iff_confidence (E : engine) (b c : summary)
    (this : detector) :
  exists r this',
    analyze E b c this = Normal (r, this')
    /\ (res_detected r = true <-> 55 <= res_confidence r)%Z
    /\ ~ (0 < res_confidence r < 55)%Z
    /\ (res_confidence r = 0%Z <-> res_anomalies r = [])
    /\ Forall (fun v => In v signal_levels) (fired_confidences E b c this)
    /\ List.length (res_anomalies r)
       = List.length (fired_confidences E b c this).
Proof.
  destruct (outcomes_exist E b c (comparisonType this)) as (os & Hos).
  exists (result_of os), (state_of (comparisonType this) os).
  split; [now apply analyze_outcomes|].
  rewrite (fired_confidences_outcomes E b c os this Hos).
  pose proof (all_scores_levels E b c _ os Hos) as Hl.
  pose proof (all_lengths os) as Hlen.
  unfold result_of; simpl.
  destruct (all_scores os) as [|v rest] eqn:Hs.
  - destruct (all_anomalies os) as [|a l]; [|discriminate Hlen].
    simpl. repeat split; try easy; try lia.
  - assert (Hb : (55 <= aggregate (v :: rest) <= 100)%Z)
      by (apply aggregate_bounds; [congruence|exact Hl]).
    destruct (all_anomalies os) as [|a l]; [discriminate Hlen|].
    simpl List.length in *. repeat split; try easy; try lia.
Qed.

(** ** State between calls (C5, C6) *)

(** A detector left by an earlier call, with an anomaly and a confidence. *)
Definition stale_detector : detector :=
  {| comparisonType := "currency_usd_to_inr";
     anomalies := ["Severe magnitude drop: -95.00% decrease (ratio: 0.0500)"%string];
     confidence := 95 |}.

(** C5, as stated, fails: the first statement of [analyze] resets
    [this.anomalies] only; on a detector whose last call left the confidence
    95, the sub-detectors start with [this.confidence] still 95. *)
Lemma analyze_reset_leaves_confidence :
  ~ (forall this : detector,
        exists this0,
          analyze_reset this = Normal (tt, this0)
          /\ anomalies this0 = [] /\ confidence this0 = 0%Z).
Proof.
  intros H. destruct (H stale_detector) as (this0 & Hrun & _ & Hc).
  unfold analyze_reset, set_anomalies in Hrun. injection Hrun as <-.
  discriminate Hc.
Qed.

(** C5, amended.  At the start of [analyze], before any sub-detector runs,
    the anomaly list is reset to empty, and the confidence is left as it
    was; it keeps that value while the sub-detectors run and is overwritten
    by the aggregate at the end.  The result and the state left by the call
    are the same from every previous state of the detector: nothing of a
    previous call is carried into them. *)
Theorem analyze_resets_anomalies_then_overwrites_confidence (E : engine)
    (b c : summary) (this : detector) :
  exists this0 scores this1 r this',
    analyze_reset this = Normal (tt, this0)
    /\ anomalies this0 = []
    /\ confidence this0 = confidence this
    /\ run_detectors E b c this0 = Normal (scores, this1)
    /\ confidence this1 = confidence this
    /\ analyze E b c this = Normal (r, this')
    /\ confidence this' = aggregate scores
    /\ res_confidence r = confidence this'
    /\ res_anomalies r = anomalies this'
    /\ anomalies this' = anomalies this1
    /\ forall previous : detector,
         analyze E b c
           {| comparisonType := comparisonType this;
              anomalies := anomalies previous;
              confidence := confidence previous |}
         = Normal (r, this').
Proof.
  destruct (outcomes_exist E b c (comparisonType this)) as (os & Hos).
  exists {| comparisonType := comparisonType this; anomalies := [];
            confidence := confidence this |}.
  eexists _, _, (result_of os), (state_of (comparisonType this) os).
  split; [reflexivity|]. split; [reflexivity|]. split; [reflexivity|].
  split; [now apply (run_detectors_outcomes E b c (comparisonType this) os)|].
  split; [reflexivity|].
  split; [now apply analyze_outcomes|].
  repeat split.
  intros previous. now apply analyze_outcomes.
Qed.

(** C6.  Two calls of [analyze] in sequence on the same detector, with the
    same summaries, return the same result, whatever state the detector was
    in before the first one: same confidence, same anomalies in the same
    order, same flag. *)
Theorem analyze_twice_same_result (E : engine) (b c : summary)
    (this : detector) :
  exists r this1 this2,
    analyze E b c this = Normal (r, this1)
    /\ analyze E b c this1 = Normal (r, this2).
Proof.
  destruct (outcomes_exist E b c (comparisonType this)) as (os & Hos).
  exists (result_of os), (state_of (comparisonType this) os),
    (state_of (comparisonType this) os).
  split; now apply analyze_outcomes.
Qed.

(** ** No exception, and abstention on degenerate summaries (C7) *)

Module FloatFacts.

Local Open Scope float_scope.

Lemma eqb_zero_inv x :
  (x =? 0) = true -> exists s, Prim2SF x = S754_zero s.
Proof.
  rewrite eqb_spec. change (Prim2SF 0) with (S754_zero false).
  unfold SFeqb. destruct (Prim2SF x) as [s|s| |s m e]; simpl; try discriminate.
  - intros _. now exists s.
  - destruct s; discriminate.
  - destruct s; discriminate.
Qed.

Lemma is_finite_spec x :
  is_finite x = match Prim2SF x with
                | S754_zero _ | S754_finite _ _ _ => true
                | _ => false
                end.
Proof.
  unfold is_finite, is_nan, is_infinity.
  rewrite !eqb_spec, abs_spec.
  change (Prim2SF infinity) with (S754_infinity false).
  destruct (Prim2SF x) as [s|s| |s m e]; try reflexivity.
  - now destruct s.
  - unfold SFeqb. simpl.
    rewrite Z.compare_refl, Pos.compare_cont_refl.
    now destruct s.
Qed.

(** A quotient by a zero is an infinity or NaN. *)
Lemma div_zero_not_finite x y :
  (y =? 0) = true -> is_finite (x / y) = false.
Proof.
  intros Hy. destruct (eqb_zero_inv y Hy) as (s & Hs).
  rewrite is_finite_spec, div_spec, Hs. unfold SF64div.
  destruct (Prim2SF x) as [sx|sx| |sx m e]; reflexivity.
Qed.

End FloatFacts.

Lemma prefix_append (s t : string) : prefix s (s ++ t) = true.
Proof.
  induction s as [|a s IH]; simpl; [now destruct t|].
  destruct (ascii_dec a a); [exact IH|congruence].
Qed.

Lemma prefix_refl (s : string) : prefix s s = true.
Proof.
  induction s as [|a s IH]; simpl; [reflexivity|].
  destruct (ascii_dec a a); [exact IH|congruence].
Qed.

Lemma prefix_concat_head (sep s : string) (rest : list string) :
  prefix s (String.concat sep (s :: rest)) = true.
Proof.
  destruct rest as [|t rest]; simpl; [apply prefix_refl|apply prefix_append].
Qed.

Lemma generateDiagnostics_banner (this : detector) :
  prefix (banner (confidence this)) (generateDiagnostics this) = true.
Proof.
  unfold generateDiagnostics.
  destruct (lookupHeuristic (comparisonType this));
    destruct (0 <? List.length (anomalies this))%nat;
    apply prefix_concat_head.
Qed.

Lemma behaves_total m this o :
  behaves m this o -> exists s this', m this = Normal (s, this').
Proof. unfold behaves. intros ->. eauto. Qed.

(** C7.  [analyze] completes normally on every pair of summaries and every
    state of the detector, and so does each sub-detector;
    [generateDiagnostics] is a function of the detector that throws nothing
    (its report starts with the banner of the confidence).  On a degenerate
    summary the affected sub-detector returns [{detected: false,
    confidence: 0}] and records nothing: a baseline mean equal to zero for
    the magnitude, unit-conversion and distribution detectors, a baseline
    range equal to zero for the range detector, a coefficient of variation
    that is not finite (in particular a current mean equal to zero) for the
    distribution detector. *)
Theorem analyze_never_throws (E : engine) (b c : summary) (this : detector) :
  (exists r this', analyze E b c this = Normal (r, this'))
  /\ (exists s this', detectMagnitudeShift E b c this = Normal (s, this'))
  /\ (exists s this', detectUnitConversion E b c this = Normal (s, this'))
  /\ (exists s this', detectDistributionShift E b c this = Normal (s, this'))
  /\ (exists s this', detectRangeAnomaly E b c this = Normal (s, this'))
  /\ prefix (banner (confidence this)) (generateDiagnostics this) = true
  /\ (JS.strict_eq (mean b) 0 = true ->
      detectMagnitudeShift E b c this = Normal (not_detected, this)
      /\ detectUnitConversion E b c this = Normal (not_detected, this)
      /\ detectDistributionShift E b c this = Normal (not_detected, this))
  /\ (JS.strict_eq (max b - min b) 0 = true ->
      detectRangeAnomaly E b c this = Normal (not_detected, this))
  /\ (JS.isFinite (std_dev b / mean b) = false
      \/ JS.isFinite (std_dev c / mean c) = false ->
      detectDistributionShift E b c this = Normal (not_detected, this))
  /\ (JS.strict_eq (mean c) 0 = true ->
      detectDistributionShift E b c this = Normal (not_detected, this)).
Proof.
  destruct (outcomes_exist E b c (comparisonType this))
    as (os & Hos).
  pose proof Hos as (H1 & H2 & H3 & H4 & _).
  assert (Hcv : JS.isFinite (std_dev b / mean b) = false
                \/ JS.isFinite (std_dev c / mean c) = false ->
                detectDistributionShift E b c this = Normal (not_detected, this)).
  { intros Hnf. unfold detectDistributionShift.
    destruct Hnf as [-> | ->]; simpl; [reflexivity|].
    now rewrite orb_true_r. }
  split; [eexists _, _; now apply (analyze_outcomes E b c (comparisonType this) os)|].
  split; [exact (behaves_total _ _ _ (H1 this))|].
  split; [exact (behaves_total _ _ _ (H2 this eq_refl))|].
  split; [exact (behaves_total _ _ _ (H3 this))|].
  split; [exact (behaves_total _ _ _ (H4 this))|].
  split; [apply generateDiagnostics_banner|].
  split; [|split; [|split]].
  - intros Hz. split; [|split].
    + unfold detectMagnitudeShift. now rewrite Hz.
    + unfold detectUnitConversion, bind, this_, ret.
      destruct (lookupHeuristic (comparisonType this)) as [[h|]|]; try reflexivity.
      destruct (JS.falsy (ratio h)); [reflexivity|].
      destruct (ratio h); [|reflexivity]. now rewrite Hz.
    + apply Hcv. left. now apply FloatFacts.div_zero_not_finite.
  - intros Hz. unfold detectRangeAnomaly. now rewrite Hz.
  - exact Hcv.
  - intros Hz. apply Hcv. right. now apply FloatFacts.div_zero_not_finite.
Qed.

(** ** The magnitude-shift detector (C2) *)

Section Magnitude.

Variable E : engine.
Variables baseline current : summary.
Variable this : detector.

Local Open Scope float_scope.

Let ratio : float := mean current / mean baseline.
Let shifted : bool := JS.gt (abs (Math_log10 E (abs ratio))) 0.5.

Lemma magnitude_abstains_on_zero_baseline :
  JS.strict_eq (mean baseline) 0 = true ->
  detectMagnitudeShift E baseline current this = Normal (not_detected, this).
Proof. intros Hz. unfold detectMagnitudeShift. now rewrite Hz. Qed.

Lemma magnitude_fires_only_shifted s this' :
  detectMagnitudeShift E baseline current this = Normal (s, this') ->
  sig_detected s = true ->
  JS.strict_eq (mean baseline) 0 = false /\ shifted = true.
Proof.
  unfold detectMagnitudeShift. fold ratio. fold shifted.
  destruct (JS.strict_eq (mean baseline) 0);
    [intros [= <- _]; discriminate|].
  destruct shifted; [auto|intros [= <- _]; discriminate].
Qed.

Lemma magnitude_severe_drop :
  JS.strict_eq (mean baseline) 0 = false -> shifted = true ->
  (ratio <? 0.1) = true ->
  exists a,
    detectMagnitudeShift E baseline current this
    = Normal (fired 95, appended this [a])
    /\ prefix "Severe magnitude drop" a = true.
Proof.
  intros Hz Hs Hr. unfold detectMagnitudeShift. fold ratio. fold shifted.
  rewrite Hz, Hs. run. rewrite Hr.
  eexists; split; [reflexivity|reflexivity].
Qed.

Lemma magnitude_severe_increase :
  JS.strict_eq (mean baseline) 0 = false -> shifted = true ->
  JS.gt ratio 10 = true ->
  exists a,
    detectMagnitudeShift E baseline current this
    = Normal (fired 95, appended this [a])
    /\ prefix "Severe magnitude increase" a = true.
Proof.
  intros Hz Hs Hr. unfold detectMagnitudeShift. fold ratio. fold shifted.
  rewrite Hz, Hs. run.
  assert (Hlow : (ratio <? 0.1) = false).
  { destruct (ratio <? 0.1) eqn:Hl; [|reflexivity].
    pose proof (FloatOrder.ltb_trans _ _ _ Hr Hl) as H. discriminate H. }
  rewrite Hlow, Hr.
  eexists; split; [reflexivity|reflexivity].
Qed.

Lemma magnitude_significant :
  JS.strict_eq (mean baseline) 0 = false -> shifted = true ->
  (ratio <? 0.1) = false -> JS.gt ratio 10 = false ->
  (ratio <? 0.5) || JS.gt ratio 2.0 = true ->
  exists a,
    detectMagnitudeShift E baseline current this
    = Normal (fired 70, appended this [a])
    /\ prefix "Significant magnitude shift" a = true.
Proof.
  intros Hz Hs Hl Hh Hm. unfold detectMagnitudeShift. fold ratio. fold shifted.
  rewrite Hz, Hs. run. rewrite Hl, Hh, Hm.
  eexists; split; [reflexivity|reflexivity].
Qed.

Lemma magnitude_silent_band :
  JS.strict_eq (mean baseline) 0 = false -> shifted = true ->
  (0.5 <=? ratio) = true -> (ratio <=? 2.0) = true ->
  detectMagnitudeShift E baseline current this = Normal (not_detected, this).
Proof.
  intros Hz Hs Hlo Hhi. unfold detectMagnitudeShift. fold ratio. fold shifted.
  rewrite Hz, Hs. run.
  assert (H1 : (ratio <? 0.1) = false).
  { destruct (ratio <? 0.1) eqn:Hl; [|reflexivity].
    pose proof (FloatOrder.leb_ltb_trans _ _ _ Hlo Hl) as H. discriminate H. }
  assert (H2 : JS.gt ratio 10 = false).
  { unfold JS.gt. destruct (10 <? ratio) eqn:Hl; [|reflexivity].
    pose proof (FloatOrder.ltb_leb_trans _ _ _ Hl Hhi) as H. discriminate H. }
  assert (H3 : (ratio <? 0.5) = false) by now apply FloatOrder.leb_ltb_false.
  assert (H4 : JS.gt ratio 2.0 = false) by now apply FloatOrder.leb_ltb_false.
  now rewrite H1, H2, H3, H4.
Qed.

End Magnitude.

(** The last case of the detector, a ratio in [0.5, 2.0] past the test on
    the logarithm, needs a logarithm that is off by more than 0.19: on the
    real numbers no ratio of that band has [|log10 |ratio|| > 0.5]. *)
Module RealBand.

Local Open Scope R_scope.

Definition log10 (x : R) : R := ln x / ln 10.

Lemma twice_ln_2_lt_ln_10 : 2 * ln 2 < ln 10.
Proof.
  replace (2 * ln 2) with (ln 2 + ln 2) by lra.
  rewrite <- ln_mult by lra.
  apply ln_increasing; lra.
Qed.

Remark silent_band_unreachable (ratio : R) :
  0.5 <= ratio <= 2 -> ~ (Rabs (log10 (Rabs ratio)) > 0.5).
Proof.
  intros [Hlo Hhi] H.
  rewrite (Rabs_pos_eq ratio) in H by lra.
  assert (Hln10 : 0 < ln 10) by (rewrite <- ln_1; apply ln_increasing; lra).
  assert (H2 : ln ratio <= ln 2).
  { destruct (Req_dec ratio 2) as [->|]; [lra|]. left. apply ln_increasing; lra. }
  assert (H1 : - ln 2 <= ln ratio).
  { rewrite <- ln_Rinv by lra.
    destruct (Req_dec ratio (/ 2)) as [->|]; [lra|]. left.
    apply ln_increasing; lra. }
  pose proof twice_ln_2_lt_ln_10 as H3.
  unfold log10 in H.
  assert (Hb : - (1 / 2) <= ln ratio / ln 10 <= 1 / 2).
  { split.
    - apply Rmult_le_reg_r with (ln 10); [assumption|].
      unfold Rdiv. rewrite Rmult_assoc, Rinv_l by lra. lra.
    - apply Rmult_le_reg_r with (ln 10); [assumption|].
      unfold Rdiv. rewrite Rmult_assoc, Rinv_l by lra. lra. }
  unfold Rabs in H. destruct (Rcase_abs (ln ratio / ln 10)); lra.
Qed.

End RealBand.

(** C2.  The magnitude-shift detector abstains (not detected, confidence 0,
    nothing recorded, no exception) when [baseline.mean] is 0.  Otherwise,
    with [ratio = current.mean / baseline.mean], it fires only when
    [|log10(|ratio|)| > 0.5], and then: [ratio < 0.1] gives confidence 95
    with an anomaly that starts with "Severe magnitude drop" (so for the
    means 100 and 5), [ratio > 10] gives confidence 95 with "Severe magnitude
    increase", otherwise [ratio < 0.5 || ratio > 2.0] gives confidence 70;
    with [0.5 <= ratio <= 2.0] nothing is recorded. *)
Theorem detectMagnitudeShift_tiers (E : engine) (baseline current : summary)
    (this : detector) :
  let ratio := (mean current / mean baseline)%float in
  let shifted := JS.gt (abs (Math_log10 E (abs ratio))) 0.5 in
  (JS.strict_eq (mean baseline) 0 = true ->
   detectMagnitudeShift E baseline current this = Normal (not_detected, this))
  /\ (forall s this',
        detectMagnitudeShift E baseline current this = Normal (s, this') ->
        sig_detected s = true ->
        JS.strict_eq (mean baseline) 0 = false /\ shifted = true)
  /\ (JS.strict_eq (mean baseline) 0 = false -> shifted = true ->
      ((ratio <? 0.1)%float = true ->
       exists a,
         detectMagnitudeShift E baseline current this
         = Normal (fired 95, appended this [a])
         /\ prefix "Severe magnitude drop" a = true)
      /\ (JS.gt ratio 10 = true ->
          exists a,
            detectMagnitudeShift E baseline current this
            = Normal (fired 95, appended this [a])
            /\ prefix "Severe magnitude increase" a = true)
      /\ ((ratio <? 0.1)%float = false -> JS.gt ratio 10 = false ->
          (ratio <? 0.5)%float || JS.gt ratio 2.0 = true ->
          exists a,
            detectMagnitudeShift E baseline current this
            = Normal (fired 70, appended this [a])
            /\ prefix "Significant magnitude shift" a = true)
      /\ ((0.5 <=? ratio)%float = true -> (ratio <=? 2.0)%float = true ->
          detectMagnitudeShift E baseline current this
          = Normal (not_detected, this)))
  /\ (mean baseline = 100%float -> mean current = 5%float ->
      JS.gt (abs (Math_log10 E (abs (5 / 100)))) 0.5 = true ->
      exists a,
        detectMagnitudeShift E baseline current this
        = Normal (fired 95, appended this [a])
        /\ prefix "Severe magnitude drop" a = true).
Proof.
  intros ratio shifted. split; [|split; [|split]].
  - apply magnitude_abstains_on_zero_baseline.
  - apply magnitude_fires_only_shifted.
  - intros Hz Hs. split; [|split; [|split]].
    + now apply magnitude_severe_drop.
    + now apply magnitude_severe_increase.
    + now apply magnitude_significant.
    + now apply magnitude_silent_band.
  - intros Hb Hc Hlog.
    apply magnitude_severe_drop; rewrite ?Hb, ?Hc; try reflexivity.
    exact Hlog.
Qed.

(** ** The unit-conversion detector (C3) *)

Lemma lookup_own key h :
  assoc key conversionHeuristics = Some h ->
  lookupHeuristic key = Some (Own h).
Proof. unfold lookupHeuristic. now intros ->. Qed.

Lemma lookup_not_own key :
  assoc key conversionHeuristics = None ->
  lookupHeuristic key = Some Inherited \/ lookupHeuristic key = None.
Proof.
  unfold lookupHeuristic. intros ->.
  destruct (existsb _ _); auto.
Qed.

(** The ratios of the table are truthy. *)
Lemma table_ratio_truthy key h expected :
  assoc key conversionHeuristics = Some h -> ratio h = Some expected ->
  JS.falsy (Some expected) = false.
Proof.
  unfold assoc, conversionHeuristics.
  repeat match goal with
  | |- context [String.eqb key ?k] => destruct (String.eqb key k)
  end;
  intros [= <-]; simpl; intros [= <-]; try reflexivity.
Qed.

Section Conversion.

Variable E : engine.
Variables baseline current : summary.
Variable this : detector.

Local Open Scope float_scope.

Let ratio_ : float := mean current / mean baseline.

Lemma conversion_abstains_unknown_type :
  assoc (comparisonType this) conversionHeuristics = None ->
  detectUnitConversion E baseline current this = Normal (not_detected, this).
Proof.
  intros Hk. unfold detectUnitConversion; run.
  now destruct (lookup_not_own _ Hk) as [-> | ->].
Qed.

Lemma conversion_abstains_no_ratio h :
  assoc (comparisonType this) conversionHeuristics = Some h ->
  ratio h = None ->
  detectUnitConversion E baseline current this = Normal (not_detected, this).
Proof.
  intros Hk Hr. unfold detectUnitConversion; run.
  rewrite (lookup_own _ _ Hk); cbv beta iota zeta. now rewrite Hr.
Qed.

Lemma conversion_abstains_on_zero_baseline :
  JS.strict_eq (mean baseline) 0 = true ->
  detectUnitConversion E baseline current this = Normal (not_detected, this).
Proof.
  intros Hz. unfold detectUnitConversion; run.
  destruct (lookupHeuristic (comparisonType this)) as [[h|]|]; try reflexivity.
  destruct (JS.falsy (ratio h)); [reflexivity|].
  destruct (ratio h); [|reflexivity]. now rewrite Hz.
Qed.

Section Found.

Variable h : heuristic.
Variable expected : float.
Hypothesis Hk : assoc (comparisonType this) conversionHeuristics = Some h.
Hypothesis Hr : ratio h = Some expected.
Hypothesis Hz : JS.strict_eq (mean baseline) 0 = false.

Let forward : bool := abs (ratio_ - expected) / expected <? tolerance h.
Let inverse : bool := abs (1 / ratio_ - expected) / expected <? tolerance h.

Lemma conversion_body :
  detectUnitConversion E baseline current this
  = if forward then
      Normal (fired 90,
              appended this
                [("Possible " ++ description h ++ ": ratio "
                  ++ JS.fixed E ratio_ 2 ++ " matches expected "
                  ++ JS.fixed E expected 2)%string])
    else if inverse then
      Normal (fired 90,
              appended this
                [("Possible inverse " ++ description h ++ ": ratio "
                  ++ JS.fixed E (1 / ratio_) 2 ++ " matches expected "
                  ++ JS.fixed E expected 2)%string])
    else Normal (not_detected, this).
Proof.
  unfold detectUnitConversion; run.
  rewrite (lookup_own _ _ Hk); cbv beta iota zeta.
  rewrite Hr, (table_ratio_truthy _ _ _ Hk Hr); cbv beta iota zeta.
  rewrite Hz. fold ratio_. fold forward. fold inverse.
  destruct forward; [reflexivity|]. destruct inverse; reflexivity.
Qed.

End Found.

End Conversion.

Lemma prefix_append_assoc (s t u : string) :
  prefix (s ++ t) (s ++ t ++ u) = true.
Proof.
  induction s as [|a s IH]; simpl; [apply prefix_append|].
  destruct (ascii_dec a a); [exact IH|congruence].
Qed.

(** C3.  The unit-conversion detector abstains (not detected, confidence 0)
    when the comparison type is not a key of the heuristic table, when its
    heuristic has no expected ratio, and when [baseline.mean] is 0.
    Otherwise, with [ratio = current.mean / baseline.mean], it fires with
    confidence 90 when [|ratio - expected| / expected < tolerance] (forward),
    else with confidence 90 when [|1/ratio - expected| / expected <
    tolerance] (inverse), else not at all: a call records at most one
    anomaly.  With the means 1.0 and 83.0 and the type currency_usd_to_inr it
    fires forward with confidence 90. *)
Theorem detectUnitConversion_matches (E : engine) (baseline current : summary)
    (this : detector) :
  let ratio_ := (mean current / mean baseline)%float in
  (assoc (comparisonType this) conversionHeuristics = None ->
   detectUnitConversion E baseline current this = Normal (not_detected, this))
  /\ (forall h,
        assoc (comparisonType this) conversionHeuristics = Some h ->
        ratio h = None ->
        detectUnitConversion E baseline current this
        = Normal (not_detected, this))
  /\ (JS.strict_eq (mean baseline) 0 = true ->
      detectUnitConversion E baseline current this
      = Normal (not_detected, this))
  /\ (forall h expected,
        assoc (comparisonType this) conversionHeuristics = Some h ->
        ratio h = Some expected ->
        JS.strict_eq (mean baseline) 0 = false ->
        let forward :=
          (abs (ratio_ - expected) / expected <? tolerance h)%float in
        let inverse :=
          (abs (1 / ratio_ - expected) / expected <? tolerance h)%float in
        (forward = true ->
         exists a,
           detectUnitConversion E baseline current this
           = Normal (fired 90, appended this [a])
           /\ prefix ("Possible " ++ description h) a = true)
        /\ (forward = false -> inverse = true ->
            exists a,
              detectUnitConversion E baseline current this
              = Normal (fired 90, appended this [a])
              /\ prefix ("Possible inverse " ++ description h) a = true)
        /\ (forward = false -> inverse = false ->
            detectUnitConversion E baseline current this
            = Normal (not_detected, this)))
  /\ (exists s added,
        detectUnitConversion E baseline current this
        = Normal (s, appended this added)
        /\ (List.length added <= 1)%nat)
  /\ (comparisonType this = "currency_usd_to_inr"%string ->
      mean baseline = 1.0%float -> mean current = 83.0%float ->
      detectUnitConversion E baseline current this
      = Normal (fired 90,
                appended this
                  ["Possible USD to INR conversion: ratio 83.00 matches expected 83.00"%string])).
Proof.
  intros ratio_. split; [|split; [|split; [|split; [|split]]]].
  - apply conversion_abstains_unknown_type.
  - apply conversion_abstains_no_ratio.
  - apply conversion_abstains_on_zero_baseline.
  - intros h expected Hk Hr Hz forward inverse.
    pose proof (conversion_body E baseline current this h expected Hk Hr Hz)
      as Hb.
    fold ratio_ in Hb. fold forward in Hb. fold inverse in Hb.
    split; [|split].
    + intros Hf. rewrite Hf in Hb. eexists; split; [exact Hb|].
      apply prefix_append_assoc.
    + intros Hf Hi. rewrite Hf, Hi in Hb. eexists; split; [exact Hb|].
      apply prefix_append_assoc.
    + intros Hf Hi. now rewrite Hf, Hi in Hb.
  - destruct (detectUnitConversion_outcome E baseline current
                (comparisonType this)) as (o & Ho & _).
    exists (outcome_signal o), (outcome_anomalies o).
    split; [now apply Ho|]. destruct o as [[c a]|]; simpl; lia.
  - intros Hk Hb Hc.
    assert (Ha : assoc (comparisonType this) conversionHeuristics
                 = Some {| ratio := Some 83.0%float; offset := None;
                           tolerance := 0.15%float;
                           description := "USD to INR conversion" |})
      by now rewrite Hk.
    rewrite (conversion_body E baseline current this _ _ Ha eq_refl)
      by (now rewrite Hb).
    rewrite Hb, Hc. reflexivity.
Qed.

(** ** The distribution-shift detector (C4) *)

(** The summary [s] with another median. *)
Definition with_median (s : summary) (m : float) : summary :=
  {| mean := mean s; median := m; std_dev := std_dev s; min := min s;
     max := max s; p25 := p25 s; p75 := p75 s; count := count s;
     variance := variance s |}.

Section Distribution.

Variable E : engine.
Variables baseline current : summary.
Variable this : detector.

Local Open Scope float_scope.

Let baselineCV : float := std_dev baseline / mean baseline.
Let currentCV : float := std_dev current / mean current.
Let finite : bool := JS.isFinite baselineCV && JS.isFinite currentCV.
Let cvRatio : float := currentCV / baselineCV.
Let outside : bool := JS.gt cvRatio 2.0 || (cvRatio <? 0.5).
Let shift : float :=
  abs (median current / mean current - median baseline / mean baseline).

Lemma distribution_body :
  detectDistributionShift E baseline current this
  = if negb finite then Normal (not_detected, this)
    else if outside then
      Normal (fired 60,
              appended this
                [("Distribution variability "
                  ++ (if JS.gt cvRatio 1 then "increase" else "decrease")
                  ++ ": coefficient of variation changed by "
                  ++ JS.fixed E (abs (cvRatio - 1) * 100) 1 ++ "%")%string])
    else if JS.gt shift 0.2 then
      Normal (fired 55,
              appended this
                [("Distribution skew changed: median/mean ratio shifted by "
                  ++ JS.fixed E (shift * 100) 1 ++ "%")%string])
    else Normal (not_detected, this).
Proof.
  subst finite outside shift cvRatio currentCV baselineCV.
  unfold detectDistributionShift. rewrite negb_andb.
  destruct (_ || _); [reflexivity|].
  destruct (_ || _); [run; reflexivity|].
  destruct (JS.gt _ 0.2); run; reflexivity.
Qed.

End Distribution.

(** C4.  A call of the distribution-shift detector records at most one
    anomaly.  When both coefficients of variation are finite and
    [cvRatio = currentCV / baselineCV] is outside [0.5, 2.0], it fires with
    confidence 60 and the medians are not looked at; it fires with
    confidence 55 exactly when the coefficients are finite, [cvRatio] is not
    outside, and [|current.median/current.mean -
    baseline.median/baseline.mean| > 0.2].  The two anomalies are never
    recorded by the same call. *)
Theorem detectDistributionShift_exclusive (E : engine)
    (baseline current : summary) (this : detector) :
  let baselineCV := (std_dev baseline / mean baseline)%float in
  let currentCV := (std_dev current / mean current)%float in
  let finite := JS.isFinite baselineCV && JS.isFinite currentCV in
  let cvRatio := (currentCV / baselineCV)%float in
  let outside := JS.gt cvRatio 2.0 || (cvRatio <? 0.5)%float in
  let shift :=
    abs (median current / mean current - median baseline / mean baseline) in
  (exists s added,
      detectDistributionShift E baseline current this
      = Normal (s, appended this added)
      /\ (List.length added <= 1)%nat)
  /\ (finite = true -> outside = true ->
      exists a,
        detectDistributionShift E baseline current this
        = Normal (fired 60, appended this [a])
        /\ prefix "Distribution variability" a = true
        /\ forall mb mc,
             detectDistributionShift E (with_median baseline mb)
               (with_median current mc) this
             = Normal (fired 60, appended this [a]))
  /\ (finite = true -> outside = false -> JS.gt shift 0.2 = true ->
      exists a,
        detectDistributionShift E baseline current this
        = Normal (fired 55, appended this [a])
        /\ prefix "Distribution skew changed" a = true)
  /\ (forall s this',
        detectDistributionShift E baseline current this = Normal (s, this') ->
        sig_confidence s = 55%Z ->
        finite = true /\ outside = false /\ JS.gt shift 0.2 = true)
  /\ (forall s this' a,
        detectDistributionShift E baseline current this = Normal (s, this') ->
        anomalies this' = anomalies this ++ [a] ->
        (prefix "Distribution variability" a = true
         /\ prefix "Distribution skew changed" a = false
         /\ sig_confidence s = 60%Z)
        \/ (prefix "Distribution skew changed" a = true
            /\ prefix "Distribution variability" a = false
            /\ sig_confidence s = 55%Z)).
Proof.
  intros baselineCV currentCV finite cvRatio outside shift.
  pose proof (distribution_body E baseline current this) as Hb.
  assert (Hm : forall mb mc,
             detectDistributionShift E (with_median baseline mb)
               (with_median current mc) this
             = if negb finite then Normal (not_detected, this)
               else if outside then
                 Normal (fired 60,
                         appended this
                           [("Distribution variability "
                             ++ (if JS.gt cvRatio 1 then "increase"
                                 else "decrease")
                             ++ ": coefficient of variation changed by "
                             ++ JS.fixed E (abs (cvRatio - 1) * 100) 1
                             ++ "%")%string])
               else detectDistributionShift E (with_median baseline mb)
                      (with_median current mc) this).
  { intros mb mc. rewrite distribution_body. cbv zeta. simpl.
    fold baselineCV currentCV. fold finite. fold cvRatio. fold outside.
    destruct (negb finite); [reflexivity|]. now destruct outside. }
  cbv zeta in Hb.
  fold baselineCV currentCV in Hb. fold finite in Hb.
  fold cvRatio in Hb. fold outside in Hb. fold shift in Hb.
  clearbody finite outside shift.
  split; [|split; [|split; [|split]]].
  - destruct (detectDistributionShift_outcome E baseline current)
      as (o & Ho & _).
    exists (outcome_signal o), (outcome_anomalies o).
    split; [now apply Ho|]. destruct o as [[c a]|]; simpl; lia.
  - intros Hf Ho.
    exists ("Distribution variability "
            ++ (if JS.gt cvRatio 1 then "increase" else "decrease")
            ++ ": coefficient of variation changed by "
            ++ JS.fixed E (abs (cvRatio - 1) * 100) 1 ++ "%")%string.
    split; [now rewrite Hb, Hf, Ho|]. split; [reflexivity|].
    intros mb mc. rewrite Hm, Hf, Ho. reflexivity.
  - intros Hf Ho Hs. rewrite Hf, Ho, Hs in Hb. simpl in Hb.
    eexists; split; [exact Hb|reflexivity].
  - intros s this'. rewrite Hb.
    destruct finite; simpl; [|intros [= <- _]; discriminate].
    destruct outside; [intros [= <- _]; discriminate|].
    destruct (JS.gt shift 0.2); [auto|intros [= <- _]; discriminate].
  - intros s this' a. rewrite Hb.
    destruct finite; simpl.
    2:{ intros [= <- <-] Ha. exfalso.
        rewrite <- (app_nil_r (anomalies this)) in Ha at 1.
        apply app_inv_head in Ha. discriminate Ha. }
    destruct outside.
    { intros [= <- <-] Ha. simpl in Ha. apply app_inv_head in Ha.
      injection Ha as <-. left. repeat split; reflexivity. }
    destruct (JS.gt shift 0.2).
    { intros [= <- <-] Ha. simpl in Ha. apply app_inv_head in Ha.
      injection Ha as <-. right. repeat split; reflexivity. }
    intros [= <- <-] Ha. exfalso.
    rewrite <- (app_nil_r (anomalies this)) in Ha at 1.
    apply app_inv_head in Ha. discriminate Ha.
Qed.

(** ** The summariser: errors and a worked example (C9) *)

Lemma insert_permutation cmp x l : Permutation (JS.insert cmp x l) (x :: l).
Proof.
  induction l as [|y l IH]; simpl; [reflexivity|].
  destruct (JS.gt (cmp x y) 0); [|reflexivity].
  rewrite IH. apply perm_swap.
Qed.

Lemma sort_permutation cmp l : Permutation (JS.sort cmp l) l.
Proof.
  induction l as [|x l IH]; simpl; [reflexivity|].
  rewrite insert_permutation. now constructor.
Qed.

Lemma sort_length cmp l : List.length (JS.sort cmp l) = List.length l.
Proof. apply Permutation_length, sort_permutation. Qed.

(** The indices [calculateStats] reads are inside the sorted array. *)
Lemma calculateStats_indices cmp (data : list float) :
  let n := List.length data in
  (n <> 0)%nat ->
  Forall (fun i => i < List.length (JS.sort cmp data))%nat
    [n / 2 - 1; n / 2; 0; n - 1; n / 4; 3 * n / 4]%nat.
Proof.
  intros n Hn. rewrite sort_length. fold n.
  assert (n / 2 < n)%nat by (apply Nat.div_lt; lia).
  assert (n / 4 < n)%nat by (apply Nat.div_lt; lia).
  assert (3 * n / 4 < n)%nat
    by (apply Nat.Div0.div_lt_upper_bound; lia).
  repeat constructor; lia.
Qed.

(** C9.  [calculateStats] throws exactly on the empty array and returns a
    summary for every other one.  On [1, 2, 3, 4] the mean is 2.5, the
    median 2.5, the minimum 1, the maximum 4, p25 is 2 and p75 is 4; the
    variance is the population variance 1.25 (the sum of squares divided by
    n), provided [Math.pow] squares the four deviations exactly. *)
Theorem calculateStats_throws_iff_empty (E : engine) :
  (forall data : list float,
      (exists e, calculateStats E data = Throw e) <-> data = [])
  /\ (forall data : list float,
        data <> [] -> exists s, calculateStats E data = Normal s)
  /\ (exists s,
        calculateStats E [1; 2; 3; 4]%float = Normal s
        /\ mean s = 2.5%float /\ median s = 2.5%float
        /\ min s = 1%float /\ max s = 4%float
        /\ p25 s = 2%float /\ p75 s = 4%float /\ count s = 4%Z
        /\ ((forall d, In d [-1.5; -0.5; 0.5; 1.5]%float ->
                       Math_pow E d 2 = (d * d)%float) ->
            variance s = 1.25%float)).
Proof.
  split; [|split].
  - intros data. unfold calculateStats. destruct data as [|x data]; simpl.
    + split; [reflexivity|intros _; eauto].
    + split; [intros (e & He); discriminate He|discriminate].
  - intros data Hne. unfold calculateStats.
    destruct data as [|x data]; [congruence|]. simpl. eauto.
  - eexists. split; [reflexivity|].
    repeat (split; [reflexivity|]).
    intros Hpow. cbn [variance]. unfold JS.reduce. cbn [fold_left List.length].
    change (JS.number_of_Z (Z.of_nat 4)) with 4%float.
    change ((0 + 1 + 2 + 3 + 4) / 4)%float with 2.5%float.
    change (1 - 2.5)%float with (-1.5)%float.
    change (2 - 2.5)%float with (-0.5)%float.
    change (3 - 2.5)%float with 0.5%float.
    change (4 - 2.5)%float with 1.5%float.
    rewrite !Hpow by (simpl; tauto).
    reflexivity.
Qed.

(** ** Rounding in binary64

    The order of the summary rests on two facts of floating-point
    arithmetic: the sign of a difference of finite numbers is their order,
    and the rounded half of a rounded sum lies between its operands.  Both
    are proved on the specification [SpecFloat] of the primitive
    operations, through the value of a finite number as a multiple of
    [2^(emin-1)]. *)
Module Rounding.

Local Open Scope Z_scope.

Definition emin : Z := -1074.

Lemma fexp_eq k : fexp prec emax k = Z.max (k - 53) emin.
Proof. reflexivity. Qed.

Lemma digits2_bounds (m : positive) :
  2 ^ (Zpos (digits2_pos m) - 1) <= Zpos m < 2 ^ Zpos (digits2_pos m).
Proof.
  induction m as [m IH|m IH|]; simpl digits2_pos.
  - rewrite Pos2Z.inj_succ.
    replace (Z.succ (Zpos (digits2_pos m)) - 1) with (Z.succ (Zpos (digits2_pos m) - 1)) by lia.
    rewrite !Z.pow_succ_r by lia. lia.
  - rewrite Pos2Z.inj_succ.
    replace (Z.succ (Zpos (digits2_pos m)) - 1) with (Z.succ (Zpos (digits2_pos m) - 1)) by lia.
    rewrite !Z.pow_succ_r by lia. lia.
  - simpl. lia.
Qed.

Lemma Zdigits2_bounds (m : Z) :
  0 < m -> 2 ^ (Zdigits2 m - 1) <= m < 2 ^ Zdigits2 m.
Proof. destruct m; try lia. intros _. apply digits2_bounds. Qed.

Lemma Zdigits2_nonneg m : 0 <= Zdigits2 m.
Proof. destruct m; simpl; lia. Qed.

Lemma Zdigits2_unique (m d : Z) :
  0 < m -> 2 ^ (d - 1) <= m < 2 ^ d -> Zdigits2 m = d.
Proof.
  intros Hm [Hlo Hhi]. pose proof (Zdigits2_bounds m Hm) as [Hlo' Hhi'].
  pose proof (Zdigits2_nonneg m).
  assert (0 < d).
  { destruct (Z.lt_trichotomy d 0) as [Hd|[Hd|Hd]]; [|subst d; simpl in Hhi; lia|assumption].
    rewrite Z.pow_neg_r in Hhi by assumption. lia. }
  destruct (Z.lt_trichotomy (Zdigits2 m) d) as [Hlt|[Heq|Hgt]]; [|assumption|].
  - assert (2 ^ Zdigits2 m <= 2 ^ (d - 1)) by (apply Z.pow_le_mono_r; lia). lia.
  - assert (2 ^ d <= 2 ^ (Zdigits2 m - 1)) by (apply Z.pow_le_mono_r; lia). lia.
Qed.

(** *** Shifting a mantissa to the right

    [shr_1] drops the low bit of the mantissa and keeps, in the round and
    sticky bits, whether what was dropped so far is zero. *)
Definition exact (mrs : shr_record) : Prop :=
  shr_r mrs = false /\ shr_s mrs = false.

Definition shifted (k : Z) (a b : shr_record) : Prop :=
  shr_m b = shr_m a / 2 ^ k
  /\ (exact b <-> exact a /\ shr_m a mod 2 ^ k = 0).

Lemma shr_1_spec a :
  0 <= shr_m a ->
  shr_m (shr_1 a) = shr_m a / 2
  /\ (exact (shr_1 a) <-> exact a /\ shr_m a mod 2 = 0).
Proof.
  destruct a as [m r s]. unfold exact. cbn [shr_m shr_r shr_s]. intros Hm.
  destruct m as [|p|p]; [| |lia].
  - cbn. split; [reflexivity|]. destruct r, s; cbn; intuition congruence.
  - destruct p as [p|p|]; cbn [shr_1 shr_m shr_r shr_s].
    + assert (Zpos p~1 / 2 = Zpos p)
        by (symmetry; apply Z.div_unique with 1; lia).
      assert (Zpos p~1 mod 2 = 1)
        by (symmetry; apply Z.mod_unique with (Zpos p); lia).
      split; [congruence|].
      destruct r, s; cbn; intuition (congruence || lia).
    + assert (Zpos p~0 / 2 = Zpos p)
        by (symmetry; apply Z.div_unique with 0; lia).
      assert (Zpos p~0 mod 2 = 0)
        by (symmetry; apply Z.mod_unique with (Zpos p); lia).
      split; [congruence|].
      destruct r, s; cbn; intuition (congruence || lia).
    + split; [reflexivity|].
      change (1 mod 2) with 1.
      destruct r, s; cbn; intuition (congruence || lia).
Qed.

Lemma shr_1_shifted a : 0 <= shr_m a -> shifted 1 a (shr_1 a).
Proof.
  intros Ha. unfold shifted. rewrite Z.pow_1_r. now apply shr_1_spec.
Qed.

Lemma shifted_nonneg k a b : 0 <= k -> 0 <= shr_m a -> shifted k a b -> 0 <= shr_m b.
Proof.
  intros Hk Ha [Hm _]. rewrite Hm. apply Z.div_pos; [assumption|]. apply Z.pow_pos_nonneg; lia.
Qed.

Lemma mod_pow_split m j k :
  0 <= m -> 0 <= j -> 0 <= k ->
  (m mod 2 ^ (j + k) = 0 <-> m mod 2 ^ j = 0 /\ (m / 2 ^ j) mod 2 ^ k = 0).
Proof.
  intros Hm Hj Hk. rewrite Z.pow_add_r by assumption.
  assert (0 < 2 ^ j) by (apply Z.pow_pos_nonneg; lia).
  assert (0 < 2 ^ k) by (apply Z.pow_pos_nonneg; lia).
  rewrite Z.rem_mul_r by lia.
  pose proof (Z.mod_pos_bound m (2 ^ j) ltac:(lia)) as Hx.
  pose proof (Z.mod_pos_bound (m / 2 ^ j) (2 ^ k) ltac:(lia)) as Hy.
  set (x := m mod 2 ^ j) in *. set (y := (m / 2 ^ j) mod 2 ^ k) in *.
  set (a := 2 ^ j) in *.
  split; [intros Heq|intros [Hx0 Hy0]; rewrite Hx0, Hy0; lia].
  assert (0 <= a * y) by nia. split; nia.
Qed.

Lemma shifted_trans j k a b c :
  0 <= j -> 0 <= k -> 0 <= shr_m a ->
  shifted j a b -> shifted k b c -> shifted (j + k) a c.
Proof.
  intros Hj Hk Ha [Hab Eab] [Hbc Ebc]. split.
  - rewrite Hbc, Hab, Z.pow_add_r by assumption.
    rewrite Z.div_div; [reflexivity | apply Z.pow_nonzero; lia | apply Z.pow_pos_nonneg; lia].
  - rewrite Ebc, Eab, Hab, (mod_pow_split (shr_m a) j k) by assumption. tauto.
Qed.

Lemma iter_pos_shifted p a :
  0 <= shr_m a -> shifted (Zpos p) a (iter_pos shr_1 p a).
Proof.
  revert a. induction p as [p IH|p IH|]; intros a Ha; simpl iter_pos.
  - pose proof (shr_1_shifted a Ha) as H1.
    pose proof (shifted_nonneg 1 _ _ ltac:(lia) Ha H1) as Hb.
    pose proof (IH _ Hb) as H2.
    pose proof (shifted_nonneg (Zpos p) _ _ ltac:(lia) Hb H2) as Hc.
    pose proof (IH _ Hc) as H3.
    replace (Zpos p~1) with (1 + Zpos p + Zpos p) by lia.
    eapply shifted_trans; [lia|lia|assumption| |exact H3].
    eapply shifted_trans; [lia|lia|assumption|exact H1|exact H2].
  - pose proof (IH _ Ha) as H2.
    pose proof (shifted_nonneg (Zpos p) _ _ ltac:(lia) Ha H2) as Hc.
    pose proof (IH _ Hc) as H3.
    replace (Zpos p~0) with (Zpos p + Zpos p) by lia.
    eapply shifted_trans; [lia|lia|assumption|exact H2|exact H3].
  - apply shr_1_shifted; assumption.
Qed.


Lemma loc_exact_iff mrs : loc_of_shr_record mrs = loc_Exact <-> exact mrs.
Proof.
  destruct mrs as [m [] []]; unfold exact; cbn; intuition congruence.
Qed.

Lemma record_of_loc_m m l : shr_m (shr_record_of_loc m l) = m.
Proof. destruct l as [|[]]; reflexivity. Qed.

Lemma record_of_loc_exact m l : exact (shr_record_of_loc m l) <-> l = loc_Exact.
Proof.
  destruct l as [|[]]; unfold exact; cbn; intuition congruence.
Qed.

(** The first step of rounding: the mantissa loses its [n] low bits. *)
Lemma shr_fexp_spec (mx ex : Z) (lx : location) :
  0 <= mx ->
  let n := Z.max 0 (fexp prec emax (Zdigits2 mx + ex) - ex) in
  exists mrs,
    shr_fexp prec emax mx ex lx = (mrs, ex + n)
    /\ shr_m mrs = mx / 2 ^ n
    /\ (loc_of_shr_record mrs = loc_Exact
        <-> lx = loc_Exact /\ mx mod 2 ^ n = 0).
Proof.
  intros Hm n. unfold shr_fexp, shr. subst n.
  destruct (fexp prec emax (Zdigits2 mx + ex) - ex) as [|p|p] eqn:Hn.
  - exists (shr_record_of_loc mx lx). cbn [Z.max Z.compare].
    rewrite Z.add_0_r, Z.pow_0_r, Z.div_1_r, Z.mod_1_r, record_of_loc_m,
      loc_exact_iff, record_of_loc_exact.
    intuition.
  - exists (iter_pos shr_1 p (shr_record_of_loc mx lx)).
    replace (Z.max 0 (Zpos p)) with (Zpos p) by lia.
    destruct (iter_pos_shifted p (shr_record_of_loc mx lx)) as [H1 H2];
      [now rewrite record_of_loc_m|].
    rewrite record_of_loc_m in H1, H2. rewrite record_of_loc_exact in H2.
    rewrite loc_exact_iff. auto.
  - exists (shr_record_of_loc mx lx).
    replace (Z.max 0 (Zneg p)) with 0 by lia.
    rewrite Z.add_0_r, Z.pow_0_r, Z.div_1_r, Z.mod_1_r, record_of_loc_m,
      loc_exact_iff, record_of_loc_exact.
    intuition.
Qed.

Lemma round_nearest_even_cases m l :
  (round_nearest_even m l = m \/ round_nearest_even m l = m + 1)
  /\ (l = loc_Exact -> round_nearest_even m l = m).
Proof.
  destruct l as [|[]]; cbn; try (destruct (Z.even m)); intuition congruence.
Qed.

Lemma Zdigits2_le (v k : Z) : 0 <= k -> 0 <= v < 2 ^ k -> Zdigits2 v <= k.
Proof.
  intros Hk [H0 Hv]. destruct (Z.eq_dec v 0) as [->|Hne]; [cbn; lia|].
  destruct (Zdigits2_bounds v ltac:(lia)) as [Hlo _].
  destruct (Z_le_gt_dec (Zdigits2 v) k) as [|Hgt]; [assumption|].
  assert (2 ^ k <= 2 ^ (Zdigits2 v - 1)) by (apply Z.pow_le_mono_r; lia).
  lia.
Qed.

(** The number of low bits rounding drops from a mantissa at an exponent
    that is not below [emin]. *)
Lemma dropped_bits (m e : Z) :
  emin <= e ->
  Z.max 0 (fexp prec emax (Zdigits2 m + e) - e) = Z.max 0 (Zdigits2 m - 53).
Proof. intros He. rewrite fexp_eq. unfold emin in *. lia. Qed.

Lemma div_pow2_lt (m d k : Z) :
  0 <= k <= d -> 0 <= m < 2 ^ d -> m / 2 ^ k < 2 ^ (d - k).
Proof.
  intros Hk Hm. apply Z.div_lt_upper_bound; [apply Z.pow_pos_nonneg; lia|].
  rewrite <- Z.pow_add_r by lia. replace (k + (d - k)) with d by lia. lia.
Qed.

(** The value of the result of [binary_round_aux]. *)
Lemma round_aux_value (sx : bool) (mx ex : Z) (lx : location) :
  0 <= mx -> emin <= ex ->
  let n := Z.max 0 (Zdigits2 mx - 53) in
  let m1 := mx / 2 ^ n in
  exists v,
    (v = m1 \/ v = m1 + 1)
    /\ (lx = loc_Exact -> mx mod 2 ^ n = 0 -> v = m1)
    /\ ((v = 0 /\ binary_round_aux prec emax sx mx ex lx = S754_zero sx)
        \/ (0 < v
            /\ (binary_round_aux prec emax sx mx ex lx = S754_infinity sx
                \/ exists m e,
                     binary_round_aux prec emax sx mx ex lx
                     = S754_finite sx m e
                     /\ emin <= e
                     /\ Zpos m * 2 ^ (e - emin) = v * 2 ^ (ex + n - emin)))).
Proof.
  intros Hm He n m1.
  assert (Hn : 0 <= n) by (subst n; lia).
  assert (Hm1 : 0 <= m1 < 2 ^ 53).
  { subst m1. split; [apply Z.div_pos; [lia|apply Z.pow_pos_nonneg; lia]|].
    destruct (Z.eq_dec mx 0) as [->|Hne]; [rewrite Z.div_0_l; [lia|apply Z.pow_nonzero; lia]|].
    destruct (Zdigits2_bounds mx ltac:(lia)) as [_ Hhi].
    destruct (Z_le_gt_dec (Zdigits2 mx) 53) as [Hd|Hd].
    - replace n with 0 by (subst n; lia). rewrite Z.pow_0_r, Z.div_1_r.
      assert (2 ^ Zdigits2 mx <= 2 ^ 53) by (apply Z.pow_le_mono_r; lia). lia.
    - replace 53 with (Zdigits2 mx - n) by (subst n; lia).
      apply div_pow2_lt; subst n; lia. }
  unfold binary_round_aux.
  destruct (shr_fexp_spec mx ex lx Hm) as (mrs & -> & Hmrs & Hloc).
  rewrite (dropped_bits mx ex He) in *. fold n in Hmrs, Hloc |- *.
  fold m1 in Hmrs.
  destruct (round_nearest_even_cases (shr_m mrs) (loc_of_shr_record mrs))
    as [Hv Hex].
  set (v := round_nearest_even (shr_m mrs) (loc_of_shr_record mrs)) in *.
  rewrite Hmrs in Hv, Hex. clearbody v.
  assert (Hv0 : 0 <= v <= 2 ^ 53) by lia.
  assert (He1 : emin <= ex + n) by lia.
  destruct (shr_fexp_spec v (ex + n) loc_Exact ltac:(lia))
    as (mrs2 & -> & Hmrs2 & _).
  rewrite (dropped_bits v (ex + n) He1) in *.
  exists v. split; [exact Hv|]. split; [intros Hl Hmod; apply Hex, Hloc; auto|].
  destruct (Z.eq_dec v (2 ^ 53)) as [Hv53|Hv53].
  - (* the carry: one more shift, exact *)
    subst v. change (Zdigits2 (2 ^ 53)) with 54 in *.
    change (Z.max 0 (54 - 53)) with 1 in *.
    change (2 ^ 53 / 2 ^ 1) with (Zpos (2 ^ 52)) in Hmrs2. rewrite Hmrs2.
    right. split; [reflexivity|].
    destruct (ex + n + 1 <=? emax - prec); [right|left; reflexivity].
    exists (2 ^ 52)%positive, (ex + n + 1). split; [reflexivity|]. split; [lia|].
    replace (ex + n + 1 - emin) with (Z.succ (ex + n - emin)) by lia.
    rewrite Z.pow_succ_r by lia.
    change (Zpos (2 ^ 52)) with (2 ^ 52). change (2 ^ 53) with (2 * 2 ^ 52). lia.
  - assert (Hd : Zdigits2 v <= 53) by (apply Zdigits2_le; lia).
    replace (Z.max 0 (Zdigits2 v - 53)) with 0 in * by lia.
    rewrite Z.pow_0_r, Z.div_1_r in Hmrs2. rewrite Hmrs2, Z.add_0_r.
    destruct v as [|p|p]; [left; auto|right|lia].
    split; [lia|].
    destruct (ex + n <=? emax - prec); [right|left; reflexivity].
    exists p, (ex + n). split; [reflexivity|]. split; [lia|reflexivity].
Qed.


(** The magnitude of a finite number, in units of [2^(emin-1)] (half the
    smallest subnormal number, so that the half of a number is a whole
    number of units). *)
Definition weight (e : Z) : Z := 2 ^ (e - emin + 1).

Definition magnitude (r : spec_float) (R : Z) : Prop :=
  match r with
  | S754_zero _ => R = 0
  | S754_finite _ m e => emin <= e /\ R = Zpos m * weight e
  | _ => False
  end.

Definition sign (r : spec_float) : bool :=
  match r with
  | S754_zero s | S754_infinity s | S754_finite s _ _ => s
  | S754_nan => false
  end.

Lemma weight_pos e : emin <= e -> 0 < weight e.
Proof. intros. unfold weight. apply Z.pow_pos_nonneg; lia. Qed.

Lemma weight_add e k : emin <= e -> 0 <= k -> weight (e + k) = weight e * 2 ^ k.
Proof.
  intros. unfold weight. rewrite <- Z.pow_add_r by lia. f_equal. lia.
Qed.

(** A number that fits the format: a mantissa below [2^53] at an exponent
    from [emin] on. *)
Definition fits (G : Z) : Prop :=
  exists mg eg, 0 <= mg < 2 ^ 53 /\ emin <= eg /\ G = mg * weight eg.

(** [fits] numbers against the grid of weight [weight e1]: multiples of it,
    or below [2^52] of it. *)
Lemma fits_grid (G e1 : Z) :
  emin <= e1 -> fits G ->
  (exists k, G = k * weight e1) \/ (emin < e1 /\ G < 2 ^ 52 * weight e1).
Proof.
  intros He1 (mg & eg & Hmg & Heg & ->).
  destruct (Z_le_gt_dec e1 eg) as [Hle|Hgt].
  - left. exists (mg * 2 ^ (eg - e1)).
    replace eg with (e1 + (eg - e1)) at 1 by lia.
    rewrite weight_add by lia. ring.
  - right. split; [lia|]. replace e1 with (eg + (e1 - eg)) by lia.
    rewrite weight_add by lia.
    pose proof (weight_pos eg Heg) as Hw.
    assert (2 ^ 1 <= 2 ^ (e1 - eg)) by (apply Z.pow_le_mono_r; lia).
    change (2 ^ 1) with 2 in *. change (2 ^ 53) with (2 ^ 52 * 2) in Hmg.
    assert (mg * weight eg < 2 ^ 52 * 2 * weight eg)
      by (apply Z.mul_lt_mono_pos_r; lia).
    assert (2 ^ 52 * 2 * weight eg <= 2 ^ 52 * (weight eg * 2 ^ (e1 - eg))) by nia.
    lia.
Qed.

(** The result of [binary_round_aux] is between the numbers of the format
    that enclose the exact value [X]. *)
Lemma round_aux_bracket (sx : bool) (mx ex : Z) (lx : location) (X : Z) :
  0 <= mx -> emin <= ex ->
  mx * weight ex <= X < (mx + 1) * weight ex ->
  (lx = loc_Exact <-> X = mx * weight ex) ->
  (lx = loc_Exact \/ 53 <= Zdigits2 mx \/ ex = emin) ->
  let r := binary_round_aux prec emax sx mx ex lx in
  r = S754_infinity sx
  \/ (sign r = sx
      /\ exists R,
           magnitude r R
           /\ (forall G, fits G -> G <= X -> G <= R)
           /\ (forall G, fits G -> X <= G -> R <= G)).
Proof.
  intros Hm He HX Hlx Hd r.
  destruct (round_aux_value sx mx ex lx Hm He) as (v & Hv & Hvex & Hr).
  set (n := Z.max 0 (Zdigits2 mx - 53)) in *.
  set (m1 := mx / 2 ^ n) in *.
  assert (Hn : 0 <= n) by (subst n; lia).
  assert (HP : 0 < 2 ^ n) by (apply Z.pow_pos_nonneg; lia).
  pose proof (weight_pos ex He) as Hgx.
  assert (Hg1 : weight (ex + n) = weight ex * 2 ^ n) by (apply weight_add; lia).
  pose proof (Z.div_mod mx (2 ^ n) ltac:(lia)) as Hdm.
  pose proof (Z.mod_pos_bound mx (2 ^ n) HP) as Hrem.
  fold m1 in Hdm.
  set (rem := mx mod 2 ^ n) in *.
  set (g1 := weight (ex + n)) in *.
  assert (Hg1pos : 0 < g1) by (rewrite Hg1; nia).
  (* the enclosing multiples of the grid *)
  assert (F1 : m1 * g1 <= X < (m1 + 1) * g1).
  { rewrite Hg1. split.
    - apply Z.le_trans with (mx * weight ex); [nia|lia].
    - apply Z.lt_le_trans with ((mx + 1) * weight ex); [lia|nia]. }
  assert (F2 : X = m1 * g1 -> v = m1).
  { intros HXe. rewrite Hg1 in HXe.
    assert (rem = 0) by nia.
    apply Hvex; [apply Hlx; nia|assumption]. }
  assert (F3 : n = 0 -> lx = loc_Exact -> v * g1 = X).
  { intros Hn0 Hl. assert (mx mod 2 ^ n = 0) by (rewrite Hn0; apply Z.mod_1_r).
    rewrite (Hvex Hl H). apply Hlx in Hl. rewrite Hl, Hg1.
    fold rem in H. nia. }
  assert (F4 : 53 <= Zdigits2 mx -> 2 ^ 52 <= m1).
  { intros H53. assert (0 < mx) by (destruct mx; cbn in H53; lia).
    destruct (Zdigits2_bounds mx ltac:(lia)) as [Hlo _].
    subst m1. apply Z.div_le_lower_bound; [lia|].
    rewrite <- Z.pow_add_r by lia.
    replace (n + 52) with (Zdigits2 mx - 1) by (subst n; lia). lia. }
  assert (Hvnn : 0 <= v).
  { assert (0 <= m1) by (subst m1; apply Z.div_pos; lia). lia. }
  assert (Hmag : r = S754_infinity sx
                 \/ (sign r = sx /\ magnitude r (v * g1))).
  { subst r. destruct Hr as [[Hv0 ->]|[Hvp [->|(m & e & -> & Hee & Hval)]]].
    - right. split; [reflexivity|]. unfold magnitude. subst v. reflexivity.
    - left. reflexivity.
    - right. split; [reflexivity|]. unfold magnitude. split; [assumption|].
      unfold g1, weight.
      replace (e - emin + 1) with (Z.succ (e - emin)) by lia.
      replace (ex + n - emin + 1) with (Z.succ (ex + n - emin)) by lia.
      rewrite !Z.pow_succ_r by lia. nia. }
  destruct Hmag as [Hinf|[Hs Hmag]]; [left; exact Hinf|right].
  split; [exact Hs|]. exists (v * g1). split; [exact Hmag|].
  assert (Hlow : 2 ^ 52 <= m1 \/ (n = 0 /\ lx = loc_Exact) \/ ex + n = emin).
  { destruct Hd as [Hl|[H53|Hem]].
    - destruct (Z_le_gt_dec 53 (Zdigits2 mx)); [left; auto|].
      right; left. split; [subst n; lia|assumption].
    - left; auto.
    - destruct (Z_le_gt_dec 53 (Zdigits2 mx)); [left; auto|].
      right; right. subst n; lia. }
  assert (Hm1v : m1 * g1 <= v * g1)
    by (apply Z.mul_le_mono_nonneg_r; lia).
  assert (Hvm1 : v * g1 <= (m1 + 1) * g1)
    by (apply Z.mul_le_mono_nonneg_r; lia).
  assert (H52g : 2 ^ 52 <= m1 -> 2 ^ 52 * g1 <= m1 * g1)
    by (intros; apply Z.mul_le_mono_nonneg_r; lia).
  clear Hr Hmag Hs Hd Hvex Hdm Hrem HX Hlx Hg1.
  split.
  - intros G HG HGX.
    destruct (fits_grid G (ex + n) ltac:(lia) HG) as [(k & Hk)|[He1 Hsmall]].
    + fold g1 in Hk.
      assert (k < m1 + 1) by (apply (Z.mul_lt_mono_pos_r g1); lia).
      assert (k * g1 <= m1 * g1) by (apply Z.mul_le_mono_nonneg_r; lia).
      lia.
    + fold g1 in Hsmall. destruct Hlow as [H52|[[Hn0 Hl]|Hem]]; [|now rewrite (F3 Hn0 Hl)|lia].
      specialize (H52g H52). lia.
  - intros G HG HGX.
    destruct (fits_grid G (ex + n) ltac:(lia) HG) as [(k & Hk)|[He1 Hsmall]].
    + fold g1 in Hk. destruct (Z.eq_dec X (m1 * g1)) as [HXe|HXne].
      * rewrite (F2 HXe). lia.
      * assert (m1 < k) by (apply (Z.mul_lt_mono_pos_r g1); lia).
        assert ((m1 + 1) * g1 <= k * g1) by (apply Z.mul_le_mono_nonneg_r; lia).
        lia.
    + fold g1 in Hsmall. destruct Hlow as [H52|[[Hn0 Hl]|Hem]]; [|now rewrite (F3 Hn0 Hl)|lia].
      specialize (H52g H52). lia.
Qed.


(** ** Numbers of the format and their order *)

Lemma valid_finite_inv (s : bool) (m : positive) (e : Z) :
  valid_binary (S754_finite s m e) = true ->
  emin <= e <= 971 /\ Zpos m < 2 ^ 53 /\ (2 ^ 52 <= Zpos m \/ e = emin).
Proof.
  cbn [valid_binary]. unfold bounded, canonical_mantissa.
  rewrite andb_true_iff, Z.eqb_eq, Z.leb_le, fexp_eq.
  change (emax - prec) with 971. intros [Hc He].
  destruct (digits2_bounds m) as [Hlo Hhi].
  set (d := Zpos (digits2_pos m)) in *.
  assert (Hd : d <= 53) by lia.
  assert (2 ^ d <= 2 ^ 53) by (apply Z.pow_le_mono_r; lia).
  split; [unfold emin in *; lia|]. split; [lia|].
  destruct (Z.eq_dec e emin); [right; assumption|left].
  assert (d = 53) by (unfold emin in *; lia).
  replace 52 with (d - 1) by lia. exact Hlo.
Qed.

Lemma valid_fits (s : bool) (m : positive) (e : Z) :
  valid_binary (S754_finite s m e) = true ->
  fits (Zpos m * weight e).
Proof.
  intros Hv. destruct (valid_finite_inv s m e Hv) as (He & Hm & _).
  exists (Zpos m), e. repeat split; lia.
Qed.

(** The signed value of a finite number, in units of [2^(emin-1)]. *)
Definition value (x : spec_float) : Z :=
  match x with
  | S754_finite s m e => cond_Zopp s (Zpos m * weight e)
  | _ => 0
  end.

Definition finite (x : spec_float) : bool :=
  match x with
  | S754_zero _ | S754_finite _ _ _ => true
  | _ => false
  end.

Lemma value_magnitude x R :
  magnitude x R -> value x = cond_Zopp (sign x) R /\ finite x = true /\ 0 <= R.
Proof.
  destruct x as [s|s| |s m e]; unfold magnitude, value, sign, finite;
    try tauto.
  - intros ->. destruct s; cbn; auto with zarith.
  - intros [He ->]. pose proof (weight_pos e He). split; [reflexivity|].
    split; [reflexivity|]. nia.
Qed.

Lemma mantissa_order (m1 m2 : positive) (e1 e2 : Z) (s1 s2 : bool) :
  valid_binary (S754_finite s1 m1 e1) = true ->
  valid_binary (S754_finite s2 m2 e2) = true ->
  e1 < e2 -> Zpos m1 * weight e1 < Zpos m2 * weight e2.
Proof.
  intros H1 H2 Hlt.
  destruct (valid_finite_inv _ _ _ H1) as (He1 & Hm1 & _).
  destruct (valid_finite_inv _ _ _ H2) as (He2 & _ & [Hm2|Hm2]); [|lia].
  replace e2 with (e1 + (e2 - e1)) by lia. rewrite weight_add by lia.
  pose proof (weight_pos e1 ltac:(lia)) as Hw.
  assert (2 ^ 1 <= 2 ^ (e2 - e1)) by (apply Z.pow_le_mono_r; lia).
  change (2 ^ 1) with 2 in *. change (2 ^ 53) with (2 ^ 52 * 2) in Hm1.
  assert (Zpos m1 * weight e1 < 2 ^ 52 * 2 * weight e1)
    by (apply Z.mul_lt_mono_pos_r; lia).
  assert (2 ^ 52 * 2 <= Zpos m2 * 2 ^ (e2 - e1))
    by (apply Z.mul_le_mono_nonneg; lia).
  assert (2 ^ 52 * 2 * weight e1 <= Zpos m2 * 2 ^ (e2 - e1) * weight e1)
    by (apply Z.mul_le_mono_nonneg_r; lia).
  lia.
Qed.

(** On valid finite numbers [SFcompare] is the order of the values. *)
Lemma compare_value (x y : spec_float) :
  valid_binary x = true -> valid_binary y = true ->
  finite x = true -> finite y = true ->
  SFcompare x y = Some (value x ?= value y).
Proof.
  intros Hx Hy Fx Fy.
  destruct x as [sx|sx| |sx mx ex]; try discriminate Fx;
    destruct y as [sy|sy| |sy my ey]; try discriminate Fy.
  - reflexivity.
  - destruct (valid_finite_inv _ _ _ Hy) as (He & _).
    pose proof (weight_pos ey ltac:(lia)).
    cbn [SFcompare value]. destruct sy; cbn [cond_Zopp]; f_equal; symmetry.
    + apply Z.compare_gt_iff. nia.
    + apply Z.compare_lt_iff. nia.
  - destruct (valid_finite_inv _ _ _ Hx) as (He & _).
    pose proof (weight_pos ex ltac:(lia)).
    cbn [SFcompare value]. destruct sx; cbn [cond_Zopp]; f_equal; symmetry.
    + apply Z.compare_lt_iff. nia.
    + apply Z.compare_gt_iff. nia.
  - destruct (valid_finite_inv _ _ _ Hx) as (Hex & _).
    destruct (valid_finite_inv _ _ _ Hy) as (Hey & _).
    pose proof (weight_pos ex ltac:(lia)) as Hwx.
    pose proof (weight_pos ey ltac:(lia)) as Hwy.
    cbn [SFcompare value]. f_equal.
    assert (Hcmp : match ex ?= ey with
                   | Eq => Pos.compare_cont Eq mx my
                   | Lt => Lt
                   | Gt => Gt
                   end = (Zpos mx * weight ex ?= Zpos my * weight ey)).
    { destruct (Z.compare_spec ex ey) as [->|Hlt|Hgt]; symmetry.
      - change (Pos.compare_cont Eq mx my) with (Zpos mx ?= Zpos my).
        destruct (Z.compare_spec (Zpos mx) (Zpos my)) as [Heq|Hl|Hg].
        + rewrite Heq. apply Z.compare_refl.
        + apply Z.compare_lt_iff. nia.
        + apply Z.compare_gt_iff. nia.
      - apply Z.compare_lt_iff. eapply mantissa_order; eassumption.
      - apply Z.compare_gt_iff. eapply mantissa_order; eassumption. }
    destruct sx, sy; cbn [cond_Zopp].
    + (* both negative *)
      rewrite Z.compare_opp,
        (Z.compare_antisym (Zpos mx * weight ex) (Zpos my * weight ey)),
        <- Hcmp.
      destruct (ex ?= ey); reflexivity.
    + symmetry. apply Z.compare_lt_iff. nia.
    + symmetry. apply Z.compare_gt_iff. nia.
    + exact Hcmp.
Qed.

Lemma SFleb_value (x y : spec_float) :
  valid_binary x = true -> valid_binary y = true ->
  finite x = true -> finite y = true ->
  (SFleb x y = true <-> value x <= value y).
Proof.
  intros Hx Hy Fx Fy. unfold SFleb. rewrite (compare_value x y) by assumption.
  destruct (Z.compare_spec (value x) (value y)); split; intros; try lia; try reflexivity; discriminate.
Qed.

Lemma SFltb_value (x y : spec_float) :
  valid_binary x = true -> valid_binary y = true ->
  finite x = true -> finite y = true ->
  (SFltb x y = true <-> value x < value y).
Proof.
  intros Hx Hy Fx Fy. unfold SFltb. rewrite (compare_value x y) by assumption.
  destruct (Z.compare_spec (value x) (value y)); split; intros; try lia; try reflexivity; discriminate.
Qed.


(** ** Exact results and their rounding *)

Lemma iter_xO (m d : positive) : Zpos (Pos.iter xO m d) = Zpos m * 2 ^ Zpos d.
Proof.
  induction d as [|d IH] using Pos.peano_ind.
  - cbn [Pos.iter]. rewrite Z.pow_1_r. lia.
  - rewrite Pos.iter_succ, Pos2Z.inj_xO, IH, Pos2Z.inj_succ, Z.pow_succ_r by lia.
    ring.
Qed.

Lemma shl_align_spec (m : positive) (e e' : Z) :
  emin <= e -> emin <= e' ->
  emin <= snd (shl_align m e e')
  /\ snd (shl_align m e e') <= e
  /\ Zpos (fst (shl_align m e e')) * weight (snd (shl_align m e e'))
     = Zpos m * weight e.
Proof.
  intros He He'. unfold shl_align.
  destruct (e' - e) as [|d|d] eqn:Hd; cbn [fst snd]; try (repeat split; lia).
  assert (Hee : e = e' + Zpos d) by lia.
  rewrite iter_xO, Hee, weight_add by lia. repeat split; lia.
Qed.

Lemma shl_align_min (m : positive) (e e' : Z) :
  e' <= e -> snd (shl_align m e e') = e'.
Proof.
  intros H. unfold shl_align.
  destruct (e' - e) as [|d|d] eqn:Hd; cbn [snd]; lia.
Qed.

(** A value and the number it is rounded to: the number is an infinity of
    the sign of the value, or a finite number between the numbers of the
    format that enclose the value. *)
Definition signed_fits (L : Z) : Prop := fits L \/ fits (- L).

Definition rounds_to (S : Z) (r : spec_float) : Prop :=
  (S <> 0 /\ r = S754_infinity (S <? 0))
  \/ (finite r = true
      /\ (forall L, signed_fits L -> L <= S -> L <= value r)
      /\ (forall L, signed_fits L -> S <= L -> value r <= L)).

Lemma fits_nonneg G : fits G -> 0 <= G.
Proof.
  intros (mg & eg & Hmg & Heg & ->). pose proof (weight_pos eg Heg). nia.
Qed.

Lemma rounds_to_of_bracket (s : bool) (X : Z) (r : spec_float) :
  0 < X ->
  r = S754_infinity s
  \/ (sign r = s
      /\ exists R,
           magnitude r R
           /\ (forall G, fits G -> G <= X -> G <= R)
           /\ (forall G, fits G -> X <= G -> R <= G)) ->
  rounds_to (cond_Zopp s X) r.
Proof.
  intros HX [->|(Hs & R & Hmag & Hlo & Hhi)].
  - left. destruct s; cbn [cond_Zopp]; split; try lia.
    + f_equal. symmetry. apply Z.ltb_lt. lia.
    + f_equal. symmetry. apply Z.ltb_ge. lia.
  - right. destruct (value_magnitude r R Hmag) as (Hv & Hf & HR).
    rewrite Hs in Hv. split; [exact Hf|]. rewrite Hv.
    destruct s; cbn [cond_Zopp]; split; intros L [HL|HL] HLS;
      pose proof (fits_nonneg _ HL) as HLnn.
    + lia.
    + specialize (Hhi (- L) HL). lia.
    + lia.
    + destruct (Z_le_gt_dec 0 L); [lia|]. specialize (Hlo (- L) HL). lia.
    + destruct (Z_le_gt_dec L 0); [lia|]. specialize (Hlo L HL). lia.
    + lia.
    + specialize (Hhi L HL). lia.
    + lia.
Qed.

Lemma binary_round_rounds (s : bool) (m : positive) (e : Z) :
  emin <= e ->
  rounds_to (cond_Zopp s (Zpos m * weight e)) (binary_round prec emax s m e).
Proof.
  intros He. pose proof (weight_pos e He) as Hw.
  apply rounds_to_of_bracket; [nia|].
  unfold binary_round.
  assert (Hf : emin <= fexp prec emax (Zpos (digits2_pos m) + e))
    by (rewrite fexp_eq; lia).
  destruct (shl_align_spec m e _ He Hf) as (H1 & H2 & H3).
  destruct (shl_align m e (fexp prec emax (Zpos (digits2_pos m) + e)))
    as [mz ez]. cbn [fst snd] in *.
  pose proof (weight_pos ez H1) as Hwz.
  apply (round_aux_bracket s (Zpos mz) ez loc_Exact (Zpos m * weight e));
    try lia.
  - split; [intros _; lia|reflexivity].
  - left. reflexivity.
Qed.

Lemma binary_normalize_rounds (M e : Z) :
  emin <= e ->
  rounds_to (M * weight e) (binary_normalize prec emax M e false).
Proof.
  intros He. destruct M as [|m|m]; cbn [binary_normalize].
  - right. cbn. split; [reflexivity|]. split; intros; lia.
  - apply (binary_round_rounds false m e He).
  - replace (Zneg m * weight e) with (cond_Zopp true (Zpos m * weight e))
      by (cbn [cond_Zopp]; lia).
    apply (binary_round_rounds true m e He).
Qed.


Lemma rounds_to_exact (S : Z) (r : spec_float) :
  finite r = true -> value r = S -> rounds_to S r.
Proof. intros Hf <-. right. split; [exact Hf|]. split; intros; assumption. Qed.

Lemma cond_Zopp_mul (s : bool) (a b : Z) :
  cond_Zopp s a * b = cond_Zopp s (a * b).
Proof. destruct s; cbn [cond_Zopp]; lia. Qed.

Lemma aligned_value (s : bool) (m : positive) (e ez : Z) :
  emin <= ez -> ez <= e ->
  cond_Zopp s (Zpos (fst (shl_align m e ez))) * weight ez
  = value (S754_finite s m e).
Proof.
  intros Hz He. unfold value. rewrite cond_Zopp_mul. f_equal.
  destruct (shl_align_spec m e ez ltac:(lia) Hz) as (_ & _ & H).
  now rewrite (shl_align_min m e ez He) in H.
Qed.

Lemma SFadd_rounds (x y : spec_float) :
  valid_binary x = true -> valid_binary y = true ->
  finite x = true -> finite y = true ->
  rounds_to (value x + value y) (SF64add x y).
Proof.
  intros Hx Hy Fx Fy.
  destruct x as [sx|sx| |sx mx ex]; try discriminate Fx;
    destruct y as [sy|sy| |sy my ey]; try discriminate Fy.
  - apply rounds_to_exact; [now destruct sx, sy|now destruct sx, sy].
  - apply rounds_to_exact; [reflexivity|cbn [SF64add SFadd value]; lia].
  - apply rounds_to_exact; [reflexivity|cbn [SF64add SFadd value]; lia].
  - destruct (valid_finite_inv _ _ _ Hx) as (Hex & _).
    destruct (valid_finite_inv _ _ _ Hy) as (Hey & _).
    unfold SF64add, SFadd.
    rewrite <- (aligned_value sx mx ex (Z.min ex ey)) by lia.
    rewrite <- (aligned_value sy my ey (Z.min ex ey)) by lia.
    rewrite <- Z.mul_add_distr_r.
    apply binary_normalize_rounds. lia.
Qed.

Lemma value_opp (s : bool) (m : positive) (e : Z) :
  value (S754_finite (negb s) m e) = - value (S754_finite s m e).
Proof. unfold value. destruct s; cbn [negb cond_Zopp]; lia. Qed.

Lemma SFsub_rounds (x y : spec_float) :
  valid_binary x = true -> valid_binary y = true ->
  finite x = true -> finite y = true ->
  rounds_to (value x - value y) (SF64sub x y).
Proof.
  intros Hx Hy Fx Fy.
  destruct x as [sx|sx| |sx mx ex]; try discriminate Fx;
    destruct y as [sy|sy| |sy my ey]; try discriminate Fy.
  - apply rounds_to_exact; [now destruct sx, sy|now destruct sx, sy].
  - apply rounds_to_exact; [reflexivity|].
    unfold SF64sub, SFsub. rewrite value_opp. cbn [value]. lia.
  - apply rounds_to_exact; [reflexivity|cbn [SF64sub SFsub value]; lia].
  - destruct (valid_finite_inv _ _ _ Hx) as (Hex & _).
    destruct (valid_finite_inv _ _ _ Hy) as (Hey & _).
    unfold SF64sub, SFsub.
    rewrite <- (aligned_value sx mx ex (Z.min ex ey)) by lia.
    rewrite <- (aligned_value sy my ey (Z.min ex ey)) by lia.
    rewrite <- Z.mul_sub_distr_r.
    apply binary_normalize_rounds. lia.
Qed.

(** *** Halving *)

Definition two : spec_float := S754_finite false 4503599627370496 (-51).

Lemma two_spec : Prim2SF 2 = two.
Proof. reflexivity. Qed.

Lemma div_two_core (mx : positive) (ex : Z) (sx : bool) :
  valid_binary (S754_finite sx mx ex) = true ->
  exists mz ez lz,
    SFdiv_core_binary prec emax (Zpos mx) ex 4503599627370496 (-51)
    = (mz, ez, lz)
    /\ 0 <= mz /\ emin <= ez
    /\ mz * weight ez <= Zpos mx * 2 ^ (ex - emin) < (mz + 1) * weight ez
    /\ (lz = loc_Exact <-> Zpos mx * 2 ^ (ex - emin) = mz * weight ez)
    /\ (lz = loc_Exact \/ 53 <= Zdigits2 mz \/ ez = emin).
Proof.
  intros Hv. destruct (valid_finite_inv _ _ _ Hv) as (He & Hm & Hnorm).
  destruct (digits2_bounds mx) as [Hlo Hhi].
  unfold SFdiv_core_binary.
  change (Zdigits2 4503599627370496) with 53.
  cbn [Zdigits2]. set (d := Zpos (digits2_pos mx)) in *.
  assert (Hd : 0 < d <= 53).
  { split; [subst d; lia|].
    destruct (Z_le_gt_dec d 53); [assumption|].
    assert (2 ^ 53 <= 2 ^ (d - 1)) by (apply Z.pow_le_mono_r; lia). lia. }
  rewrite fexp_eq.
  set (e' := Z.min (Z.max (d + ex - (53 + -51) - 53) emin) (ex - -51)).
  assert (He' : e' = Z.max (d + ex - 55) emin) by (subst e'; lia).
  set (s := ex - -51 - e').
  assert (Hs : 51 <= s) by (subst s; lia).
  destruct s as [|sp|sp] eqn:Hsp; try lia.
  rewrite Z.shiftl_mul_pow2 by lia. rewrite <- Hsp.
  pose proof (Z_div_mod (Zpos mx * 2 ^ s) 4503599627370496 eq_refl) as Hdiv.
  destruct (Z.div_eucl (Zpos mx * 2 ^ s) 4503599627370496) as [q r].
  destruct Hdiv as [Hqr Hr].
  change 4503599627370496 with (2 ^ 52) in *.
  exists q, e', (new_location (2 ^ 52) r).
  split; [reflexivity|].
  assert (He'min : emin <= e') by lia.
  destruct (Z.eq_dec s 51) as [Hs51|Hs51].
  - (* the number is at the bottom exponent; its half may not be exact *)
    assert (ex = emin /\ e' = emin) as [-> Hemin] by (subst s; lia).
    rewrite Hemin in *. rewrite Hs51 in Hqr.
    replace (emin - emin) with 0 by lia. rewrite Z.pow_0_r, Z.mul_1_r.
    change (weight emin) with 2.
    change (2 ^ 52) with (2 * 2 ^ 51) in Hqr, Hr.
    assert (Hq0 : 0 <= q) by nia.
    split; [exact Hq0|]. split; [lia|].
    assert (Hrr : r = 0 \/ r = 2 ^ 51).
    { assert (exists k, r = k * 2 ^ 51) as [k Hk] by (exists (Zpos mx - 2 * q); lia).
      assert (0 <= k < 2) by nia. assert (k = 0 \/ k = 1) as [->| ->] by lia; lia. }
    split; [destruct Hrr as [-> | ->]; lia|]. split; [|right; right; reflexivity].
    unfold new_location. change (Z.even (2 * 2 ^ 51)) with true. cbn iota.
    unfold new_location_even.
    destruct Hrr as [-> | ->]; [cbn; split; [intros _; lia|reflexivity]|].
    change (2 ^ 51 =? 0) with false. cbn iota.
    split; [discriminate|intros; lia].
  - (* the half is exact *)
    assert (Hs52 : 52 <= s) by lia.
    assert (Hpow : 2 ^ s = 2 ^ 52 * 2 ^ (s - 52)).
    { rewrite <- Z.pow_add_r by lia. f_equal. lia. }
    assert (Hq : q = Zpos mx * 2 ^ (s - 52) /\ r = 0).
    { rewrite Hpow in Hqr.
      assert (0 < 2 ^ (s - 52)) by (apply Z.pow_pos_nonneg; lia).
      assert (2 ^ 52 * (Zpos mx * 2 ^ (s - 52) - q) = r) by lia.
      assert (Zpos mx * 2 ^ (s - 52) - q = 0) by nia. lia. }
    destruct Hq as [-> ->].
    assert (0 < 2 ^ (s - 52)) by (apply Z.pow_pos_nonneg; lia).
    assert (Hval : Zpos mx * 2 ^ (s - 52) * weight e' = Zpos mx * 2 ^ (ex - emin)).
    { unfold weight. rewrite <- Z.mul_assoc, <- Z.pow_add_r by lia.
      f_equal. f_equal. subst s. lia. }
    pose proof (weight_pos e' He'min).
    split; [nia|]. split; [lia|]. rewrite Hval.
    split; [lia|]. split; [|left; reflexivity].
    split; reflexivity.
Qed.


Lemma SFdiv_two_rounds (x : spec_float) :
  valid_binary x = true -> finite x = true ->
  exists h, value x = 2 * h /\ rounds_to h (SF64div x two).
Proof.
  intros Hv Hf. destruct x as [s|s| |sx mx ex]; try discriminate Hf.
  - exists 0. split; [reflexivity|]. apply rounds_to_exact; reflexivity.
  - destruct (valid_finite_inv _ _ _ Hv) as (He & _).
    exists (cond_Zopp sx (Zpos mx * 2 ^ (ex - emin))). split.
    + unfold value, weight.
      replace (ex - emin + 1) with (Z.succ (ex - emin)) by lia.
      rewrite Z.pow_succ_r by lia. destruct sx; cbn [cond_Zopp]; lia.
    + destruct (div_two_core mx ex sx Hv)
        as (mz & ez & lz & Hcore & Hmz & Hez & HX & Hlz & Hd).
      unfold SF64div, SFdiv, two. rewrite Hcore.
      replace (xorb sx false) with sx by now destruct sx.
      assert (0 < 2 ^ (ex - emin)) by (apply Z.pow_pos_nonneg; lia).
      apply rounds_to_of_bracket; [lia|].
      now apply round_aux_bracket.
Qed.

Lemma value_even (x : spec_float) :
  valid_binary x = true -> exists k, value x = 2 * k.
Proof.
  destruct x as [s|s| |s m e]; try (exists 0; reflexivity).
  intros Hv. destruct (valid_finite_inv _ _ _ Hv) as (He & _).
  exists (cond_Zopp s (Zpos m * 2 ^ (e - emin))).
  unfold value, weight.
  replace (e - emin + 1) with (Z.succ (e - emin)) by lia.
  rewrite Z.pow_succ_r by lia. destruct s; cbn [cond_Zopp]; lia.
Qed.

Lemma fits_zero : fits 0.
Proof. exists 0, emin. repeat split; lia. Qed.

Lemma fits_two : fits 2.
Proof. exists 1, emin. repeat split; try lia; reflexivity. Qed.

Lemma value_signed_fits (x : spec_float) :
  valid_binary x = true ->
  signed_fits (value x) /\ signed_fits (2 * value x).
Proof.
  destruct x as [s|s| |s m e];
    try (intros _; split; left; exact fits_zero).
  intros Hv. destruct (valid_finite_inv _ _ _ Hv) as (He & Hm & _).
  assert (F1 : fits (Zpos m * weight e)) by (exists (Zpos m), e; repeat split; lia).
  assert (F2 : fits (2 * (Zpos m * weight e))).
  { exists (Zpos m), (e + 1). repeat split; try lia.
    rewrite weight_add by lia. rewrite Z.pow_1_r. ring. }
  unfold value, signed_fits. destruct s; cbn [cond_Zopp].
  - split; right.
    + now rewrite Z.opp_involutive.
    + replace (- (2 * - (Zpos m * weight e))) with (2 * (Zpos m * weight e)) by lia.
      exact F2.
  - split; left; assumption.
Qed.

(** ** The two facts of binary64 arithmetic the summary relies on *)

Local Open Scope float_scope.

Lemma is_finite_SF (x : float) : is_finite x = finite (Prim2SF x).
Proof. rewrite FloatFacts.is_finite_spec. now destruct (Prim2SF x). Qed.

(** The sign of a difference of finite numbers is their order: the
    comparator [(a, b) => a - b] is consistent on them. *)
Lemma sub_positive_iff (a b : float) :
  is_finite a = true -> is_finite b = true ->
  ((0 <? a - b) = true <-> (b <? a) = true).
Proof.
  rewrite !is_finite_SF. intros Fa Fb.
  pose proof (Prim2SF_valid a) as Va. pose proof (Prim2SF_valid b) as Vb.
  pose proof (Prim2SF_valid (a - b)) as Vr.
  rewrite !ltb_spec, sub_spec in *.
  change (Prim2SF 0) with (S754_zero false).
  rewrite (SFltb_value (Prim2SF b) (Prim2SF a)) by assumption.
  destruct (value_even _ Va) as (ka & Hka). destruct (value_even _ Vb) as (kb & Hkb).
  destruct (SFsub_rounds _ _ Va Vb Fa Fb) as [[Hne Hinf]|(Fr & Hlo & Hhi)].
  - rewrite Hinf. destruct (Z.ltb_spec (value (Prim2SF a) - value (Prim2SF b)) 0);
      cbn; split; intros; try lia; try reflexivity; discriminate.
  - rewrite (SFltb_value (S754_zero false) _) by (assumption || reflexivity).
    change (value (S754_zero false)) with 0%Z. split; intros H.
    + destruct (Z_lt_le_dec (value (Prim2SF b)) (value (Prim2SF a))); [assumption|].
      specialize (Hhi 0%Z (or_introl fits_zero)). lia.
    + specialize (Hlo 2%Z (or_introl fits_two)). lia.
Qed.

Lemma SFdiv_two_finite (x : spec_float) :
  finite (SF64div x two) = true -> finite x = true.
Proof. destruct x as [s|s| |s m e]; cbn; congruence. Qed.

(** The rounded half of the rounded sum of two finite numbers lies between
    them, unless the sum overflows. *)
Lemma midpoint_between (a b : float) :
  is_finite a = true -> is_finite b = true -> (a <=? b) = true ->
  is_finite ((a + b) / 2) = true ->
  (a <=? (a + b) / 2) = true /\ ((a + b) / 2 <=? b) = true.
Proof.
  rewrite !is_finite_SF. intros Fa Fb Hab Fm.
  pose proof (Prim2SF_valid a) as Va. pose proof (Prim2SF_valid b) as Vb.
  pose proof (Prim2SF_valid (a + b)) as Vs.
  pose proof (Prim2SF_valid ((a + b) / 2)) as Vm.
  rewrite !leb_spec in *. rewrite div_spec, add_spec, two_spec in *.
  apply SFleb_value in Hab; try assumption.
  pose proof (SFdiv_two_finite _ Fm) as Fs.
  destruct (SFadd_rounds _ _ Va Vb Fa Fb) as [[_ Hinf]|(_ & Hlo & Hhi)];
    [rewrite Hinf in Fs; discriminate Fs|].
  destruct (SFdiv_two_rounds _ Vs Fs) as (h & Hh & [[_ Hinf]|(_ & Hlo2 & Hhi2)]);
    [rewrite Hinf in Fm; discriminate Fm|].
  destruct (value_signed_fits _ Va) as (Sa & Sa2).
  destruct (value_signed_fits _ Vb) as (Sb & Sb2).
  specialize (Hlo _ Sa2 ltac:(lia)). specialize (Hhi _ Sb2 ltac:(lia)).
  specialize (Hlo2 _ Sa ltac:(lia)). specialize (Hhi2 _ Sb ltac:(lia)).
  split; apply SFleb_value; assumption.
Qed.

End Rounding.

(** ** The order of the summary (C8) *)

Section Summary.

Local Open Scope float_scope.

(** [x <= y] on numbers, and the numbers an observation sequence holds. *)
Definition number_le (x y : float) : Prop := (x <=? y) = true.
Definition is_number (x : float) : Prop := is_finite x = true.

Lemma number_le_trans x y z : number_le x y -> number_le y z -> number_le x z.
Proof. apply FloatOrder.leb_trans. Qed.

Lemma finite_not_nan x : is_finite x = true -> Prim2SF x <> S754_nan.
Proof. rewrite FloatFacts.is_finite_spec. destruct (Prim2SF x); congruence. Qed.

Lemma number_le_refl x : is_number x -> number_le x x.
Proof.
  intros H. unfold number_le. rewrite leb_spec.
  now apply FloatOrder.SFleb_refl, finite_not_nan.
Qed.

Lemma number_le_of_not_lt x y :
  is_number x -> is_number y -> (y <? x) = false -> number_le x y.
Proof.
  intros Hx Hy H. unfold number_le. rewrite leb_spec. rewrite ltb_spec in H.
  apply FloatOrder.SFleb_of_not_ltb; auto using finite_not_nan.
Qed.

(** On finite numbers the comparator [(a, b) => a - b] sorts. *)
Lemma insert_sorted x l :
  is_number x -> Forall is_number l ->
  StronglySorted number_le l ->
  StronglySorted number_le (JS.insert (fun a b => a - b) x l).
Proof.
  intros Hx Hl Hs. induction l as [|y l IH]; cbn [JS.insert].
  - repeat constructor.
  - inversion Hl as [|? ? Hy Hl']; subst.
    inversion Hs as [|? ? Hs' Hyl]; subst.
    unfold JS.gt. destruct (0 <? x - y) eqn:Hc.
    + apply (proj1 (Rounding.sub_positive_iff x y Hx Hy)) in Hc.
      constructor; [now apply IH|].
      eapply Permutation_Forall; [symmetry; apply insert_permutation|].
      constructor; [now apply FloatOrder.ltb_leb|assumption].
    + assert (Hxy : number_le x y).
      { apply number_le_of_not_lt; try assumption.
        destruct (y <? x) eqn:Hlt; [|reflexivity].
        apply (proj2 (Rounding.sub_positive_iff x y Hx Hy)) in Hlt. congruence. }
      constructor; [assumption|].
      constructor; [assumption|].
      eapply Forall_impl; [|exact Hyl]. intros z Hz. eapply number_le_trans; eassumption.
Qed.

Lemma sort_numbers l :
  Forall is_number l -> Forall is_number (JS.sort (fun a b => a - b) l).
Proof.
  intros H. eapply Permutation_Forall; [symmetry; apply sort_permutation|exact H].
Qed.

Lemma sort_sorted l :
  Forall is_number l -> StronglySorted number_le (JS.sort (fun a b => a - b) l).
Proof.
  induction l as [|x l IH]; intros H; cbn [JS.sort fold_right].
  - constructor.
  - inversion H; subst.
    apply insert_sorted; [assumption|now apply sort_numbers|now apply IH].
Qed.

Lemma sorted_get l i j :
  StronglySorted number_le l -> Forall is_number l ->
  (i <= j < List.length l)%nat -> number_le (JS.get l i) (JS.get l j).
Proof.
  unfold JS.get. intros Hs. revert i j.
  induction Hs as [|x l Hs IH Hx]; intros i j Hn Hij; cbn [List.length] in Hij; [lia|].
  inversion Hn as [|? ? Hxn Hln]; subst.
  destruct i as [|i], j as [|j]; cbn [nth]; try lia.
  - now apply number_le_refl.
  - rewrite Forall_forall in Hx. apply Hx, nth_In. lia.
  - apply IH; [assumption|lia].
Qed.

Lemma quartile_indices (n : nat) :
  (4 <= n)%nat ->
  (n / 4 <= n / 2 <= 3 * n / 4)%nat /\ (3 * n / 4 <= n - 1)%nat
  /\ (n mod 2 = 0 -> n / 4 <= n / 2 - 1 /\ n / 2 - 1 <= n / 2)%nat.
Proof.
  intros Hn.
  pose proof (Nat.div_mod_eq n 4). pose proof (Nat.mod_upper_bound n 4 ltac:(lia)).
  pose proof (Nat.div_mod_eq n 2). pose proof (Nat.mod_upper_bound n 2 ltac:(lia)).
  pose proof (Nat.div_mod_eq (3 * n) 4). pose proof (Nat.mod_upper_bound (3 * n) 4 ltac:(lia)).
  lia.
Qed.

(** Four finite observations whose two middle elements sum to more than the
    largest binary64 number. *)
Definition big_data : list float := [1e308; 1e308; 1.5e308; 1.7e308].

(** C8, as stated, fails: on [big_data] the sum of the two middle elements
    overflows, the median is +Infinity and exceeds p75 and the maximum. *)
Lemma summary_order_fails_on_overflow :
  ~ (forall (E : engine) (data : list float),
        (4 <= List.length data)%nat ->
        Forall (fun x => is_finite x = true) data ->
        exists s,
          calculateStats E data = Normal s
          /\ (min s <=? p25 s) = true /\ (p25 s <=? median s) = true
          /\ (median s <=? p75 s) = true /\ (p75 s <=? max s) = true).
Proof.
  intros H.
  destruct (H Reference.engine big_data) as (s & Hs & _ & _ & Hm & _).
  - cbn. lia.
  - repeat constructor.
  - vm_compute in Hs. injection Hs as <-. vm_compute in Hm. discriminate Hm.
Qed.

(** C8, amended.  For every sequence of n >= 4 finite numbers,
    [calculateStats] returns a summary whose minimum, p25, p75 and maximum are
    the elements of the sorted copy at the indices 0, floor(n/4),
    floor(3n/4) and n-1, and whose median is the middle element (n odd) or
    the half of the sum of the two middle elements (n even).  Whenever that
    median is finite (always for an odd n; for an even n unless the sum of
    the two middle elements overflows), min <= p25 <= median <= p75 <= max. *)
Theorem summary_quartiles_ordered (E : engine) (data : list float) :
  (4 <= List.length data)%nat ->
  Forall (fun x => is_finite x = true) data ->
  let n := List.length data in
  let sorted := JS.sort (fun a b => a - b) data in
  exists s,
    calculateStats E data = Normal s
    /\ Permutation sorted data
    /\ StronglySorted number_le sorted
    /\ min s = JS.get sorted 0
    /\ max s = JS.get sorted (n - 1)
    /\ p25 s = JS.get sorted (n / 4)
    /\ p75 s = JS.get sorted (3 * n / 4)
    /\ median s = (if (n mod 2 =? 0)%nat
                   then (JS.get sorted (n / 2 - 1) + JS.get sorted (n / 2)) / 2
                   else JS.get sorted (n / 2))
    /\ ((n mod 2 =? 0)%nat = false -> is_finite (median s) = true)
    /\ (is_finite (median s) = true ->
        (min s <=? p25 s) = true /\ (p25 s <=? median s) = true
        /\ (median s <=? p75 s) = true /\ (p75 s <=? max s) = true).
Proof.
  intros Hn Hdata n sorted.
  pose proof (sort_sorted data Hdata) as Hsorted. fold sorted in Hsorted.
  pose proof (sort_numbers data Hdata) as Hnum. fold sorted in Hnum.
  pose proof (sort_length (fun a b => a - b) data) as Hlen.
  fold sorted in Hlen. fold n in Hlen.
  destruct (quartile_indices n Hn) as ((I1 & I2) & I3 & I4).
  assert (Hget : forall i j, (i <= j < n)%nat ->
                             (JS.get sorted i <=? JS.get sorted j) = true).
  { intros i j Hij. apply sorted_get; [assumption|assumption|lia]. }
  assert (Hfin : forall i, (i < n)%nat -> is_finite (JS.get sorted i) = true).
  { intros i Hi. rewrite Forall_forall in Hnum. apply Hnum, nth_In. lia. }
  unfold calculateStats. fold n.
  destruct (n =? 0)%nat eqn:Hz; [apply Nat.eqb_eq in Hz; lia|].
  fold sorted. eexists. split; [reflexivity|]. cbn [min max p25 p75 median].
  split; [apply sort_permutation|]. split; [exact Hsorted|].
  do 5 (split; [reflexivity|]).
  destruct (n mod 2 =? 0)%nat eqn:Hpar.
  - split; [discriminate|]. intros Hmed.
    apply Nat.eqb_eq in Hpar. destruct (I4 Hpar) as (I5 & I6).
    destruct (Rounding.midpoint_between (JS.get sorted (n / 2 - 1))
                (JS.get sorted (n / 2))) as (Hlo & Hhi);
      [apply Hfin; lia|apply Hfin; lia|apply Hget; lia|exact Hmed|].
    repeat split.
    + apply Hget; lia.
    + eapply FloatOrder.leb_trans; [apply (Hget (n / 4)%nat (n / 2 - 1)%nat); lia|exact Hlo].
    + eapply FloatOrder.leb_trans; [exact Hhi|apply Hget; lia].
    + apply Hget; lia.
  - split; [intros _; apply Hfin; lia|]. intros _.
    repeat split; apply Hget; lia.
Qed.

End Summary.

(** * Further properties of the detector *)

(** ** Exact cases of the arithmetic *)

Module Exact.

Local Open Scope float_scope.

(** A number that is [+0] or [-0]. *)
Definition zero (x : float) : Prop := exists s, Prim2SF x = S754_zero s.

Lemma SFeqb_cases (x y : spec_float) :
  SFeqb x y = true ->
  x = y \/ ((exists s, x = S754_zero s) /\ (exists s, y = S754_zero s)).
Proof.
  unfold SFeqb, SFcompare.
  destruct x as [sx|sx| |sx mx ex], y as [sy|sy| |sy my ey];
    try discriminate; try (destruct sx; discriminate);
    try (destruct sy; discriminate).
  - intros _. right. eauto.
  - destruct sx, sy; try discriminate; auto.
  - assert (Hc : forall c, match c with Eq => true | _ => false end = true ->
                           c = Eq) by (intros []; congruence).
    destruct sx, sy; try discriminate;
      destruct (ex ?= ey)%Z eqn:He; try discriminate;
      apply Z.compare_eq in He; subst ey; intros H; apply Hc in H.
    + destruct (PosDef.Pos.compare_cont Eq mx my) eqn:Hm; try discriminate.
      apply Pos.compare_eq in Hm. subst. auto.
    + apply Pos.compare_eq in H. subst. auto.
Qed.

(** [a == b] holds between a number and itself and between the two zeros. *)
Lemma eqb_cases (a b : float) :
  (a =? b) = true -> a = b \/ (zero a /\ zero b).
Proof.
  rewrite eqb_spec. intros H.
  destruct (SFeqb_cases _ _ H) as [He|[Ha Hb]].
  - left. now apply Prim2SF_inj.
  - right. split; assumption.
Qed.

(** The quotient of two finite numbers of the same magnitude is 1 or -1. *)
Lemma SFdiv_same_magnitude (s1 s2 : bool) (m : positive) (e : Z) :
  SF64div (S754_finite s1 m e) (S754_finite s2 m e)
  = S754_finite (xorb s1 s2) 4503599627370496 (-52).
Proof.
  unfold SF64div, SFdiv, SFdiv_core_binary.
  replace (Zdigits2 (Z.pos m) + e - (Zdigits2 (Z.pos m) + e))%Z with 0%Z by lia.
  rewrite Z.sub_diag.
  change (Z.min (fexp prec emax 0) 0) with (-53)%Z.
  change (0 - -53)%Z with 53%Z. cbv beta iota zeta.
  rewrite Z.shiftl_mul_pow2 by lia.
  assert (Hq : Z.div_eucl (Z.pos m * 2 ^ 53) (Z.pos m) = ((2 ^ 53)%Z, 0%Z)).
  { pose proof (Z.div_mul (2 ^ 53) (Z.pos m) ltac:(lia)) as Hd.
    pose proof (Z.mod_mul (2 ^ 53) (Z.pos m) ltac:(lia)) as Hr.
    rewrite (Z.mul_comm (2 ^ 53)) in Hd, Hr.
    unfold Z.div, Z.modulo in Hd, Hr.
    destruct (Z.div_eucl (Z.pos m * 2 ^ 53) (Z.pos m)) as [q r].
    now subst. }
  change IntDef.Z.div_eucl with Z.div_eucl. rewrite Hq.
  replace (new_location (Z.pos m) 0) with loc_Exact
    by (unfold new_location, new_location_even, new_location_odd;
        now destruct (IntDef.Z.even (Z.pos m))).
  now destruct (xorb s1 s2).
Qed.

Lemma SFdiv_self (s : bool) (m : positive) (e : Z) :
  SF64div (S754_finite s m e) (S754_finite s m e) = Prim2SF 1.
Proof. rewrite SFdiv_same_magnitude, xorb_nilpotent. reflexivity. Qed.

(** [x / x] is 1, or NaN when [x] is a zero, an infinity or NaN. *)
Lemma div_self (x : float) : x / x = 1 \/ x / x = nan.
Proof.
  destruct (Prim2SF x) as [s|s| |s m e] eqn:Hx.
  1-3: right; apply Prim2SF_inj; rewrite div_spec, Hx; reflexivity.
  left. apply Prim2SF_inj. rewrite div_spec, Hx. apply SFdiv_self.
Qed.

Lemma SFsub_self (s : bool) (m : positive) (e : Z) :
  SF64sub (S754_finite s m e) (S754_finite s m e) = S754_zero false.
Proof.
  unfold SF64sub, SFsub.
  replace (Z.min e e) with e by lia.
  destruct (shl_align m e e) as [m' e'] eqn:Ha.
  cbv beta iota zeta. rewrite Z.sub_diag. reflexivity.
Qed.

(** [x - x] is [+0], or NaN when [x] is an infinity or NaN. *)
Lemma sub_self (x : float) : x - x = 0 \/ x - x = nan.
Proof.
  destruct (Prim2SF x) as [s|s| |s m e] eqn:Hx.
  - left. apply Prim2SF_inj. rewrite sub_spec, Hx. now destruct s.
  - right. apply Prim2SF_inj. rewrite sub_spec, Hx. now destruct s.
  - right. apply Prim2SF_inj. rewrite sub_spec, Hx. reflexivity.
  - left. apply Prim2SF_inj. rewrite sub_spec, Hx. apply SFsub_self.
Qed.

Lemma SFeqb_value (x y : spec_float) :
  valid_binary x = true -> valid_binary y = true ->
  Rounding.finite x = true -> Rounding.finite y = true ->
  SFeqb x y = (Rounding.value x =? Rounding.value y)%Z.
Proof.
  intros Vx Vy Fx Fy. unfold SFeqb.
  rewrite (Rounding.compare_value x y Vx Vy Fx Fy).
  destruct (Z.compare_spec (Rounding.value x) (Rounding.value y)) as [H|H|H];
    symmetry; [apply Z.eqb_eq|apply Z.eqb_neq|apply Z.eqb_neq]; lia.
Qed.

(** The difference of two finite numbers is a zero exactly when they are
    equal: a non-zero difference is at least the smallest subnormal. *)
Lemma sub_zero_iff (a b : float) :
  is_finite a = true -> is_finite b = true ->
  (a - b =? 0) = (a =? b).
Proof.
  rewrite !Rounding.is_finite_SF. intros Fa Fb.
  pose proof (Prim2SF_valid a) as Va. pose proof (Prim2SF_valid b) as Vb.
  pose proof (Prim2SF_valid (a - b)) as Vr.
  rewrite !eqb_spec, sub_spec in *.
  change (Prim2SF 0) with (S754_zero false).
  rewrite (SFeqb_value (Prim2SF a) (Prim2SF b)) by assumption.
  destruct (Rounding.value_even _ Va) as (ka & Hka).
  destruct (Rounding.value_even _ Vb) as (kb & Hkb).
  destruct (Rounding.SFsub_rounds _ _ Va Vb Fa Fb) as [[Hne Hinf]|(Fr & Hlo & Hhi)].
  - rewrite Hinf. transitivity false.
    + now destruct (_ <? 0)%Z.
    + symmetry. apply Z.eqb_neq. lia.
  - rewrite SFeqb_value by (assumption || reflexivity).
    change (Rounding.value (S754_zero false)) with 0%Z.
    destruct (Z.eqb_spec (Rounding.value (Prim2SF a)) (Rounding.value (Prim2SF b)))
      as [He|Hne].
    + apply Z.eqb_eq.
      pose proof (Hlo 0%Z (or_introl Rounding.fits_zero)).
      pose proof (Hhi 0%Z (or_introl Rounding.fits_zero)). lia.
    + apply Z.eqb_neq.
      destruct (Z_lt_le_dec (Rounding.value (Prim2SF a)) (Rounding.value (Prim2SF b))).
      * assert (Hm : Rounding.signed_fits (-2))
          by (right; exact Rounding.fits_two).
        pose proof (Hhi (-2)%Z Hm). lia.
      * pose proof (Hlo 2%Z (or_introl Rounding.fits_two)). lia.
Qed.

(** The difference of two finite numbers is never NaN. *)
Lemma sub_finite_not_nan (a b : float) :
  is_finite a = true -> is_finite b = true -> Prim2SF (a - b) <> S754_nan.
Proof.
  rewrite !Rounding.is_finite_SF. intros Fa Fb.
  pose proof (Prim2SF_valid a) as Va. pose proof (Prim2SF_valid b) as Vb.
  rewrite sub_spec.
  destruct (Rounding.SFsub_rounds _ _ Va Vb Fa Fb) as [[_ Hinf]|(Fr & _)].
  - rewrite Hinf. discriminate.
  - intros Hn. rewrite Hn in Fr. discriminate Fr.
Qed.

Lemma zero_cases (x : float) : zero x -> x = 0 \/ x = -0.
Proof.
  intros ([|] & Hs); [right|left]; apply Prim2SF_inj; rewrite Hs; reflexivity.
Qed.

Lemma eqb_zero_iff (x : float) : (x =? 0) = true <-> zero x.
Proof.
  split; [apply FloatFacts.eqb_zero_inv|].
  intros Hz. destruct (zero_cases x Hz) as [-> | ->]; reflexivity.
Qed.

(** A zero divided by a number that is neither a zero nor NaN is a zero. *)
Lemma zero_div (x y : float) :
  zero x -> (y =? 0) = false -> Prim2SF y <> S754_nan -> zero (x / y).
Proof.
  intros (s & Hx) Hy Hn. unfold zero. rewrite div_spec, Hx.
  rewrite eqb_spec in Hy. change (Prim2SF 0) with (S754_zero false) in Hy.
  destruct (Prim2SF y) as [sy|sy| |sy my ey]; simpl; eauto.
  - discriminate Hy.
  - congruence.
Qed.

(** [-x / x] is -1, or NaN when [x] is a zero, an infinity or NaN. *)
Lemma div_opp_self (x : float) : - x / x = -1 \/ - x / x = nan.
Proof.
  destruct (Prim2SF x) as [s|s| |s m e] eqn:Hx.
  1-3: right; apply Prim2SF_inj; rewrite div_spec, opp_spec, Hx; reflexivity.
  left. apply Prim2SF_inj. rewrite div_spec, opp_spec, Hx.
  cbn [SFopp]. rewrite SFdiv_same_magnitude. now destruct s.
Qed.

(** A zero minus a finite number that is not a zero is its opposite. *)
Lemma zero_sub (z x : float) :
  zero z -> is_finite x = true -> (x =? 0) = false -> z - x = - x.
Proof.
  intros (s & Hz) Hf Hx. apply Prim2SF_inj.
  rewrite FloatFacts.is_finite_spec in Hf.
  rewrite eqb_spec in Hx. change (Prim2SF 0) with (S754_zero false) in Hx.
  rewrite sub_spec, opp_spec, Hz.
  destruct (Prim2SF x) as [sx|sx| |sx m e]; try discriminate; reflexivity.
Qed.

Lemma is_nan_inv (x : float) : is_nan x = true -> x = nan.
Proof.
  unfold is_nan. rewrite eqb_spec. intros H. apply Prim2SF_inj.
  change (Prim2SF nan) with S754_nan.
  destruct (Prim2SF x) as [s|s| |s m e]; try reflexivity; exfalso.
  - now destruct s.
  - now destruct s.
  - unfold SFeqb, SFcompare in H.
    rewrite Z.compare_refl, Pos.compare_cont_refl in H. now destruct s.
Qed.

Lemma div_nan_r (x : float) : x / nan = nan.
Proof.
  apply Prim2SF_inj. rewrite div_spec. change (Prim2SF nan) with S754_nan.
  now destruct (Prim2SF x).
Qed.

Lemma div_nan_l (x : float) : nan / x = nan.
Proof.
  apply Prim2SF_inj. rewrite div_spec. change (Prim2SF nan) with S754_nan.
  reflexivity.
Qed.

End Exact.

(** ** The range detector *)

Section Range.

Variable E : engine.
Variables baseline current : summary.
Variable this : detector.

Local Open Scope string_scope.
Local Open Scope float_scope.

Let baselineRange : float := max baseline - min baseline.
Let currentRange : float := max current - min current.
Let rangeRatio : float := currentRange / baselineRange.

Lemma range_fires_only_outside s this' :
  detectRangeAnomaly E baseline current this = Normal (s, this') ->
  sig_detected s = true ->
  JS.strict_eq baselineRange 0 = false
  /\ (JS.gt rangeRatio 5.0 = true \/ (rangeRatio <? 0.2) = true)
  /\ sig_confidence s = 65%Z.
Proof.
  unfold detectRangeAnomaly. fold baselineRange currentRange. fold rangeRatio.
  destruct (JS.strict_eq baselineRange 0);
    [intros [= <- _]; discriminate|].
  run.
  destruct (JS.gt rangeRatio 5.0); [intros [= <- _]; auto|].
  destruct (rangeRatio <? 0.2); intros [= <- _]; [auto|discriminate].
Qed.

Lemma range_expanded :
  JS.strict_eq baselineRange 0 = false -> JS.gt rangeRatio 5.0 = true ->
  detectRangeAnomaly E baseline current this
  = Normal (fired 65,
            appended this
              ["Data range expanded significantly: "
               ++ JS.fixed E rangeRatio 1 ++ "x larger than baseline"]).
Proof.
  intros Hz Hr. unfold detectRangeAnomaly.
  fold baselineRange currentRange. fold rangeRatio.
  rewrite Hz, Hr. run. reflexivity.
Qed.

Lemma range_contracted :
  JS.strict_eq baselineRange 0 = false -> (rangeRatio <? 0.2) = true ->
  detectRangeAnomaly E baseline current this
  = Normal (fired 65,
            appended this
              ["Data range contracted significantly: "
               ++ JS.fixed E (rangeRatio * 100) 0 ++ "% of baseline range"]).
Proof.
  intros Hz Hr. unfold detectRangeAnomaly.
  fold baselineRange currentRange. fold rangeRatio.
  assert (Hhi : JS.gt rangeRatio 5.0 = false).
  { unfold JS.gt. destruct (5.0 <? rangeRatio) eqn:Hl; [|reflexivity].
    pose proof (FloatOrder.ltb_trans _ _ _ Hl Hr) as H. discriminate H. }
  rewrite Hz, Hhi, Hr. run. reflexivity.
Qed.

Lemma range_silent :
  JS.gt rangeRatio 5.0 = false -> (rangeRatio <? 0.2) = false ->
  detectRangeAnomaly E baseline current this = Normal (not_detected, this).
Proof.
  intros Hhi Hlo. unfold detectRangeAnomaly.
  fold baselineRange currentRange. fold rangeRatio.
  destruct (JS.strict_eq baselineRange 0); [reflexivity|].
  now rewrite Hhi, Hlo.
Qed.

Lemma range_guard :
  is_finite (max baseline) = true -> is_finite (min baseline) = true ->
  JS.strict_eq baselineRange 0 = (max baseline =? min baseline).
Proof. intros Hmax Hmin. now apply Exact.sub_zero_iff. Qed.

Lemma range_of_constant_sample :
  is_finite (max baseline) = true -> is_finite (min baseline) = true ->
  (max baseline =? min baseline) = false ->
  is_finite (max current) = true -> is_finite (min current) = true ->
  (max current =? min current) = true ->
  detectRangeAnomaly E baseline current this
  = Normal (fired 65,
            appended this
              ["Data range contracted significantly: 0% of baseline range"]).
Proof.
  intros Bmax Bmin Hb Cmax Cmin Hc.
  assert (Hz : JS.strict_eq baselineRange 0 = false)
    by (rewrite range_guard; assumption).
  assert (Hr : Exact.zero rangeRatio).
  { apply Exact.zero_div.
    - apply Exact.eqb_zero_iff. unfold currentRange.
      rewrite Exact.sub_zero_iff; assumption.
    - exact Hz.
    - now apply Exact.sub_finite_not_nan. }
  rewrite range_contracted.
  - destruct (Exact.zero_cases _ Hr) as [-> | ->]; reflexivity.
  - exact Hz.
  - destruct (Exact.zero_cases _ Hr) as [-> | ->]; reflexivity.
Qed.

End Range.

(** X1.  The range detector compares the current range [max - min] with the
    baseline one.  It fires only when the baseline range is not zero and the
    ratio of the ranges is above 5 or below 0.2, always with confidence 65.
    A ratio above 5 records "Data range expanded significantly: <ratio to 1
    digit>x larger than baseline"; a ratio below 0.2 records "Data range
    contracted significantly: <100 * ratio to 0 digits>% of baseline range";
    a ratio that is neither (in particular one between 0.2 and 5, and NaN)
    records nothing and leaves the detector as it was. *)
Theorem detectRangeAnomaly_tiers (E : engine) (baseline current : summary)
    (this : detector) :
  let baselineRange := (max baseline - min baseline)%float in
  let rangeRatio := ((max current - min current) / baselineRange)%float in
  (forall s this',
      detectRangeAnomaly E baseline current this = Normal (s, this') ->
      sig_detected s = true ->
      JS.strict_eq baselineRange 0 = false
      /\ (JS.gt rangeRatio 5.0 = true \/ (rangeRatio <? 0.2)%float = true)
      /\ sig_confidence s = 65%Z)
  /\ (JS.strict_eq baselineRange 0 = false -> JS.gt rangeRatio 5.0 = true ->
      detectRangeAnomaly E baseline current this
      = Normal (fired 65,
                appended this
                  ["Data range expanded significantly: "
                   ++ JS.fixed E rangeRatio 1 ++ "x larger than baseline"]%string))
  /\ (JS.strict_eq baselineRange 0 = false ->
      (rangeRatio <? 0.2)%float = true ->
      detectRangeAnomaly E baseline current this
      = Normal (fired 65,
                appended this
                  ["Data range contracted significantly: "
                   ++ JS.fixed E (rangeRatio * 100) 0
                   ++ "% of baseline range"]%string))
  /\ (JS.gt rangeRatio 5.0 = false -> (rangeRatio <? 0.2)%float = false ->
      detectRangeAnomaly E baseline current this = Normal (not_detected, this))
  /\ ((0.2 <=? rangeRatio)%float = true -> (rangeRatio <=? 5.0)%float = true ->
      detectRangeAnomaly E baseline current this = Normal (not_detected, this)).
Proof.
  intros baselineRange rangeRatio. split; [|split; [|split; [|split]]].
  - apply range_fires_only_outside.
  - apply range_expanded.
  - apply range_contracted.
  - apply range_silent.
  - intros Hlo Hhi. apply range_silent.
    + now apply FloatOrder.leb_ltb_false.
    + now apply FloatOrder.leb_ltb_false.
Qed.

(** X2.  On a baseline whose minimum and maximum are finite, the guard
    [baselineRange === 0] of the range detector holds exactly when
    [max == min]: a baseline of equal observations switches the detector
    off, and no other baseline does.  Against a baseline that is not
    constant, a current sample of equal observations (finite, [max == min])
    always fires, with confidence 65 and the anomaly "Data range contracted
    significantly: 0% of baseline range". *)
Theorem range_guard_iff_constant_baseline (E : engine)
    (baseline current : summary) (this : detector) :
  is_finite (max baseline) = true -> is_finite (min baseline) = true ->
  JS.strict_eq (max baseline - min baseline) 0
  = (max baseline =? min baseline)%float
  /\ ((max baseline =? min baseline)%float = true ->
      detectRangeAnomaly E baseline current this = Normal (not_detected, this))
  /\ ((max baseline =? min baseline)%float = false ->
      is_finite (max current) = true -> is_finite (min current) = true ->
      (max current =? min current)%float = true ->
      detectRangeAnomaly E baseline current this
      = Normal (fired 65,
                appended this
                  ["Data range contracted significantly: 0% of baseline range"%string])).
Proof.
  intros Hmax Hmin.
  pose proof (range_guard baseline Hmax Hmin) as Hg.
  split; [exact Hg|]. split.
  - intros He. unfold detectRangeAnomaly. now rewrite Hg, He.
  - now apply range_of_constant_sample.
Qed.

(** ** The summary of a sample *)

Section Sample.

Variable E : engine.

Local Open Scope float_scope.

(** The fields of the summary of a non-empty sample. *)
Lemma calculateStats_fields (data : list float) :
  data <> [] ->
  let n := List.length data in
  let sorted := JS.sort (fun a b => a - b) data in
  exists s,
    calculateStats E data = Normal s
    /\ count s = Z.of_nat n
    /\ min s = JS.get sorted 0
    /\ max s = JS.get sorted (n - 1)
    /\ p25 s = JS.get sorted (n / 4)
    /\ p75 s = JS.get sorted (3 * n / 4)
    /\ median s = (if (n mod 2 =? 0)%nat
                   then (JS.get sorted (n / 2 - 1) + JS.get sorted (n / 2)) / 2
                   else JS.get sorted (n / 2)).
Proof.
  intros Hne n sorted. unfold calculateStats. fold n.
  destruct (n =? 0)%nat eqn:Hz.
  - apply Nat.eqb_eq in Hz. destruct data; [congruence|discriminate Hz].
  - eexists. split; [reflexivity|]. repeat split.
Qed.

(** The indices read by [calculateStats], for every length from 1 on. *)
Lemma order_indices (n : nat) :
  (1 <= n)%nat ->
  (n / 4 <= n / 2 <= 3 * n / 4)%nat /\ (3 * n / 4 <= n - 1)%nat
  /\ (n / 2 < n)%nat
  /\ (n mod 2 = 0 -> n / 4 <= n / 2 - 1 /\ n / 2 - 1 <= n / 2)%nat.
Proof.
  intros Hn.
  pose proof (Nat.div_mod_eq n 4). pose proof (Nat.mod_upper_bound n 4 ltac:(lia)).
  pose proof (Nat.div_mod_eq n 2). pose proof (Nat.mod_upper_bound n 2 ltac:(lia)).
  pose proof (Nat.div_mod_eq (3 * n) 4). pose proof (Nat.mod_upper_bound (3 * n) 4 ltac:(lia)).
  lia.
Qed.

Lemma sorted_get_member (data : list float) (i : nat) :
  (i < List.length data)%nat ->
  In (JS.get (JS.sort (fun a b => a - b) data) i) data.
Proof.
  intros Hi. apply (Permutation_in _ (sort_permutation (fun a b => a - b) data)).
  apply nth_In. now rewrite sort_length.
Qed.

Lemma sorted_get_finite (data : list float) (i : nat) :
  Forall is_number data -> (i < List.length data)%nat ->
  is_finite (JS.get (JS.sort (fun a b => a - b) data) i) = true.
Proof.
  intros Hd Hi. rewrite Forall_forall in Hd. now apply Hd, sorted_get_member.
Qed.

Lemma sorted_get_le (data : list float) (i j : nat) :
  Forall is_number data -> (i <= j < List.length data)%nat ->
  (JS.get (JS.sort (fun a b => a - b) data) i
   <=? JS.get (JS.sort (fun a b => a - b) data) j) = true.
Proof.
  intros Hd Hij. apply sorted_get.
  - now apply sort_sorted.
  - now apply sort_numbers.
  - now rewrite sort_length.
Qed.

(** Every observation is at some index of the sorted copy. *)
Lemma member_sorted_get (data : list float) (x : float) :
  In x data ->
  exists i, (i < List.length data)%nat
            /\ JS.get (JS.sort (fun a b => a - b) data) i = x.
Proof.
  intros Hx.
  apply (Permutation_in _ (Permutation_sym (sort_permutation (fun a b => a - b) data)))
    in Hx.
  destruct (In_nth _ _ nan Hx) as (i & Hi & Hnth).
  rewrite sort_length in Hi. now exists i.
Qed.

End Sample.

(** X3.  For every non-empty sample of finite numbers [calculateStats]
    returns a summary whose count is the number of observations, whose
    minimum, maximum, p25 and p75 are observations of the sample (and so is
    the median of a sample of odd length), with every observation between
    the minimum and the maximum, and min <= p25 <= p75 <= max.  The median
    lies between p25 and p75 whenever it is finite; this holds from one
    observation on. *)
Theorem summary_bounds (E : engine) (data : list float) :
  data <> [] ->
  Forall (fun x => is_finite x = true) data ->
  exists s,
    calculateStats E data = Normal s
    /\ count s = Z.of_nat (List.length data)
    /\ In (min s) data /\ In (max s) data
    /\ In (p25 s) data /\ In (p75 s) data
    /\ (forall x, In x data ->
                  (min s <=? x)%float = true /\ (x <=? max s)%float = true)
    /\ (min s <=? p25 s)%float = true
    /\ (p25 s <=? p75 s)%float = true
    /\ (p75 s <=? max s)%float = true
    /\ (List.length data mod 2 <> 0 -> In (median s) data)%nat
    /\ (is_finite (median s) = true ->
        (p25 s <=? median s)%float = true
        /\ (median s <=? p75 s)%float = true).
Proof.
  intros Hne Hdata.
  destruct (calculateStats_fields E data Hne)
    as (s & Hs & Hcount & Hmin & Hmax & Hp25 & Hp75 & Hmed).
  set (n := List.length data) in *.
  assert (Hn : (1 <= n)%nat) by (subst n; destruct data; [congruence|simpl; lia]).
  destruct (order_indices n Hn) as ((I1 & I2) & I3 & I4 & I5).
  exists s. split; [exact Hs|]. split; [exact Hcount|].
  rewrite Hmin, Hmax, Hp25, Hp75.
  split; [apply sorted_get_member; fold n; lia|].
  split; [apply sorted_get_member; fold n; lia|].
  split; [apply sorted_get_member; fold n; lia|].
  split; [apply sorted_get_member; fold n; lia|].
  split.
  { intros x Hx. destruct (member_sorted_get data x Hx) as (i & Hi & <-).
    fold n in Hi. split; apply sorted_get_le; try assumption; fold n; lia. }
  split; [apply sorted_get_le; try assumption; fold n; lia|].
  split; [apply sorted_get_le; try assumption; fold n; lia|].
  split; [apply sorted_get_le; try assumption; fold n; lia|].
  rewrite Hmed. destruct (n mod 2 =? 0)%nat eqn:Hpar.
  - apply Nat.eqb_eq in Hpar. split; [intros Hodd; contradiction|].
    intros Hfin. destruct (I5 Hpar) as (I6 & I7).
    destruct (Rounding.midpoint_between
                (JS.get (JS.sort (fun a b => a - b) data) (n / 2 - 1))
                (JS.get (JS.sort (fun a b => a - b) data) (n / 2)))%float
      as (Hlo & Hhi);
      [apply sorted_get_finite; try assumption; fold n; lia
      |apply sorted_get_finite; try assumption; fold n; lia
      |apply sorted_get_le; try assumption; fold n; lia
      |exact Hfin|].
    split.
    + eapply FloatOrder.leb_trans; [|exact Hlo].
      apply sorted_get_le; try assumption; fold n; lia.
    + eapply FloatOrder.leb_trans; [exact Hhi|].
      apply sorted_get_le; try assumption; fold n; lia.
  - split; [intros _; apply sorted_get_member; fold n; lia|].
    intros _. split; apply sorted_get_le; try assumption; fold n; lia.
Qed.

(** ** The order statistics do not depend on the order of the sample *)

Module SameNumber.

Local Open Scope float_scope.

(** [x == y]: the same number, where [+0] and [-0] are one number. *)
Definition same (x y : float) : Prop := (x =? y) = true.

Lemma SFeqb_refl (x : spec_float) : x <> S754_nan -> SFeqb x x = true.
Proof.
  unfold SFeqb, SFcompare. destruct x as [s|s| |s m e]; try congruence.
  - intros _. now destruct s.
  - intros _. rewrite Z.compare_refl, Pos.compare_cont_refl. now destruct s.
Qed.

Lemma same_refl (x : float) : Prim2SF x <> S754_nan -> same x x.
Proof. intros H. unfold same. rewrite eqb_spec. now apply SFeqb_refl. Qed.

Lemma same_zeros (x y : float) : Exact.zero x -> Exact.zero y -> same x y.
Proof.
  intros Hx Hy.
  destruct (Exact.zero_cases x Hx) as [-> | ->],
    (Exact.zero_cases y Hy) as [-> | ->]; reflexivity.
Qed.

Lemma same_sym (x y : float) : same x y -> same y x.
Proof.
  intros H. destruct (Exact.eqb_cases x y H) as [<-|[Hx Hy]];
    [exact H|now apply same_zeros].
Qed.

Lemma same_trans (x y z : float) : same x y -> same y z -> same x z.
Proof.
  intros Hxy Hyz.
  destruct (Exact.eqb_cases x y Hxy) as [<-|[Hx Hy]]; [exact Hyz|].
  destruct (Exact.eqb_cases y z Hyz) as [<-|[_ Hz]]; [exact Hxy|].
  now apply same_zeros.
Qed.

(** The comparisons do not tell the two zeros apart. *)
Lemma ltb_same_l (x x' y : float) : same x x' -> (x <? y) = (x' <? y).
Proof.
  intros H. destruct (Exact.eqb_cases x x' H) as [<-|[(s & Hx) (s' & Hx')]];
    [reflexivity|].
  rewrite !ltb_spec, Hx, Hx'. reflexivity.
Qed.

Lemma ltb_same_r (x y y' : float) : same y y' -> (x <? y) = (x <? y').
Proof.
  intros H. destruct (Exact.eqb_cases y y' H) as [<-|[(s & Hy) (s' & Hy')]];
    [reflexivity|].
  rewrite !ltb_spec, Hy, Hy'. now destruct (Prim2SF x).
Qed.

(** Two finite numbers neither of which is below the other are the same. *)
Lemma same_of_not_lt (x y : float) :
  is_finite x = true -> is_finite y = true ->
  (x <? y) = false -> (y <? x) = false -> same x y.
Proof.
  rewrite !Rounding.is_finite_SF. intros Fx Fy Hxy Hyx.
  pose proof (Prim2SF_valid x) as Vx. pose proof (Prim2SF_valid y) as Vy.
  unfold same. rewrite eqb_spec, Exact.SFeqb_value by assumption.
  rewrite ltb_spec in Hxy, Hyx.
  apply Z.eqb_eq.
  destruct (Z.lt_trichotomy (Rounding.value (Prim2SF x)) (Rounding.value (Prim2SF y)))
    as [Hlt|[He|Hgt]]; [|exact He|].
  - apply (Rounding.SFltb_value _ _ Vx Vy Fx Fy) in Hlt. congruence.
  - apply (Rounding.SFltb_value _ _ Vy Vx Fy Fx) in Hgt. congruence.
Qed.

(** The comparator [(a, b) => a - b] of the sort, on finite numbers. *)
Lemma comparator_gt (x y : float) :
  is_finite x = true -> is_finite y = true ->
  JS.gt (x - y) 0 = (y <? x).
Proof.
  intros Hx Hy. unfold JS.gt.
  pose proof (Rounding.sub_positive_iff x y Hx Hy) as [H1 H2].
  destruct (0 <? x - y), (y <? x); try reflexivity.
  - specialize (H1 eq_refl). discriminate H1.
  - specialize (H2 eq_refl). discriminate H2.
Qed.

Lemma ltb_asym (x y : float) : (x <? y) = true -> (y <? x) = false.
Proof. intros H. now apply FloatOrder.leb_ltb_false, FloatOrder.ltb_leb. Qed.

Lemma lt_of_not_lt_lt (x y z : float) :
  is_finite x = true -> is_finite y = true ->
  (y <? x) = false -> (y <? z) = true -> (x <? z) = true.
Proof.
  intros Hx Hy Hyx Hyz.
  apply FloatOrder.leb_ltb_trans with y; [|exact Hyz].
  now apply number_le_of_not_lt.
Qed.

Lemma same_list_refl (l : list float) :
  Forall is_number l -> Forall2 same l l.
Proof.
  induction 1 as [|x l Hx Hl IH]; constructor; [|exact IH].
  now apply same_refl, finite_not_nan.
Qed.

Lemma same_list_trans (l1 l2 l3 : list float) :
  Forall2 same l1 l2 -> Forall2 same l2 l3 -> Forall2 same l1 l3.
Proof.
  intros H. revert l3. induction H as [|x y l1 l2 Hxy Hl IH]; intros l3 H3.
  - exact H3.
  - inversion H3 as [|? z ? l3' Hyz Hl3]; subst.
    constructor; [now apply same_trans with y|now apply IH].
Qed.

Lemma insert_numbers cmp x l :
  is_number x -> Forall is_number l -> Forall is_number (JS.insert cmp x l).
Proof.
  intros Hx Hl.
  eapply Permutation_Forall; [symmetry; apply insert_permutation|].
  now constructor.
Qed.

(** Inserting the same number into two arrays that hold the same numbers
    takes the same decisions. *)
Lemma insert_same (x x' : float) (s s' : list float) :
  is_number x -> is_number x' -> same x x' ->
  Forall is_number s -> Forall is_number s' -> Forall2 same s s' ->
  Forall2 same (JS.insert (fun a b => a - b) x s)
    (JS.insert (fun a b => a - b) x' s').
Proof.
  intros Hx Hx' Hxx Hs Hs' H. induction H as [|y y' t t' Hyy Ht IH].
  - repeat constructor. exact Hxx.
  - inversion Hs as [|? ? Hy Hst]; subst.
    inversion Hs' as [|? ? Hy' Hst']; subst.
    cbn [JS.insert]. rewrite !comparator_gt by assumption.
    rewrite (ltb_same_l y y' x Hyy), (ltb_same_r y' x x' Hxx).
    destruct (y' <? x').
    + constructor; [exact Hyy|now apply IH].
    + constructor; [exact Hxx|]. now constructor.
Qed.

Lemma insert_cons (x y : float) (s : list float) :
  is_number x -> is_number y ->
  JS.insert (fun a b => a - b) x (y :: s)
  = if y <? x then y :: JS.insert (fun a b => a - b) x s else x :: y :: s.
Proof. intros Hx Hy. cbn [JS.insert]. now rewrite comparator_gt. Qed.

(** Two insertions commute, up to the order of two equal numbers. *)
Lemma insert_insert (x y : float) (s : list float) :
  is_number x -> is_number y -> Forall is_number s ->
  Forall2 same
    (JS.insert (fun a b => a - b) x (JS.insert (fun a b => a - b) y s))
    (JS.insert (fun a b => a - b) y (JS.insert (fun a b => a - b) x s)).
Proof.
  intros Hx Hy Hs.
  assert (Hbase : forall t, Forall is_number t ->
            Forall2 same
              (if y <? x then y :: x :: t else x :: y :: t)
              (if x <? y then x :: y :: t else y :: x :: t)).
  { intros t Ht. pose proof (same_list_refl t Ht) as Hrefl.
    pose proof (same_refl x (finite_not_nan x Hx)) as Rx.
    pose proof (same_refl y (finite_not_nan y Hy)) as Ry.
    destruct (y <? x) eqn:Hyx.
    - rewrite (ltb_asym y x Hyx). repeat (constructor; try assumption).
    - destruct (x <? y) eqn:Hxy.
      + repeat (constructor; try assumption).
      + pose proof (same_of_not_lt x y Hx Hy Hxy Hyx) as Hsame.
        constructor; [exact Hsame|].
        constructor; [now apply same_sym|exact Hrefl]. }
  induction s as [|z s IH].
  - cbn [JS.insert]. rewrite !comparator_gt by assumption.
    apply (Hbase [] (Forall_nil _)).
  - inversion Hs as [|? ? Hz Hs']; subst. specialize (IH Hs').
    pose proof (same_refl z (finite_not_nan z Hz)) as Rz.
    rewrite (insert_cons y z s Hy Hz), (insert_cons x z s Hx Hz).
    destruct (z <? y) eqn:Hzy, (z <? x) eqn:Hzx.
    + rewrite (insert_cons x z _ Hx Hz), (insert_cons y z _ Hy Hz), Hzx, Hzy.
      constructor; [exact Rz|exact IH].
    + rewrite (insert_cons x z _ Hx Hz), Hzx.
      rewrite (insert_cons y x _ Hy Hx), (lt_of_not_lt_lt x z y Hx Hz Hzx Hzy).
      rewrite (insert_cons y z _ Hy Hz), Hzy.
      apply same_list_refl.
      repeat (constructor; try assumption). now apply insert_numbers.
    + rewrite (insert_cons y z _ Hy Hz), Hzy.
      rewrite (insert_cons x y _ Hx Hy), (lt_of_not_lt_lt y z x Hy Hz Hzy Hzx).
      rewrite (insert_cons x z _ Hx Hz), Hzx.
      apply same_list_refl.
      repeat (constructor; try assumption). now apply insert_numbers.
    + rewrite (insert_cons x y _ Hx Hy), (insert_cons y x _ Hy Hx).
      rewrite (insert_cons x z _ Hx Hz), (insert_cons y z _ Hy Hz), Hzx, Hzy.
      apply Hbase. now constructor.
Qed.

(** Sorting two arrangements of the same finite numbers gives, index by
    index, the same numbers. *)
Lemma sort_same (l l' : list float) :
  Permutation l l' -> Forall is_number l ->
  Forall2 same (JS.sort (fun a b => a - b) l) (JS.sort (fun a b => a - b) l').
Proof.
  induction 1 as [|x l l' Hp IH|x y l|l1 l2 l3 H12 IH12 H23 IH23]; intros Hl.
  - constructor.
  - inversion Hl as [|? ? Hx Hl']; subst.
    cbn [JS.sort fold_right]. apply insert_same; try assumption.
    + now apply same_refl, finite_not_nan.
    + now apply sort_numbers.
    + apply sort_numbers. eapply Permutation_Forall; eassumption.
    + now apply IH.
  - inversion Hl as [|? ? Hy Hl']; subst.
    inversion Hl' as [|? ? Hx Hl'']; subst.
    cbn [JS.sort fold_right]. apply insert_insert; try assumption.
    now apply sort_numbers.
  - apply same_list_trans with (JS.sort (fun a b => a - b) l2).
    + now apply IH12.
    + apply IH23. eapply Permutation_Forall; eassumption.
Qed.

Lemma get_same (s s' : list float) (i : nat) :
  Forall2 same s s' -> (i < List.length s)%nat ->
  same (JS.get s i) (JS.get s' i).
Proof.
  unfold JS.get. intros H. revert i.
  induction H as [|x y s s' Hxy Hs IH]; intros i Hi; cbn [List.length] in Hi;
    [lia|].
  destruct i as [|i]; cbn [nth]; [exact Hxy|]. apply IH. lia.
Qed.

(** The sum of two finite numbers is never NaN. *)
Lemma add_finite_not_nan (a b : float) :
  is_finite a = true -> is_finite b = true -> Prim2SF (a + b) <> S754_nan.
Proof.
  rewrite !Rounding.is_finite_SF. intros Fa Fb.
  pose proof (Prim2SF_valid a) as Va. pose proof (Prim2SF_valid b) as Vb.
  rewrite add_spec.
  destruct (Rounding.SFadd_rounds _ _ Va Vb Fa Fb) as [[_ Hinf]|(Fr & _)].
  - rewrite Hinf. discriminate.
  - intros Hn. rewrite Hn in Fr. discriminate Fr.
Qed.

Lemma add_zero_l (z z' b : float) :
  Exact.zero z -> Exact.zero z' -> is_finite b = true ->
  same (z + b) (z' + b).
Proof.
  intros (s & Hz) (s' & Hz') Hb. unfold same.
  rewrite FloatFacts.is_finite_spec in Hb.
  rewrite eqb_spec, !add_spec, Hz, Hz'.
  destruct (Prim2SF b) as [t|t| |t m e]; try discriminate Hb.
  - now destruct s, s', t.
  - apply SFeqb_refl. discriminate.
Qed.

Lemma add_zero_r (a z z' : float) :
  Exact.zero z -> Exact.zero z' -> is_finite a = true ->
  same (a + z) (a + z').
Proof.
  intros (s & Hz) (s' & Hz') Ha. unfold same.
  rewrite FloatFacts.is_finite_spec in Ha.
  rewrite eqb_spec, !add_spec, Hz, Hz'.
  destruct (Prim2SF a) as [t|t| |t m e]; try discriminate Ha.
  - now destruct s, s', t.
  - apply SFeqb_refl. discriminate.
Qed.

Lemma zero_finite (z : float) : Exact.zero z -> is_finite z = true.
Proof. intros (s & Hz). now rewrite FloatFacts.is_finite_spec, Hz. Qed.

(** Sums of the same finite numbers are the same. *)
Lemma add_same (a a' b b' : float) :
  is_finite a = true -> is_finite b = true -> is_finite b' = true ->
  same a a' -> same b b' -> same (a + b) (a' + b').
Proof.
  intros Ha Hb Hb' Haa Hbb.
  apply same_trans with (a + b').
  - destruct (Exact.eqb_cases b b' Hbb) as [<-|[Hz Hz']].
    + now apply same_refl, add_finite_not_nan.
    + now apply add_zero_r.
  - destruct (Exact.eqb_cases a a' Haa) as [<-|[Hz Hz']].
    + now apply same_refl, add_finite_not_nan.
    + now apply add_zero_l.
Qed.

(** Halves of the same numbers are the same. *)
Lemma half_same (x x' : float) :
  Prim2SF x <> S754_nan -> same x x' -> same (x / 2) (x' / 2).
Proof.
  intros Hn H. destruct (Exact.eqb_cases x x' H) as [<-|[Hz Hz']].
  - apply same_refl. rewrite div_spec, Rounding.two_spec.
    pose proof (Prim2SF_valid x) as Vx.
    destruct (Prim2SF x) as [s|s| |s m e] eqn:Hx; try discriminate; try congruence.
    destruct (Rounding.SFdiv_two_rounds _ Vx eq_refl)
      as (h & _ & [[_ Hinf]|(Fr & _)]).
    + rewrite Hinf. discriminate.
    + intros Hnan. rewrite Hnan in Fr. discriminate Fr.
  - destruct (Exact.zero_cases x Hz) as [-> | ->],
      (Exact.zero_cases x' Hz') as [-> | ->]; reflexivity.
Qed.

End SameNumber.

(** X4.  The order statistics of a sample do not depend on the order of its
    observations: for two arrangements of the same finite numbers,
    [calculateStats] returns summaries with the same count and the same
    minimum, maximum, p25, p75 and median (as numbers: [==], which reads
    [+0] and [-0] as one number). *)
Theorem order_statistics_ignore_order (E : engine) (data data' : list float) :
  Permutation data data' ->
  data <> [] ->
  Forall (fun x => is_finite x = true) data ->
  exists s s',
    calculateStats E data = Normal s
    /\ calculateStats E data' = Normal s'
    /\ count s = count s'
    /\ (min s =? min s')%float = true
    /\ (max s =? max s')%float = true
    /\ (p25 s =? p25 s')%float = true
    /\ (p75 s =? p75 s')%float = true
    /\ (median s =? median s')%float = true.
Proof.
  intros Hperm Hne Hdata.
  assert (Hne' : data' <> []).
  { intros ->. apply Permutation_sym, Permutation_nil in Hperm. contradiction. }
  assert (Hdata' : Forall is_number data')
    by (eapply Permutation_Forall; eassumption).
  pose proof (Permutation_length Hperm) as Hlen.
  destruct (calculateStats_fields E data Hne)
    as (s & Hs & Hcount & Hmin & Hmax & Hp25 & Hp75 & Hmed).
  destruct (calculateStats_fields E data' Hne')
    as (s' & Hs' & Hcount' & Hmin' & Hmax' & Hp25' & Hp75' & Hmed').
  rewrite <- Hlen in *.
  set (n := List.length data) in *.
  assert (Hn : (1 <= n)%nat) by (subst n; destruct data; [congruence|simpl; lia]).
  destruct (order_indices n Hn) as ((I1 & I2) & I3 & I4 & I5).
  pose proof (SameNumber.sort_same data data' Hperm Hdata) as Hsame.
  assert (Hget : forall i, (i < n)%nat ->
            SameNumber.same (JS.get (JS.sort (fun a b => a - b)%float data) i)
              (JS.get (JS.sort (fun a b => a - b)%float data') i)).
  { intros i Hi. apply SameNumber.get_same; [exact Hsame|].
    rewrite sort_length. exact Hi. }
  exists s, s'. split; [exact Hs|]. split; [exact Hs'|].
  split; [congruence|].
  rewrite Hmin, Hmin', Hmax, Hmax', Hp25, Hp25', Hp75, Hp75', Hmed, Hmed'.
  split; [apply Hget; lia|]. split; [apply Hget; lia|].
  split; [apply Hget; lia|]. split; [apply Hget; lia|].
  destruct (n mod 2 =? 0)%nat eqn:Hpar; [|apply Hget; lia].
  apply Nat.eqb_eq in Hpar. destruct (I5 Hpar) as (I6 & I7).
  apply SameNumber.half_same.
  - apply SameNumber.add_finite_not_nan; apply sorted_get_finite;
      try assumption; fold n; lia.
  - apply SameNumber.add_same; try (apply Hget; lia).
    + apply sorted_get_finite; try assumption; fold n; lia.
    + apply sorted_get_finite; try assumption; fold n; lia.
    + apply sorted_get_finite; try assumption; rewrite <- Hlen; fold n; lia.
Qed.

(** The mean is outside this statement: the sum is accumulated in the order
    of the sample, and floating-point addition is not associative. *)
Remark mean_depends_on_order :
  exists s s',
    calculateStats Reference.engine [1e16; 1; -1e16]%float = Normal s
    /\ calculateStats Reference.engine [1e16; -1e16; 1]%float = Normal s'
    /\ (mean s =? mean s')%float = false.
Proof. eexists _, _. split; [reflexivity|]. split; [reflexivity|]. reflexivity. Qed.

(** X5.  The range detector is switched off exactly by a baseline whose
    observations are all equal: for the summary [calculateStats] makes of a
    non-empty sample of finite numbers, the guard [baselineRange === 0]
    holds if and only if any two observations are equal (as numbers), and
    then [detectRangeAnomaly] records nothing, whatever the current
    summary. *)
Theorem range_detector_off_iff_constant_sample (E : engine)
    (data : list float) :
  data <> [] ->
  Forall (fun x => is_finite x = true) data ->
  exists baseline,
    calculateStats E data = Normal baseline
    /\ (JS.strict_eq (max baseline - min baseline) 0 = true
        <-> forall x y, In x data -> In y data -> (x =? y)%float = true)
    /\ ((forall x y, In x data -> In y data -> (x =? y)%float = true) ->
        forall current this,
          detectRangeAnomaly E baseline current this
          = Normal (not_detected, this)).
Proof.
  intros Hne Hdata.
  destruct (calculateStats_fields E data Hne)
    as (b & Hb & _ & Hmin & Hmax & _).
  set (n := List.length data) in *.
  assert (Hn : (1 <= n)%nat) by (subst n; destruct data; [congruence|simpl; lia]).
  assert (Imin : In (min b) data)
    by (rewrite Hmin; apply sorted_get_member; fold n; lia).
  assert (Imax : In (max b) data)
    by (rewrite Hmax; apply sorted_get_member; fold n; lia).
  pose proof Hdata as Hfin. rewrite Forall_forall in Hfin.
  assert (Hguard : JS.strict_eq (max b - min b) 0 = (max b =? min b)%float)
    by (apply Exact.sub_zero_iff; now apply Hfin).
  assert (Hiff : JS.strict_eq (max b - min b) 0 = true
                 <-> forall x y, In x data -> In y data -> (x =? y)%float = true).
  { rewrite Hguard. split; [|now auto].
    intros Hsame.
    assert (Hx : forall x, In x data -> SameNumber.same x (min b)).
    { intros x Hx. destruct (member_sorted_get data x Hx) as (i & Hi & Hget).
      fold n in Hi.
      assert (Hlo : (min b <=? x)%float = true)
        by (rewrite Hmin, <- Hget; apply sorted_get_le; try assumption; fold n; lia).
      assert (Hhi : (x <=? max b)%float = true)
        by (rewrite Hmax, <- Hget; apply sorted_get_le; try assumption; fold n; lia).
      apply SameNumber.same_of_not_lt; try now apply Hfin.
      - now apply FloatOrder.leb_ltb_false.
      - rewrite (SameNumber.ltb_same_l (min b) (max b) x)
          by now apply SameNumber.same_sym.
        now apply FloatOrder.leb_ltb_false. }
    intros x y Ix Iy.
    apply SameNumber.same_trans with (min b); [now apply Hx|].
    now apply SameNumber.same_sym, Hx. }
  exists b. split; [exact Hb|]. split; [exact Hiff|].
  intros Hall current this. unfold detectRangeAnomaly.
  now rewrite (proj2 Hiff Hall).
Qed.

(** ** The confidence returned by [analyze] *)

Lemma outcome_cases (cs : list Z) (o : outcome) :
  outcome_confidence_in cs o ->
  o = None \/ exists c a, o = Some (c, a) /\ In c cs.
Proof. destruct o as [[c a]|]; simpl; eauto. Qed.

(** X6.  The confidence returned by [analyze] lies between 0 and 100 and is
    a multiple of 5, and at most four anomalies are recorded.  It reaches 90
    exactly when the magnitude detector reports a severe shift (95) or the
    unit-conversion detector fires (90): the distribution and range
    detectors, and a significant magnitude shift (70), never bring it there,
    alone or together.  It reaches 70 exactly when the magnitude or the
    unit-conversion detector fires, or the distribution and the range
    detectors both fire. *)
Theorem analyze_confidence_levels (E : engine) (b c : summary)
    (this : detector) :
  let magnitude := contribution (detectMagnitudeShift E b c) this in
  let conversion := contribution (detectUnitConversion E b c) this in
  let distribution := contribution (detectDistributionShift E b c) this in
  let range := contribution (detectRangeAnomaly E b c) this in
  exists r this',
    analyze E b c this = Normal (r, this')
    /\ (0 <= res_confidence r <= 100)%Z
    /\ (res_confidence r mod 5 = 0)%Z
    /\ (List.length (res_anomalies r) <= 4)%nat
    /\ ((90 <= res_confidence r)%Z
        <-> magnitude = [95%Z] \/ conversion = [90%Z])
    /\ ((70 <= res_confidence r)%Z
        <-> magnitude <> [] \/ conversion <> []
            \/ (distribution <> [] /\ range <> [])).
Proof.
  intros magnitude conversion distribution range.
  destruct (outcomes_exist E b c (comparisonType this)) as (os & Hos).
  exists (result_of os), (state_of (comparisonType this) os).
  split; [now apply analyze_outcomes|].
  pose proof Hos as (H1 & H2 & H3 & H4 & C1 & C2 & C3 & C4).
  subst magnitude conversion distribution range.
  rewrite (contribution_behaves _ _ _ (H1 this)),
    (contribution_behaves _ _ _ (H2 this eq_refl)),
    (contribution_behaves _ _ _ (H3 this)),
    (contribution_behaves _ _ _ (H4 this)).
  unfold result_of, all_scores, all_anomalies; cbn [res_confidence res_anomalies].
  destruct os as [o1 o2 o3 o4]; cbn [magnitude_o conversion_o distribution_o range_o] in *.
  clear Hos H1 H2 H3 H4.
  destruct (outcome_cases _ _ C1) as [->|(c1 & a1 & -> & I1)];
    destruct (outcome_cases _ _ C2) as [->|(c2 & a2 & -> & I2)];
    destruct (outcome_cases _ _ C3) as [->|(c3 & a3 & -> & I3)];
    destruct (outcome_cases _ _ C4) as [->|(c4 & a4 & -> & I4)];
    cbn [In] in *;
    repeat match goal with
    | H : _ \/ _ |- _ => destruct H
    | H : False |- _ => destruct H
    end; subst;
    cbn; (repeat split; try lia; try reflexivity; try discriminate;
      try (intros; intuition (congruence || lia))).
Qed.

(** ** A summary compared with itself *)

Section SameSummary.

Variable E : engine.
Variable s : summary.

(** The two values of [Math.log10] that ECMAScript fixes and the comparison
    of a summary with itself reaches. *)
Hypothesis log10_one : Math_log10 E 1 = 0%float.
Hypothesis log10_nan : Math_log10 E nan = nan.

Local Open Scope float_scope.

Lemma magnitude_same (this : detector) :
  detectMagnitudeShift E s s this = Normal (not_detected, this).
Proof.
  unfold detectMagnitudeShift. cbv zeta.
  destruct (JS.strict_eq (mean s) 0); [reflexivity|].
  destruct (Exact.div_self (mean s)) as [-> | ->].
  - change (abs 1) with 1. rewrite log10_one. reflexivity.
  - change (abs nan) with nan. rewrite log10_nan. reflexivity.
Qed.

(** No ratio of the table is within its tolerance of 1. *)
Lemma conversion_same (this : detector) :
  detectUnitConversion E s s this = Normal (not_detected, this).
Proof.
  unfold detectUnitConversion, bind, this_, ret. cbv zeta.
  unfold lookupHeuristic.
  destruct (assoc (comparisonType this) conversionHeuristics) as [h|] eqn:Hh;
    [|now destruct (existsb _ _)].
  destruct (JS.strict_eq (mean s) 0) eqn:Hz.
  { destruct (JS.falsy (ratio h)); [reflexivity|].
    destruct (ratio h); reflexivity. }
  revert Hh. unfold assoc, conversionHeuristics.
  repeat match goal with
  | |- context [String.eqb (comparisonType this) ?k] =>
      destruct (String.eqb (comparisonType this) k)
  end;
  intros [= <-]; cbn [ratio tolerance description JS.falsy];
    try reflexivity;
    destruct (Exact.div_self (mean s)) as [-> | ->]; reflexivity.
Qed.

Lemma distribution_same (this : detector) :
  detectDistributionShift E s s this = Normal (not_detected, this).
Proof.
  unfold detectDistributionShift. cbv zeta.
  destruct (negb _ || negb _); [reflexivity|].
  destruct (Exact.div_self (std_dev s / mean s)) as [-> | ->];
    destruct (Exact.sub_self (median s / mean s)) as [-> | ->]; reflexivity.
Qed.

Lemma range_same (this : detector) :
  detectRangeAnomaly E s s this = Normal (not_detected, this).
Proof.
  unfold detectRangeAnomaly. cbv zeta.
  destruct (JS.strict_eq _ _); [reflexivity|].
  destruct (Exact.div_self (max s - min s)) as [-> | ->]; reflexivity.
Qed.

End SameSummary.

(** X7.  A summary compared with itself raises nothing: on an engine whose
    [Math.log10] has the values ECMAScript fixes at 1 and at NaN, [analyze]
    called with the same summary as baseline and as current sample returns
    confidence 0, no anomaly and [detected] false, for every summary (also
    one with zero, infinite or NaN fields), every comparison type and every
    previous state of the detector. *)
Theorem analyze_same_summary_detects_nothing (E : engine) (s : summary)
    (this : detector) :
  Math_log10 E 1 = 0%float -> Math_log10 E nan = nan ->
  analyze E s s this
  = Normal ({| res_confidence := 0; res_anomalies := []; res_detected := false |},
            {| comparisonType := comparisonType this; anomalies := [];
               confidence := 0 |}).
Proof.
  intros Hone Hnan.
  unfold analyze, analyze_reset, run_detectors.
  unfold bind at 1. unfold set_anomalies at 1.
  unfold bind at 1. unfold bind at 1. unfold bind at 1.
  rewrite (magnitude_same E s Hone Hnan).
  unfold bind at 1. rewrite conversion_same.
  unfold bind at 1. rewrite distribution_same.
  unfold bind at 1. rewrite range_same.
  reflexivity.
Qed.

(** ** The anomalies, detector by detector *)

(** The confidence of each signal and the words its anomaly starts with. *)
Definition magnitude_labels : list (Z * string) :=
  [ (95%Z, "Severe magnitude drop: "%string);
    (95%Z, "Severe magnitude increase: "%string);
    (70%Z, "Significant magnitude shift: "%string) ].

Definition conversion_labels : list (Z * string) :=
  [ (90%Z, "Possible "%string) ].

Definition distribution_labels : list (Z * string) :=
  [ (60%Z, "Distribution variability "%string);
    (55%Z, "Distribution skew changed: "%string) ].

Definition range_labels : list (Z * string) :=
  [ (65%Z, "Data range expanded significantly: "%string);
    (65%Z, "Data range contracted significantly: "%string) ].

Definition outcome_labelled (labels : list (Z * string)) (o : outcome) : Prop :=
  match o with
  | None => True
  | Some (c, a) => exists label, In (c, label) labels /\ prefix label a = true
  end.

Lemma outcome_labelled_confidence labels cs o :
  incl (map fst labels) cs ->
  outcome_labelled labels o -> outcome_confidence_in cs o.
Proof.
  intros Hi. destruct o as [[c a]|]; simpl; [|auto].
  intros (label & Hin & _). apply Hi. now apply (in_map fst) in Hin.
Qed.

Ltac labelled :=
  eexists (Some (_, _)); split;
  [intros; unfold behaves; run; reflexivity
  |eexists; split; [|apply prefix_append]; simpl; auto 6].

Lemma detectMagnitudeShift_labelled E b c :
  exists o, (forall this, behaves (detectMagnitudeShift E b c) this o)
            /\ outcome_labelled magnitude_labels o.
Proof.
  unfold detectMagnitudeShift.
  destruct (JS.strict_eq (mean b) 0); [abstains|].
  destruct (JS.gt _ _); [|abstains].
  destruct (_ <? 0.1)%float; [labelled|].
  destruct (JS.gt _ 10); [labelled|].
  destruct (_ || _); [labelled|abstains].
Qed.

Lemma detectUnitConversion_labelled E b c key :
  exists o, (forall this, comparisonType this = key ->
                          behaves (detectUnitConversion E b c) this o)
            /\ outcome_labelled conversion_labels o.
Proof.
  assert (Hskip : forall this,
             detectUnitConversion E b c this = Normal (not_detected, this) ->
             behaves (detectUnitConversion E b c) this None)
    by (intros; now apply behaves_none).
  destruct (lookupHeuristic key) as [[h|]|] eqn:Hp.
  2,3: exists None; split; [|exact I]; intros this Hk; apply Hskip;
       unfold detectUnitConversion; run; now rewrite Hk, Hp.
  destruct (ratio h) as [expected|] eqn:Hr.
  2:{ exists None; split; [|exact I]; intros this Hk; apply Hskip.
      unfold detectUnitConversion; run. rewrite Hk, Hp; cbv beta iota zeta.
      now rewrite Hr. }
  destruct (JS.falsy (Some expected)) eqn:Hf.
  { exists None; split; [|exact I]; intros this Hk; apply Hskip.
    unfold detectUnitConversion; run. rewrite Hk, Hp; cbv beta iota zeta.
    now rewrite Hr, Hf. }
  destruct (JS.strict_eq (mean b) 0) eqn:Hz.
  { exists None; split; [|exact I]; intros this Hk; apply Hskip.
    unfold detectUnitConversion; run. rewrite Hk, Hp; cbv beta iota zeta.
    rewrite Hr, Hf; cbv beta iota zeta. now rewrite Hz. }
  destruct (abs (mean c / mean b - expected) / expected <? tolerance h)%float
    eqn:Hfw.
  { eexists (Some (_, _)); split.
    - intros this Hk.
      unfold behaves, detectUnitConversion; run. rewrite Hk, Hp; cbv beta iota zeta.
      rewrite Hr, Hf; cbv beta iota zeta. rewrite Hz, Hfw. reflexivity.
    - exists "Possible "%string. split; [simpl; auto|apply prefix_append]. }
  destruct (abs (1 / (mean c / mean b) - expected) / expected <? tolerance h)%float
    eqn:Hinv.
  { eexists (Some (_, _)); split.
    - intros this Hk.
      unfold behaves, detectUnitConversion; run. rewrite Hk, Hp; cbv beta iota zeta.
      rewrite Hr, Hf; cbv beta iota zeta. rewrite Hz, Hfw, Hinv. reflexivity.
    - exists "Possible "%string. split; [simpl; auto|reflexivity]. }
  exists None; split; [|exact I]; intros this Hk; apply Hskip.
  unfold detectUnitConversion; run. rewrite Hk, Hp; cbv beta iota zeta.
  rewrite Hr, Hf; cbv beta iota zeta. now rewrite Hz, Hfw, Hinv.
Qed.

Lemma detectDistributionShift_labelled E b c :
  exists o, (forall this, behaves (detectDistributionShift E b c) this o)
            /\ outcome_labelled distribution_labels o.
Proof.
  unfold detectDistributionShift.
  destruct (_ || _); [abstains|].
  destruct (_ || _).
  - eexists (Some (_, _)); split;
      [intros; unfold behaves; run; reflexivity|].
    exists "Distribution variability "%string.
    split; [simpl; auto|apply prefix_append].
  - destruct (JS.gt _ _); [|abstains].
    eexists (Some (_, _)); split;
      [intros; unfold behaves; run; reflexivity|].
    exists "Distribution skew changed: "%string.
    split; [simpl; auto|reflexivity].
Qed.

Lemma detectRangeAnomaly_labelled E b c :
  exists o, (forall this, behaves (detectRangeAnomaly E b c) this o)
            /\ outcome_labelled range_labels o.
Proof.
  unfold detectRangeAnomaly.
  destruct (JS.strict_eq _ _); [abstains|].
  destruct (JS.gt _ _); [labelled|].
  destruct (_ <? _)%float; [labelled|abstains].
Qed.

(** X8.  The anomalies returned by [analyze] are those of the four
    detectors in the order magnitude, unit conversion, distribution, range,
    at most one for each, and the confidences that are aggregated are theirs
    in the same order.  Each anomaly starts with the words of its signal:
    "Severe magnitude drop: " or "Severe magnitude increase: " (95) or
    "Significant magnitude shift: " (70); "Possible " (90); "Distribution
    variability " (60) or "Distribution skew changed: " (55); "Data range
    expanded significantly: " or "Data range contracted significantly: "
    (65).  The call leaves these anomalies in the detector and does not
    change its comparison type. *)
Theorem analyze_anomalies_by_detector (E : engine) (b c : summary)
    (this : detector) :
  exists r this' (magnitude conversion distribution range : option (Z * string)),
    analyze E b c this = Normal (r, this')
    /\ res_anomalies r
       = outcome_anomalies magnitude ++ outcome_anomalies conversion
         ++ outcome_anomalies distribution ++ outcome_anomalies range
    /\ fired_confidences E b c this
       = outcome_scores magnitude ++ outcome_scores conversion
         ++ outcome_scores distribution ++ outcome_scores range
    /\ outcome_labelled magnitude_labels magnitude
    /\ outcome_labelled conversion_labels conversion
    /\ outcome_labelled distribution_labels distribution
    /\ outcome_labelled range_labels range
    /\ anomalies this' = res_anomalies r
    /\ comparisonType this' = comparisonType this.
Proof.
  destruct (detectMagnitudeShift_labelled E b c) as (o1 & H1 & L1).
  destruct (detectUnitConversion_labelled E b c (comparisonType this))
    as (o2 & H2 & L2).
  destruct (detectDistributionShift_labelled E b c) as (o3 & H3 & L3).
  destruct (detectRangeAnomaly_labelled E b c) as (o4 & H4 & L4).
  set (os := {| magnitude_o := o1; conversion_o := o2; distribution_o := o3;
                range_o := o4 |}).
  assert (Hos : outcomes_of E b c (comparisonType this) os).
  { repeat split; try assumption.
    - apply (outcome_labelled_confidence magnitude_labels); [|exact L1].
      unfold incl; simpl; tauto.
    - apply (outcome_labelled_confidence conversion_labels); [|exact L2].
      unfold incl; simpl; tauto.
    - apply (outcome_labelled_confidence distribution_labels); [|exact L3].
      unfold incl; simpl; tauto.
    - apply (outcome_labelled_confidence range_labels); [|exact L4].
      unfold incl; simpl; tauto. }
  exists (result_of os), (state_of (comparisonType this) os), o1, o2, o3, o4.
  split; [now apply analyze_outcomes|].
  split; [reflexivity|].
  split; [now rewrite (fired_confidences_outcomes E b c os this Hos)|].
  repeat split; assumption.
Qed.

(** ** The report after a call of [analyze] *)

(** The lines of the report of [generateDiagnostics] around the anomalies. *)
Definition analysis_line (key : string) : list string :=
  match lookupHeuristic key with
  | Some p => [(newline ++ "Analysis type: " ++ property_description p)%string]
  | None => []
  end.

Definition common_causes : list string :=
  [(newline ++ "Common causes:")%string;
   "  - Unit conversion (currency, temperature, length)"%string;
   "  - Locale/region change in data source"%string;
   "  - Schema migration without data transformation"%string;
   "  - Upstream API changes"%string;
   "  - Data aggregation level changes"%string].

(** The four headlines, by a confidence of their tier. *)
Definition headline_high : string := banner 90.
Definition headline_medium : string := banner 70.
Definition headline_low : string := banner 50.
Definition headline_none : string := banner 0.

Lemma banner_tiers (c : Z) :
  banner c
  = if (90 <=? c)%Z then headline_high
    else if (70 <=? c)%Z then headline_medium
    else if (50 <=? c)%Z then headline_low
    else headline_none.
Proof. reflexivity. Qed.

Lemma headlines_differ :
  headline_high <> headline_none /\ headline_medium <> headline_none
  /\ headline_low <> headline_none /\ headline_high <> headline_medium
  /\ headline_high <> headline_low /\ headline_medium <> headline_low.
Proof. repeat split; discriminate. Qed.

Lemma numbered_nth (anomalies : list string) (idx i : nat) (a : string) :
  nth_error anomalies i = Some a ->
  nth_error (numbered idx anomalies) i
  = Some ("  " ++ JS.decimal (Z.of_nat (idx + i) + 1) ++ ". " ++ a)%string.
Proof.
  revert idx i. induction anomalies as [|x l IH]; intros idx i H.
  - destruct i; discriminate H.
  - destruct i as [|i]; cbn [nth_error numbered] in *.
    + injection H as ->. now rewrite Nat.add_0_r.
    + rewrite (IH (S idx) i H). do 4 f_equal. lia.
Qed.

Lemma numbered_length (anomalies : list string) (idx : nat) :
  List.length (numbered idx anomalies) = List.length anomalies.
Proof.
  revert idx. induction anomalies as [|x l IH]; intros idx; simpl; auto.
Qed.

(** X9.  The report of [generateDiagnostics] on the detector left by
    [analyze].  When nothing was detected it is the headline "No significant
    semantic drift detected", followed only by the "Analysis type" line of
    the comparison type (if the table knows it).  When something was
    detected the headline is never that one: it is the HIGH one from 90 on,
    the MEDIUM one from 70 on and the LOW one below; then come the analysis
    line, "Detected anomalies:", one line for each anomaly of the result, in
    order and numbered from 1 ("  <i+1>. <anomaly>"), and the six lines of
    common causes. *)
Theorem diagnostics_after_analyze (E : engine) (b c : summary)
    (this : detector) :
  exists r this',
    analyze E b c this = Normal (r, this')
    /\ (res_detected r = false ->
        generateDiagnostics this'
        = String.concat newline
            (headline_none :: analysis_line (comparisonType this)))
    /\ (res_detected r = true ->
        banner (res_confidence r) <> headline_none
        /\ banner (res_confidence r)
           = (if (90 <=? res_confidence r)%Z then headline_high
              else if (70 <=? res_confidence r)%Z then headline_medium
              else headline_low)
        /\ generateDiagnostics this'
           = String.concat newline
               (banner (res_confidence r)
                :: analysis_line (comparisonType this)
                   ++ [(newline ++ "Detected anomalies:")%string]
                   ++ numbered 0 (res_anomalies r)
                   ++ common_causes))
    /\ List.length (numbered 0 (res_anomalies r))
       = List.length (res_anomalies r)
    /\ (forall i a,
          nth_error (res_anomalies r) i = Some a ->
          nth_error (numbered 0 (res_anomalies r)) i
          = Some ("  " ++ JS.decimal (Z.of_nat i + 1) ++ ". " ++ a)%string).
Proof.
  destruct (outcomes_exist E b c (comparisonType this)) as (os & Hos).
  exists (result_of os), (state_of (comparisonType this) os).
  split; [now apply analyze_outcomes|].
  pose proof (all_scores_levels E b c _ os Hos) as Hl.
  pose proof (all_lengths os) as Hlen.
  unfold result_of; cbn [res_detected res_confidence res_anomalies].
  split; [|split; [|split]].
  - intros Hd. unfold generateDiagnostics, state_of, analysis_line;
      cbn [anomalies confidence comparisonType].
    rewrite Hd.
    destruct (all_anomalies os) as [|a l]; [|discriminate Hd].
    destruct (all_scores os) as [|v rest]; [|discriminate Hlen].
    now destruct (lookupHeuristic (comparisonType this)).
  - intros Hd.
    assert (Hb : (55 <= aggregate (all_scores os) <= 100)%Z).
    { apply aggregate_bounds; [|exact Hl].
      intros Hnil. rewrite Hnil in Hlen.
      destruct (all_anomalies os); [discriminate Hd|discriminate Hlen]. }
    assert (Htier : banner (aggregate (all_scores os))
                    = (if (90 <=? aggregate (all_scores os))%Z then headline_high
                       else if (70 <=? aggregate (all_scores os))%Z
                            then headline_medium
                            else headline_low)).
    { rewrite banner_tiers.
      destruct (90 <=? _)%Z; [reflexivity|].
      destruct (70 <=? _)%Z; [reflexivity|].
      destruct (50 <=? _)%Z eqn:H50; [reflexivity|].
      apply Z.leb_gt in H50. lia. }
    split; [|split; [exact Htier|]].
    + rewrite Htier. destruct headlines_differ as (D1 & D2 & D3 & _).
      destruct (90 <=? _)%Z; [exact D1|].
      destruct (70 <=? _)%Z; [exact D2|exact D3].
    + unfold generateDiagnostics, state_of, analysis_line;
        cbn [anomalies confidence comparisonType].
      rewrite Hd.
      now destruct (lookupHeuristic (comparisonType this)).
  - apply numbered_length.
  - intros i a Hi. now rewrite (numbered_nth _ 0 i a Hi).
Qed.

(** ** The fields of a summary that [analyze] reads *)

(** The mean, the median, the standard deviation, the minimum and the
    maximum. *)
Definition fields_read (s : summary) : float * float * float * float * float :=
  (mean s, median s, std_dev s, min s, max s).

(** X10.  [analyze] reads five fields of each summary: the mean, the median,
    the standard deviation, the minimum and the maximum.  Two baselines
    (and two current summaries) that agree on these give the same result
    and leave the same state: the count of the observations, the variance,
    p25 and p75 play no part in the analysis. *)
Theorem analyze_ignores_count_and_quartiles (E : engine)
    (b b' c c' : summary) (this : detector) :
  fields_read b = fields_read b' ->
  fields_read c = fields_read c' ->
  analyze E b c this = analyze E b' c' this.
Proof.
  unfold fields_read. intros [= Hb1 Hb2 Hb3 Hb4 Hb5] [= Hc1 Hc2 Hc3 Hc4 Hc5].
  unfold analyze, run_detectors, detectMagnitudeShift, detectUnitConversion,
    detectDistributionShift, detectRangeAnomaly.
  now rewrite Hb1, Hb2, Hb3, Hb4, Hb5, Hc1, Hc2, Hc3, Hc4, Hc5.
Qed.


(** ** Degenerate means *)

Lemma behaves_not_detected m this o :
  behaves m this o -> m this = Normal (not_detected, this) -> o = None.
Proof.
  unfold behaves. intros -> H. destruct o as [[c a]|]; [|reflexivity].
  discriminate H.
Qed.

Lemma behaves_fired m this o c a :
  behaves m this o -> m this = Normal (fired c, appended this [a]) ->
  o = Some (c, a).
Proof.
  unfold behaves. intros -> H. destruct o as [[c' a']|]; [|discriminate H].
  cbn in H. injection H as Hc Ha. apply app_inv_head in Ha.
  injection Ha as ->. now subst.
Qed.

Lemma aggregate_head (v : Z) (rest : list Z) :
  Forall (fun c => In c signal_levels) (v :: rest) ->
  (v <= aggregate (v :: rest))%Z.
Proof.
  intros Hall. rewrite aggregate_spec.
  destruct rest as [|w rest]; [simpl; lia|].
  assert (Hb : Forall (fun c => 55 <= c <= 95)%Z (v :: w :: rest)).
  { eapply Forall_impl; [|exact Hall]. unfold signal_levels; simpl.
    intros c Hc. intuition lia. }
  pose proof (maximum_bounds 55 95 (w :: rest) ltac:(discriminate)
                (Forall_inv_tail Hb)) as Hm.
  inversion Hb as [|? ? Hv _]; subst.
  unfold spec_confidence.
  change (maximum (v :: w :: rest)) with (Z.max v (maximum (w :: rest))).
  assert (0 <= Z.of_nat (List.length (v :: w :: rest)) - 1)%Z
    by (simpl List.length; lia).
  lia.
Qed.

(** When the magnitude, unit-conversion and distribution detectors record
    nothing, only the range detector is left. *)
Lemma only_range_left (E : engine) (b c : summary) (this : detector) :
  detectMagnitudeShift E b c this = Normal (not_detected, this) ->
  detectUnitConversion E b c this = Normal (not_detected, this) ->
  detectDistributionShift E b c this = Normal (not_detected, this) ->
  exists r this',
    analyze E b c this = Normal (r, this')
    /\ (res_confidence r = 0%Z \/ res_confidence r = 65%Z)
    /\ (List.length (res_anomalies r) <= 1)%nat.
Proof.
  intros Hm Hu Hd.
  destruct (outcomes_exist E b c (comparisonType this)) as (os & Hos).
  exists (result_of os), (state_of (comparisonType this) os).
  split; [now apply analyze_outcomes|].
  destruct Hos as (H1 & H2 & H3 & _ & _ & _ & _ & C4).
  pose proof (behaves_not_detected _ this _ (H1 this) Hm) as Ho1.
  pose proof (behaves_not_detected _ this _ (H2 this eq_refl) Hu) as Ho2.
  pose proof (behaves_not_detected _ this _ (H3 this) Hd) as Ho3.
  unfold result_of, all_scores, all_anomalies;
    cbn [res_confidence res_anomalies].
  rewrite Ho1, Ho2, Ho3. cbn [outcome_scores outcome_anomalies app].
  destruct (outcome_cases _ _ C4) as [->|(c4 & a4 & -> & I4)].
  - cbn. split; [now left|lia].
  - cbn [In] in I4. destruct I4 as [<-|[]]. cbn. split; [now right|lia].
Qed.

Section ZeroCurrentMean.

Variable E : engine.
Variables baseline current : summary.

(** The value of [Math.log10] at 0 that ECMAScript fixes. *)
Hypothesis log10_zero : Math_log10 E 0 = neg_infinity.

Hypothesis baseline_finite : is_finite (mean baseline) = true.
Hypothesis baseline_not_zero : JS.strict_eq (mean baseline) 0 = false.
Hypothesis current_zero : JS.strict_eq (mean current) 0 = true.

Local Open Scope float_scope.

Lemma zero_mean_ratio :
  mean current / mean baseline = 0 \/ mean current / mean baseline = -0.
Proof.
  apply Exact.zero_cases, Exact.zero_div.
  - now apply Exact.eqb_zero_iff.
  - exact baseline_not_zero.
  - now apply finite_not_nan.
Qed.

Lemma zero_mean_change :
  (mean current - mean baseline) / mean baseline = -1.
Proof.
  rewrite Exact.zero_sub;
    [|now apply Exact.eqb_zero_iff|exact baseline_finite|exact baseline_not_zero].
  destruct (Exact.div_opp_self (mean baseline)) as [H|H]; [exact H|].
  exfalso. revert H.
  pose proof baseline_finite as Hf. pose proof baseline_not_zero as Hz.
  rewrite FloatFacts.is_finite_spec in Hf.
  unfold JS.strict_eq in Hz. rewrite eqb_spec in Hz.
  change (Prim2SF 0) with (S754_zero false) in Hz.
  intros H. apply (f_equal Prim2SF) in H.
  rewrite div_spec, opp_spec in H. change (Prim2SF nan) with S754_nan in H.
  destruct (Prim2SF (mean baseline)) as [s|s| |s m e]; try discriminate.
  cbn [SFopp] in H. rewrite Exact.SFdiv_same_magnitude in H. discriminate H.
Qed.

Lemma magnitude_zero_current (this : detector) :
  detectMagnitudeShift E baseline current this
  = Normal (fired 95,
            appended this
              ["Severe magnitude drop: -100.00% decrease (ratio: 0.0000)"%string]).
Proof.
  unfold detectMagnitudeShift. cbv zeta.
  rewrite baseline_not_zero, zero_mean_change.
  destruct zero_mean_ratio as [-> | ->].
  - change (abs 0) with 0. rewrite log10_zero. run. reflexivity.
  - change (abs (-0)) with 0. rewrite log10_zero. run. reflexivity.
Qed.

End ZeroCurrentMean.

(** X11.  A current sample whose mean is zero, against a baseline whose mean
    is finite and not zero, is always reported as a severe drop: on an
    engine whose [Math.log10] is -Infinity at 0 (as ECMAScript fixes), the
    magnitude detector fires with confidence 95 and the anomaly "Severe
    magnitude drop: -100.00% decrease (ratio: 0.0000)", and [analyze]
    returns [detected] true, a confidence of at least 95 and that anomaly
    first. *)
Theorem zero_current_mean_is_severe_drop (E : engine)
    (baseline current : summary) (this : detector) :
  Math_log10 E 0 = neg_infinity ->
  is_finite (mean baseline) = true ->
  JS.strict_eq (mean baseline) 0 = false ->
  JS.strict_eq (mean current) 0 = true ->
  let a := "Severe magnitude drop: -100.00% decrease (ratio: 0.0000)"%string in
  detectMagnitudeShift E baseline current this
  = Normal (fired 95, appended this [a])
  /\ exists r this',
       analyze E baseline current this = Normal (r, this')
       /\ res_detected r = true
       /\ (95 <= res_confidence r)%Z
       /\ exists rest, res_anomalies r = a :: rest.
Proof.
  intros Hlog Hfin Hb Hc a.
  pose proof (magnitude_zero_current E baseline current Hlog Hfin Hb Hc) as Hm.
  split; [apply Hm|].
  destruct (outcomes_exist E baseline current (comparisonType this))
    as (os & Hos).
  exists (result_of os), (state_of (comparisonType this) os).
  split; [now apply analyze_outcomes|].
  pose proof (all_scores_levels E baseline current _ os Hos) as Hl.
  destruct Hos as (H1 & _).
  pose proof (behaves_fired _ this _ _ _ (H1 this) (Hm this)) as Ho.
  unfold result_of, all_anomalies, all_scores in *;
    cbn [res_detected res_confidence res_anomalies].
  rewrite Ho in *. cbn [outcome_anomalies outcome_scores app] in *.
  split; [reflexivity|]. split; [now apply aggregate_head|].
  eexists. reflexivity.
Qed.

Section SignFlip.

Variable E : engine.
Variables baseline current : summary.

Hypothesis log10_one : Math_log10 E 1 = 0%float.
Hypothesis log10_nan : Math_log10 E nan = nan.

(** The current mean is the opposite of the baseline mean. *)
Hypothesis flipped : mean current = (- mean baseline)%float.

Local Open Scope float_scope.

Lemma magnitude_sign_flip (this : detector) :
  detectMagnitudeShift E baseline current this = Normal (not_detected, this).
Proof.
  unfold detectMagnitudeShift. cbv zeta. rewrite flipped.
  destruct (JS.strict_eq (mean baseline) 0); [reflexivity|].
  destruct (Exact.div_opp_self (mean baseline)) as [-> | ->].
  - change (abs (-1)) with 1. rewrite log10_one. reflexivity.
  - change (abs nan) with nan. rewrite log10_nan. reflexivity.
Qed.

Lemma conversion_sign_flip (this : detector) :
  detectUnitConversion E baseline current this = Normal (not_detected, this).
Proof.
  unfold detectUnitConversion, bind, this_, ret. cbv zeta. rewrite flipped.
  unfold lookupHeuristic.
  destruct (assoc (comparisonType this) conversionHeuristics) as [h|] eqn:Hh;
    [|now destruct (existsb _ _)].
  destruct (JS.strict_eq (mean baseline) 0) eqn:Hz.
  { destruct (JS.falsy (ratio h)); [reflexivity|].
    destruct (ratio h); reflexivity. }
  revert Hh. unfold assoc, conversionHeuristics.
  repeat match goal with
  | |- context [String.eqb (comparisonType this) ?k] =>
      destruct (String.eqb (comparisonType this) k)
  end;
  intros [= <-]; cbn [ratio tolerance description JS.falsy];
    try reflexivity;
    destruct (Exact.div_opp_self (mean baseline)) as [-> | ->]; reflexivity.
Qed.

End SignFlip.

(** X12.  A sign flip of the mean is invisible to the magnitude and to the
    unit-conversion detector: when the current mean is the opposite of the
    baseline mean (and [Math.log10] has the values ECMAScript fixes at 1 and
    at NaN), the ratio of the means is -1 or NaN, neither detector records
    anything, and the confidence of [analyze] is at most 70, whatever the
    other fields of the summaries are. *)
Theorem sign_flip_is_not_a_magnitude_shift (E : engine)
    (baseline current : summary) (this : detector) :
  Math_log10 E 1 = 0%float -> Math_log10 E nan = nan ->
  mean current = (- mean baseline)%float ->
  detectMagnitudeShift E baseline current this = Normal (not_detected, this)
  /\ detectUnitConversion E baseline current this = Normal (not_detected, this)
  /\ exists r this',
       analyze E baseline current this = Normal (r, this')
       /\ (res_confidence r <= 70)%Z.
Proof.
  intros Hone Hnan Hflip.
  pose proof (magnitude_sign_flip E baseline current Hone Hnan Hflip) as Hm.
  pose proof (conversion_sign_flip E baseline current Hflip) as Hu.
  split; [apply Hm|]. split; [apply Hu|].
  destruct (outcomes_exist E baseline current (comparisonType this))
    as (os & Hos).
  exists (result_of os), (state_of (comparisonType this) os).
  split; [now apply analyze_outcomes|].
  destruct Hos as (H1 & H2 & _ & _ & _ & _ & C3 & C4).
  pose proof (behaves_not_detected _ this _ (H1 this) (Hm this)) as Ho1.
  pose proof (behaves_not_detected _ this _ (H2 this eq_refl) (Hu this)) as Ho2.
  unfold result_of, all_scores; cbn [res_confidence].
  rewrite Ho1, Ho2. cbn [outcome_scores app].
  destruct (outcome_cases _ _ C3) as [->|(c3 & a3 & -> & I3)];
    destruct (outcome_cases _ _ C4) as [->|(c4 & a4 & -> & I4)];
    cbn [In] in *;
    repeat match goal with
    | H : _ \/ _ |- _ => destruct H
    | H : False |- _ => destruct H
    end; subst; cbn; lia.
Qed.

Section NaNMean.

Variable E : engine.
Variables baseline current : summary.

Hypothesis log10_nan : Math_log10 E nan = nan.
Hypothesis mean_nan :
  is_nan (mean baseline) = true \/ is_nan (mean current) = true.

Local Open Scope float_scope.

Lemma nan_mean_ratio (x y : float) :
  is_nan x = true \/ is_nan y = true -> y / x = nan.
Proof.
  intros [H|H]; apply Exact.is_nan_inv in H; subst.
  - apply Exact.div_nan_r.
  - apply Exact.div_nan_l.
Qed.

Lemma magnitude_nan_mean (this : detector) :
  detectMagnitudeShift E baseline current this = Normal (not_detected, this).
Proof.
  unfold detectMagnitudeShift. cbv zeta.
  destruct (JS.strict_eq (mean baseline) 0); [reflexivity|].
  rewrite (nan_mean_ratio _ _ mean_nan).
  change (abs nan) with nan. rewrite log10_nan. reflexivity.
Qed.

Lemma conversion_nan_mean (this : detector) :
  detectUnitConversion E baseline current this = Normal (not_detected, this).
Proof.
  unfold detectUnitConversion, bind, this_, ret. cbv zeta.
  rewrite (nan_mean_ratio _ _ mean_nan).
  unfold lookupHeuristic.
  destruct (assoc (comparisonType this) conversionHeuristics) as [h|] eqn:Hh;
    [|now destruct (existsb _ _)].
  destruct (JS.strict_eq (mean baseline) 0) eqn:Hz.
  { destruct (JS.falsy (ratio h)); [reflexivity|].
    destruct (ratio h); reflexivity. }
  revert Hh. unfold assoc, conversionHeuristics.
  repeat match goal with
  | |- context [String.eqb (comparisonType this) ?k] =>
      destruct (String.eqb (comparisonType this) k)
  end;
  intros [= <-]; reflexivity.
Qed.

Lemma distribution_nan_mean (this : detector) :
  detectDistributionShift E baseline current this
  = Normal (not_detected, this).
Proof.
  unfold detectDistributionShift. cbv zeta.
  destruct mean_nan as [H|H]; apply Exact.is_nan_inv in H; rewrite H;
    rewrite Exact.div_nan_r.
  - reflexivity.
  - change (JS.isFinite nan) with false. cbn [negb]. now rewrite orb_true_r.
Qed.

End NaNMean.

(** X13.  A NaN mean silences three of the four detectors: when the mean of
    the baseline or of the current summary is NaN (and [Math.log10] is NaN
    at NaN, as ECMAScript fixes), the magnitude, unit-conversion and
    distribution detectors record nothing, so that [analyze] returns the
    confidence 0, or 65 when the range detector fires, and at most one
    anomaly. *)
Theorem nan_mean_silences_three_detectors (E : engine)
    (baseline current : summary) (this : detector) :
  Math_log10 E nan = nan ->
  is_nan (mean baseline) = true \/ is_nan (mean current) = true ->
  detectMagnitudeShift E baseline current this = Normal (not_detected, this)
  /\ detectUnitConversion E baseline current this = Normal (not_detected, this)
  /\ detectDistributionShift E baseline current this
     = Normal (not_detected, this)
  /\ exists r this',
       analyze E baseline current this = Normal (r, this')
       /\ (res_confidence r = 0%Z \/ res_confidence r = 65%Z)
       /\ (List.length (res_anomalies r) <= 1)%nat.
Proof.
  intros Hlog Hnan.
  pose proof (magnitude_nan_mean E baseline current Hlog Hnan) as Hm.
  pose proof (conversion_nan_mean E baseline current Hnan) as Hu.
  pose proof (distribution_nan_mean E baseline current Hnan) as Hd.
  split; [apply Hm|]. split; [apply Hu|]. split; [apply Hd|].
  apply only_range_left; [apply Hm|apply Hu|apply Hd].
Qed.

(** X14.  A baseline whose mean is zero (centred data, for instance) leaves
    only the range detector: the magnitude, unit-conversion and distribution
    detectors record nothing whatever the current summary is, so that
    [analyze] returns the confidence 0, or 65 when the range detector
    fires, and at most one anomaly. *)
Theorem zero_baseline_mean_leaves_only_range (E : engine)
    (baseline current : summary) (this : detector) :
  JS.strict_eq (mean baseline) 0 = true ->
  exists r this',
    analyze E baseline current this = Normal (r, this')
    /\ (res_confidence r = 0%Z \/ res_confidence r = 65%Z)
    /\ (List.length (res_anomalies r) <= 1)%nat.
Proof.
  intros Hz. apply only_range_left.
  - unfold detectMagnitudeShift. now rewrite Hz.
  - unfold detectUnitConversion, bind, this_, ret.
    destruct (lookupHeuristic (comparisonType this)) as [[h|]|]; try reflexivity.
    destruct (JS.falsy (ratio h)); [reflexivity|].
    destruct (ratio h); [|reflexivity]. now rewrite Hz.
  - unfold detectDistributionShift, JS.isFinite.
    now rewrite (FloatFacts.div_zero_not_finite (std_dev baseline) _ Hz).
Qed.

(** * Properties of the CSV reader *)

Lemma split_nonempty (sep : ascii) (s : string) : split sep s <> [].
Proof.
  destruct s as [|ch s]; simpl; [discriminate|].
  destruct (Ascii.eqb ch sep); [discriminate|].
  destruct (split sep s); discriminate.
Qed.


(** Joining the pieces with the separator gives the string back. *)
Lemma join_split (sep : ascii) (s : string) :
  join (String sep EmptyString) (split sep s) = s.
Proof.
  unfold join. induction s as [|ch s IH]; [reflexivity|].
  cbn [split]. pose proof (split_nonempty sep s) as Hn.
  destruct (Ascii.eqb_spec ch sep) as [->|Hne].
  - destruct (split sep s) as [|piece pieces]; [congruence|].
    change (String.concat (String sep EmptyString) (EmptyString :: piece :: pieces))
      with (String sep (String.concat (String sep EmptyString) (piece :: pieces))).
    now rewrite IH.
  - destruct (split sep s) as [|piece [|piece' pieces]]; [congruence| |].
    + cbn in *. now rewrite IH.
    + change (String.concat (String sep EmptyString)
                (String ch piece :: piece' :: pieces))
        with (String ch (String.concat (String sep EmptyString)
                           (piece :: piece' :: pieces))).
      now rewrite IH.
Qed.

(** [indexOf] answers -1 exactly when the string is not in the array, and
    otherwise the first index that holds it. *)
Lemma indexOf_spec (a : list string) (x : string) :
  (indexOf a x = (-1)%Z /\ ~ In x a)
  \/ (exists k, indexOf a x = Z.of_nat k
                /\ nth_error a k = Some x
                /\ forall j, (j < k)%nat -> nth_error a j <> Some x).
Proof.
  induction a as [|y a IH]; cbn [indexOf].
  - left. split; [reflexivity|tauto].
  - destruct (String.eqb_spec y x) as [->|Hne].
    + right. exists 0%nat. repeat split. intros j Hj; lia.
    + destruct IH as [[-> Hnot]|(k & -> & Hk & Hfirst)].
      * left. split; [reflexivity|]. simpl. tauto.
      * right. exists (S k).
        destruct (Z.eqb_spec (Z.of_nat k) (-1)); [lia|].
        split; [lia|]. split; [exact Hk|].
        intros [|j] Hj; cbn [nth_error]; [congruence|]. apply Hfirst. lia.
Qed.

Lemma read_rows (T : text) (k : nat) (lines : list string)
    (values : list float) :
  fold_left (read_row T k) lines values
  = values
    ++ filter (fun v => negb (is_nan v))
         (map (fun line => parseFloat T (cell (split comma line) k)) lines).
Proof.
  revert values. induction lines as [|line lines IH]; intros values;
    cbn [fold_left map filter].
  - now rewrite app_nil_r.
  - rewrite IH. unfold read_row.
    destruct (negb (is_nan _)); [|reflexivity].
    now rewrite <- app_assoc.
Qed.


(** X16.  When [parseCSV] returns, the column it read is the first one whose
    trimmed header is the column name, and the array holds, in the order of
    the data rows, what [parseFloat] makes of the cell of that column in
    each row, without the rows where that is NaN (a row with too few cells
    is read as [undefined]).  So no element of the array is NaN, there is at
    most one element for each data row, and a file without any number in
    the column gives the empty array, on which [calculateStats] throws. *)
Theorem parseCSV_values (T : text) (content columnName : string)
    (values : list float) :
  parseCSV T content columnName = Normal values ->
  let lines := split LF (String_trim T content) in
  let headers := map (String_trim T) (split comma (nth 0 lines EmptyString)) in
  exists k,
    nth_error headers k = Some columnName
    /\ (forall j, (j < k)%nat -> nth_error headers j <> Some columnName)
    /\ values
       = filter (fun v => negb (is_nan v))
           (map (fun line => parseFloat T (cell (split comma line) k))
              (tl lines))
    /\ Forall (fun v => is_nan v = false) values
    /\ (List.length values <= List.length lines - 1)%nat
    /\ (Forall (fun line =>
                  is_nan (parseFloat T (cell (split comma line) k)) = true)
          (tl lines) ->
        values = []
        /\ forall E, calculateStats E values
                     = Throw (Error "Cannot calculate statistics on empty data")).
Proof.
  intros Hrun lines headers. unfold parseCSV in Hrun.
  fold lines in Hrun. fold headers in Hrun.
  destruct (List.length lines <? 2)%nat; [discriminate Hrun|].
  destruct (indexOf_spec headers columnName)
    as [[Hi _]|(k & Hi & Hk & Hfirst)]; rewrite Hi in Hrun.
  - discriminate Hrun.
  - destruct (Z.eqb_spec (Z.of_nat k) (-1)); [lia|].
    rewrite Nat2Z.id, read_rows in Hrun. injection Hrun as Hv.
    cbn [app] in Hv.
    exists k. split; [exact Hk|]. split; [exact Hfirst|].
    split; [now symmetry|]. subst values. split; [|split].
    + apply Forall_forall. intros v Hv. apply filter_In in Hv.
      destruct Hv as (_ & Hv). now destruct (is_nan v).
    + etransitivity; [apply filter_length_le|].
      rewrite length_map. destruct lines; simpl; lia.
    + intros Hall.
      assert (Hnil : filter (fun v => negb (is_nan v))
                       (map (fun line => parseFloat T (cell (split comma line) k))
                          (tl lines)) = []).
      { induction (tl lines) as [|line rest IH]; [reflexivity|].
        inversion Hall as [|? ? Hline Hrest]; subst.
        cbn [map filter]. rewrite Hline. cbn [negb]. now apply IH. }
      rewrite Hnil. split; reflexivity.
Qed.

(** ** The theorems at concrete inputs, on the reference engine *)

(** A summary with the given mean, standard deviation and median, and the
    range 0..10. *)
Definition summary_of (mean std_dev median : float) : summary :=
  {| mean := mean; median := median; std_dev := std_dev; min := 0; max := 10;
     p25 := 1; p75 := 9; count := 10; variance := (std_dev * std_dev)%float |}.

Lemma detectMagnitudeShift_tiers_witness :
  JS.gt (abs (Math_log10 Reference.engine (abs (5 / 100)))) 0.5 = true
  /\ exists a,
       detectMagnitudeShift Reference.engine (summary_of 100 1 100)
         (summary_of 5 1 5) (new_detector "custom_numeric_distribution")
       = Normal (fired 95,
                 appended (new_detector "custom_numeric_distribution") [a])
       /\ prefix "Severe magnitude drop" a = true.
Proof.
  split; [vm_compute; reflexivity|].
  apply (proj2 (proj2 (proj2
           (detectMagnitudeShift_tiers Reference.engine (summary_of 100 1 100)
              (summary_of 5 1 5) (new_detector "custom_numeric_distribution")))));
    vm_compute; reflexivity.
Defined.

Lemma detectUnitConversion_matches_witness :
  detectUnitConversion Reference.engine (summary_of 1.0 1 1)
    (summary_of 83.0 1 83) (new_detector "currency_usd_to_inr")
  = Normal (fired 90,
            appended (new_detector "currency_usd_to_inr")
              ["Possible USD to INR conversion: ratio 83.00 matches expected 83.00"%string]).
Proof.
  apply (proj2 (proj2 (proj2 (proj2 (proj2
           (detectUnitConversion_matches Reference.engine (summary_of 1.0 1 1)
              (summary_of 83.0 1 83) (new_detector "currency_usd_to_inr")))))));
    reflexivity.
Defined.

Lemma detectDistributionShift_exclusive_witness :
  exists a,
    detectDistributionShift Reference.engine (summary_of 10 1 10)
      (summary_of 10 1 7) (new_detector "custom_numeric_distribution")
    = Normal (fired 55,
              appended (new_detector "custom_numeric_distribution") [a])
    /\ prefix "Distribution skew changed" a = true.
Proof.
  apply (proj1 (proj2 (proj2
           (detectDistributionShift_exclusive Reference.engine
              (summary_of 10 1 10) (summary_of 10 1 7)
              (new_detector "custom_numeric_distribution")))));
    vm_compute; reflexivity.
Defined.

Lemma analyze_never_throws_witness :
  detectMagnitudeShift Reference.engine (summary_of 0 1 0) (summary_of 5 1 5)
    stale_detector
  = Normal (not_detected, stale_detector)
  /\ detectUnitConversion Reference.engine (summary_of 0 1 0)
       (summary_of 5 1 5) stale_detector
     = Normal (not_detected, stale_detector)
  /\ detectDistributionShift Reference.engine (summary_of 0 1 0)
       (summary_of 5 1 5) stale_detector
     = Normal (not_detected, stale_detector).
Proof.
  apply (proj1 (proj2 (proj2 (proj2 (proj2 (proj2 (proj2
           (analyze_never_throws Reference.engine (summary_of 0 1 0)
              (summary_of 5 1 5) stale_detector)))))))).
  reflexivity.
Defined.

Lemma calculateStats_throws_iff_empty_witness :
  exists s,
    calculateStats Reference.engine [1; 2; 3; 4]%float = Normal s
    /\ variance s = 1.25%float.
Proof.
  destruct (proj2 (proj2 (calculateStats_throws_iff_empty Reference.engine)))
    as (s & Hs & _ & _ & _ & _ & _ & _ & _ & Hv).
  exists s. split; [exact Hs|]. apply Hv.
  intros d [<-|[<-|[<-|[<-|[]]]]]; reflexivity.
Defined.

(** The summary of a single observation. *)
Example calculateStats_single :
  calculateStats Reference.engine [5]%float
  = Normal {| mean := 5; median := 5; std_dev := 0; min := 5; max := 5;
              p25 := 5; p75 := 5; count := 1; variance := 0 |}.
Proof. vm_compute. reflexivity. Qed.

(** The four detectors on one pair of summaries: a ratio of 3.3 with the type
    length_m_to_ft fires the magnitude detector (70) and the unit-conversion
    detector (90) and nothing else, and the confidence is 95. *)
Example analyze_two_signals :
  analyze Reference.engine
    {| mean := 1; median := 1; std_dev := 1; min := 0; max := 10;
       p25 := 0.5; p75 := 2; count := 10; variance := 1 |}
    {| mean := 3.3; median := 3.3; std_dev := 3.3; min := 0; max := 33;
       p25 := 1.65; p75 := 6.6; count := 10; variance := 10.89 |}
    {| comparisonType := "length_m_to_ft";
       anomalies := ["Data range expanded significantly: 6.0x larger than baseline"%string];
       confidence := 65 |}
  = Normal
      ({| res_confidence := 95;
          res_anomalies :=
            ["Significant magnitude shift: 230.00% change";
             "Possible Meters to Feet: ratio 3.30 matches expected 3.28"]%string;
          res_detected := true |},
       {| comparisonType := "length_m_to_ft";
          anomalies :=
            ["Significant magnitude shift: 230.00% change";
             "Possible Meters to Feet: ratio 3.30 matches expected 3.28"]%string;
          confidence := 95 |}).
Proof. vm_compute. reflexivity. Qed.

Lemma summary_quartiles_ordered_witness :
  exists s,
    calculateStats Reference.engine [1; 2; 3; 4]%float = Normal s
    /\ (min s <=? p25 s)%float = true /\ (p25 s <=? median s)%float = true
    /\ (median s <=? p75 s)%float = true /\ (p75 s <=? max s)%float = true.
Proof.
  destruct (summary_quartiles_ordered Reference.engine [1; 2; 3; 4]%float)
    as (s & Hs & _ & _ & _ & _ & _ & _ & Hmed & _ & Hord).
  - cbn. lia.
  - repeat constructor.
  - exists s. split; [exact Hs|]. apply Hord. rewrite Hmed. reflexivity.
Defined.

(** ** The further theorems at concrete inputs *)

(** A summary with the given minimum and maximum. *)
Definition summary_between (min max : float) : summary :=
  {| mean := 5; median := 5; std_dev := 1; min := min; max := max;
     p25 := min; p75 := max; count := 10; variance := 1 |}.

Lemma detectRangeAnomaly_tiers_witness :
  detectRangeAnomaly Reference.engine (summary_between 0 10)
    (summary_between 0 100) (new_detector "custom_numeric_distribution")
  = Normal (fired 65,
            appended (new_detector "custom_numeric_distribution")
              ["Data range expanded significantly: 10.0x larger than baseline"%string])
  /\ detectRangeAnomaly Reference.engine (summary_between 0 10)
       (summary_between 4 5) (new_detector "custom_numeric_distribution")
     = Normal (fired 65,
               appended (new_detector "custom_numeric_distribution")
                 ["Data range contracted significantly: 10% of baseline range"%string]).
Proof.
  split.
  - apply (proj1 (proj2
             (detectRangeAnomaly_tiers Reference.engine (summary_between 0 10)
                (summary_between 0 100)
                (new_detector "custom_numeric_distribution"))));
      vm_compute; reflexivity.
  - apply (proj1 (proj2 (proj2
             (detectRangeAnomaly_tiers Reference.engine (summary_between 0 10)
                (summary_between 4 5)
                (new_detector "custom_numeric_distribution")))));
      vm_compute; reflexivity.
Defined.

Lemma range_guard_iff_constant_baseline_witness :
  detectRangeAnomaly Reference.engine (summary_between 7 7)
    (summary_between 0 100) (new_detector "custom_numeric_distribution")
  = Normal (not_detected, new_detector "custom_numeric_distribution")
  /\ detectRangeAnomaly Reference.engine (summary_between 0 10)
       (summary_between 7 7) (new_detector "custom_numeric_distribution")
     = Normal (fired 65,
               appended (new_detector "custom_numeric_distribution")
                 ["Data range contracted significantly: 0% of baseline range"%string]).
Proof.
  split.
  - apply (proj1 (proj2
             (range_guard_iff_constant_baseline Reference.engine
                (summary_between 7 7) (summary_between 0 100)
                (new_detector "custom_numeric_distribution")
                eq_refl eq_refl))).
    reflexivity.
  - apply (proj2 (proj2
             (range_guard_iff_constant_baseline Reference.engine
                (summary_between 0 10) (summary_between 7 7)
                (new_detector "custom_numeric_distribution")
                eq_refl eq_refl)));
      reflexivity.
Defined.

Lemma summary_bounds_witness :
  exists s,
    calculateStats Reference.engine [3; 1; 2]%float = Normal s
    /\ (min s <=? p25 s)%float = true /\ (p25 s <=? median s)%float = true
    /\ (median s <=? p75 s)%float = true /\ (p75 s <=? max s)%float = true
    /\ In (median s) [3; 1; 2]%float.
Proof.
  destruct (summary_bounds Reference.engine [3; 1; 2]%float)
    as (s & Hs & _ & _ & _ & _ & _ & _ & H1 & _ & H3 & Hodd & Hmed).
  - discriminate.
  - repeat constructor.
  - exists s. split; [exact Hs|].
    assert (Hfin : is_finite (median s) = true)
      by (vm_compute in Hs; injection Hs as <-; reflexivity).
    destruct (Hmed Hfin) as (H2a & H2b).
    repeat split; try assumption. apply Hodd. cbn. lia.
Defined.

Lemma order_statistics_ignore_order_witness :
  exists s s',
    calculateStats Reference.engine [1e16; 1; -1e16]%float = Normal s
    /\ calculateStats Reference.engine [1e16; -1e16; 1]%float = Normal s'
    /\ (median s =? median s')%float = true
    /\ (mean s =? mean s')%float = false.
Proof.
  destruct (order_statistics_ignore_order Reference.engine
              [1e16; 1; -1e16]%float [1e16; -1e16; 1]%float)
    as (s & s' & Hs & Hs' & _ & _ & _ & _ & _ & Hmed).
  - apply perm_skip, perm_swap.
  - discriminate.
  - repeat constructor.
  - exists s, s'. split; [exact Hs|]. split; [exact Hs'|].
    split; [exact Hmed|].
    vm_compute in Hs, Hs'. injection Hs as <-. injection Hs' as <-.
    reflexivity.
Defined.

Lemma range_detector_off_iff_constant_sample_witness :
  exists baseline,
    calculateStats Reference.engine [7; 7; 7]%float = Normal baseline
    /\ forall current this,
         detectRangeAnomaly Reference.engine baseline current this
         = Normal (not_detected, this).
Proof.
  destruct (range_detector_off_iff_constant_sample Reference.engine
              [7; 7; 7]%float)
    as (baseline & Hb & _ & Hoff).
  - discriminate.
  - repeat constructor.
  - exists baseline. split; [exact Hb|]. apply Hoff.
    intros x y [<-|[<-|[<-|[]]]] [<-|[<-|[<-|[]]]]; reflexivity.
Defined.

Lemma analyze_same_summary_detects_nothing_witness :
  analyze Reference.engine (summary_of 100 1 100) (summary_of 100 1 100)
    stale_detector
  = Normal ({| res_confidence := 0; res_anomalies := []; res_detected := false |},
            {| comparisonType := "currency_usd_to_inr"; anomalies := [];
               confidence := 0 |}).
Proof.
  apply (analyze_same_summary_detects_nothing Reference.engine
           (summary_of 100 1 100) stale_detector); reflexivity.
Defined.

(** A file with two columns named "value" (the first one is read), a row
    without a number, a row that is too short and a padded cell. *)
Definition sample_csv : string :=
  "id, value ,value" ++ newline ++ "1,10,7" ++ newline ++ "2,x" ++ newline
  ++ "3" ++ newline ++ "4, 30" ++ newline.



Lemma parseCSV_values_witness :
  parseCSV ReferenceText.text sample_csv "value" = Normal [10; 30]%float
  /\ exists k,
       nth_error ["id"; "value"; "value"]%string k = Some "value"%string
       /\ Forall (fun v => is_nan v = false) [10; 30]%float.
Proof.
  split; [reflexivity|].
  destruct (parseCSV_values ReferenceText.text sample_csv "value"
              [10; 30]%float eq_refl)
    as (k & Hk & _ & _ & Hnan & _).
  exists k. split; [exact Hk|exact Hnan].
Defined.

Lemma analyze_ignores_count_and_quartiles_witness :
  analyze Reference.engine
    {| mean := 1; median := 1; std_dev := 1; min := 0; max := 10;
       p25 := 0.5; p75 := 2; count := 10; variance := 1 |}
    (summary_of 5 1 5) (new_detector "custom_numeric_distribution")
  = analyze Reference.engine
      {| mean := 1; median := 1; std_dev := 1; min := 0; max := 10;
         p25 := 0; p75 := 10; count := 100000; variance := 7 |}
      (summary_of 5 1 5) (new_detector "custom_numeric_distribution").
Proof.
  apply (analyze_ignores_count_and_quartiles Reference.engine); reflexivity.
Defined.

Lemma zero_current_mean_is_severe_drop_witness :
  detectMagnitudeShift Reference.engine (summary_of 100 1 100)
    (summary_of 0 1 0) (new_detector "custom_numeric_distribution")
  = Normal (fired 95,
            appended (new_detector "custom_numeric_distribution")
              ["Severe magnitude drop: -100.00% decrease (ratio: 0.0000)"%string]).
Proof.
  apply (zero_current_mean_is_severe_drop Reference.engine
           (summary_of 100 1 100) (summary_of 0 1 0)
           (new_detector "custom_numeric_distribution"));
    reflexivity.
Defined.

Lemma sign_flip_is_not_a_magnitude_shift_witness :
  detectMagnitudeShift Reference.engine (summary_of 100 1 100)
    (summary_of (-100) 1 (-100)) (new_detector "currency_usd_to_inr")
  = Normal (not_detected, new_detector "currency_usd_to_inr").
Proof.
  apply (sign_flip_is_not_a_magnitude_shift Reference.engine
           (summary_of 100 1 100) (summary_of (-100) 1 (-100))
           (new_detector "currency_usd_to_inr"));
    reflexivity.
Defined.

Lemma nan_mean_silences_three_detectors_witness :
  exists r this',
    analyze Reference.engine (summary_of nan 1 1) (summary_of 5 1 5)
      (new_detector "currency_usd_to_inr")
    = Normal (r, this')
    /\ (res_confidence r = 0%Z \/ res_confidence r = 65%Z)
    /\ (List.length (res_anomalies r) <= 1)%nat.
Proof.
  apply (nan_mean_silences_three_detectors Reference.engine
           (summary_of nan 1 1) (summary_of 5 1 5)
           (new_detector "currency_usd_to_inr"));
    [reflexivity|left; reflexivity].
Defined.

Lemma zero_baseline_mean_leaves_only_range_witness :
  exists r this',
    analyze Reference.engine (summary_of 0 1 0) (summary_of 500 1 5)
      (new_detector "currency_usd_to_inr")
    = Normal (r, this')
    /\ (res_confidence r = 0%Z \/ res_confidence r = 65%Z)
    /\ (List.length (res_anomalies r) <= 1)%nat.
Proof.
  apply (zero_baseline_mean_leaves_only_range Reference.engine
           (summary_of 0 1 0) (summary_of 500 1 5)
           (new_detector "currency_usd_to_inr")).
  reflexivity.
Defined.
